(** * A shallow embedding of [src/datamodel.py]

    The module keeps customers, stores with their menus and per-customer receipt
    lists in a [ReceiptSystem] object.  [Customer] and [Receipt] instances are
    Python objects that the system reaches through references and that some
    methods update in place, so they live in an explicit object store; the
    methods of [ReceiptSystem] are state transformers that may raise.

    Conventions.
    - A Python [str] is a [string] holding the UTF-8 bytes of its code points.
      A [str] may hold a surrogate code point (U+D800 to U+DFFF), which has
      no UTF-8 encoding; it is written here in the same three-byte form, as
      [encode('utf-8', 'surrogatepass')] writes it.  The map is one to one
      and takes concatenation to concatenation, so [==], [+] and [bool] on
      [str] are those on [string]; [encode()] returns the bytes and raises
      [UnicodeEncodeError] when there is a surrogate.
    - [str.lower] depends on the Unicode tables of the interpreter.  The
      methods that call it take it as the argument [lower], and what is
      proved about them holds for every function in its place.
      [capitalize] is only applied to the words of the built-in vocabulary
      and is modelled on ASCII text ([lower_ascii]).
    - [datetime] values are naive (no [tzinfo]).
    - A price is a binary64 float that is only stored and copied; two prices
      are compared as values, so a NaN is equal to itself here.
    - The results of [random], [secrets] and [datetime.now] are arguments. *)

From Stdlib Require Import ZArith Ascii String Strings.Byte PrimFloat.
From stdpp Require Import base option gmap strings list sorting.

Local Open Scope string_scope.
Local Open Scope list_scope.
Local Open Scope Z_scope.

(** ** Python values and exceptions *)

(** The exceptions that the modelled code can raise.  [ReferenceError] marks
    the use of a reference that the object store does not hold; Python keeps
    every referenced object alive, so no run of the program reaches it. *)
Inductive exn :=
| ValueError (msg : string)
| OverflowError (msg : string)
| KeyError (key : string)
| TypeError (msg : string)
| IndexError (msg : string)
| BinasciiError (msg : string)
| UnicodeEncodeError (reason : string)
| ReferenceError (msg : string).

(** What evaluating an expression or running a statement gives. *)
Inductive outcome (A : Type) :=
| Return (a : A)
| Raise (e : exn).
Arguments Return {A} a.
Arguments Raise {A} e.

Definition outcome_bind {A B} (f : A → outcome B) (m : outcome A) : outcome B :=
  match m with
  | Return a => f a
  | Raise e => Raise e
  end.

Definition outcome_fmap {A B} (f : A → B) (m : outcome A) : outcome B :=
  match m with
  | Return a => Return (f a)
  | Raise e => Raise e
  end.

#[global] Instance outcome_ret : MRet outcome := @Return.
#[global] Instance outcome_is_fmap : FMap outcome := @outcome_fmap.
#[global] Instance outcome_mbind : MBind outcome := @outcome_bind.

Definition is_return {A} (m : outcome A) : bool :=
  match m with Return _ => true | Raise _ => false end.

(** A computation over a mutable state [S]: when it raises, the state is the
    one reached at the [raise]. *)
Definition Py (S A : Type) : Type := S → outcome A * S.

Definition py_ret {S A} (a : A) : Py S A := λ σ, (Return a, σ).
Definition py_raise {S A} (e : exn) : Py S A := λ σ, (Raise e, σ).
Definition py_bind {S A B} (m : Py S A) (f : A → Py S B) : Py S B :=
  λ σ, match m σ with
       | (Return a, σ') => f a σ'
       | (Raise e, σ') => (Raise e, σ')
       end.
Definition py_get {S} : Py S S := λ σ, (Return σ, σ).
Definition py_modify {S} (f : S → S) : Py S unit := λ σ, (Return tt, f σ).

Declare Scope py_scope.
Delimit Scope py_scope with py.
Notation "'do' x <- m ; k" := (py_bind m (λ x, k))
  (at level 10, x name, m at level 100, k at level 200) : py_scope.
Notation "'perform' m ; k" := (py_bind m (λ _, k))
  (at level 10, m at level 100, k at level 200) : py_scope.

(** [bool(s)] for a string. *)
Definition str_truthy (s : string) : bool :=
  match s with EmptyString => false | String _ _ => true end.

(** [bool(x)] for [x] that is [None] or a string. *)
Definition opt_str_truthy (o : option string) : bool :=
  match o with None => false | Some s => str_truthy s end.

Definition ascii_lower (c : ascii) : ascii :=
  let n := nat_of_ascii c in
  if ((65 <=? n) && (n <=? 90))%nat then ascii_of_nat (n + 32) else c.

Definition ascii_upper (c : ascii) : ascii :=
  let n := nat_of_ascii c in
  if ((97 <=? n) && (n <=? 122))%nat then ascii_of_nat (n - 32) else c.

(** [str.lower] on ASCII text: the letters [A] to [Z] are folded, every
    other byte is kept. *)
Fixpoint lower_ascii (s : string) : string :=
  match s with
  | EmptyString => EmptyString
  | String c s' => String (ascii_lower c) (lower_ascii s')
  end.

(** [str.capitalize] on ASCII text: first character upper-cased, the rest
    lower-cased. *)
Definition capitalize (s : string) : string :=
  match s with
  | EmptyString => EmptyString
  | String c s' => String (ascii_upper c) (lower_ascii s')
  end.

(** The string holds a surrogate code point: the byte [0xED] followed by a
    byte from [0xA0] to [0xBF]. *)
Fixpoint has_surrogate (s : string) : bool :=
  match s with
  | EmptyString => false
  | String a s' =>
      match s' with
      | EmptyString => false
      | String b _ =>
          ((nat_of_ascii a =? 237) && (160 <=? nat_of_ascii b)
           && (nat_of_ascii b <=? 191))%nat
          || has_surrogate s'
      end
  end.

(** [s.encode()], with the default encoding UTF-8 and error handler
    [strict]. *)
Definition encode (s : string) : outcome (list byte) :=
  if has_surrogate s then Raise (UnicodeEncodeError "surrogates not allowed")
  else Return (list_byte_of_string s).

Definition newline : string := String (ascii_of_nat 10) EmptyString.

(** ** Decimal fields *)

Definition digit_char (d : Z) : ascii := ascii_of_nat (48 + Z.to_nat d).

Definition digit_value (c : ascii) : option Z :=
  let n := Z.of_nat (nat_of_ascii c) in
  if (48 <=? n) && (n <=? 57) then Some (n - 48) else None.

(** ["%0<width>d" % n] for [0 <= n < 10^width]. *)
Fixpoint zero_pad (width : nat) (n : Z) : string :=
  match width with
  | O => EmptyString
  | S w => zero_pad w (n / 10) +:+ String (digit_char (n mod 10)) EmptyString
  end.

(** Reads exactly [k] decimal digits on top of the accumulator [acc]. *)
Fixpoint take_digits_from (k : nat) (acc : Z) (s : string) : option (Z * string) :=
  match k with
  | O => Some (acc, s)
  | S k' =>
      match s with
      | EmptyString => None
      | String c s' =>
          match digit_value c with
          | Some d => take_digits_from k' (acc * 10 + d) s'
          | None => None
          end
      end
  end.

Definition take_digits (k : nat) (s : string) : option (Z * string) :=
  take_digits_from k 0 s.

Definition expect_char (c : ascii) (s : string) : option string :=
  match s with
  | String c' s' => if Ascii.eqb c c' then Some s' else None
  | EmptyString => None
  end.

(** Decimal rendering of a non-negative integer without padding ([str(n)]). *)
Fixpoint decimal_fuel (fuel : nat) (n : Z) (acc : string) : string :=
  match fuel with
  | O => acc
  | S f =>
      let acc' := String (digit_char (n mod 10)) acc in
      if n / 10 =? 0 then acc' else decimal_fuel f (n / 10) acc'
  end.

Definition decimal (n : Z) : string :=
  decimal_fuel (S (Z.to_nat (Z.log2 n))) n EmptyString.

(** ** [datetime]

    A naive [datetime] with the fields CPython stores.  Every object that the
    constructor returns satisfies [valid]. *)
Module datetime.

Record t := mk {
  year : Z; month : Z; day : Z;
  hour : Z; minute : Z; second : Z; microsecond : Z
}.

Definition MINYEAR : Z := 1.
Definition MAXYEAR : Z := 9999.
(** [date.max.toordinal()] *)
Definition _MAXORDINAL : Z := 3652059.

Definition _DAYS_IN_MONTH : list Z :=
  [-1; 31; 28; 31; 30; 31; 30; 31; 31; 30; 31; 30; 31].
Definition _DAYS_BEFORE_MONTH : list Z :=
  [-1; 0; 31; 59; 90; 120; 151; 181; 212; 243; 273; 304; 334].

Definition _is_leap (y : Z) : bool :=
  (y mod 4 =? 0) && (negb (y mod 100 =? 0) || (y mod 400 =? 0)).

Definition _days_before_year (year : Z) : Z :=
  let y := year - 1 in
  y * 365 + y / 4 - y / 100 + y / 400.

Definition _days_in_month (year month : Z) : Z :=
  if (month =? 2) && _is_leap year then 29
  else nth (Z.to_nat month) _DAYS_IN_MONTH 0.

Definition _days_before_month (year month : Z) : Z :=
  nth (Z.to_nat month) _DAYS_BEFORE_MONTH 0
  + (if (2 <? month) && _is_leap year then 1 else 0).

Definition _ymd2ord (year month day : Z) : Z :=
  _days_before_year year + _days_before_month year month + day.

Definition _DI400Y : Z := _days_before_year 401.
Definition _DI100Y : Z := _days_before_year 101.
Definition _DI4Y : Z := _days_before_year 5.

Definition _ord2ymd (n : Z) : Z * Z * Z :=
  let n := n - 1 in
  let n400 := n / _DI400Y in
  let n := n mod _DI400Y in
  let year := n400 * 400 + 1 in
  let n100 := n / _DI100Y in
  let n := n mod _DI100Y in
  let n4 := n / _DI4Y in
  let n := n mod _DI4Y in
  let n1 := n / 365 in
  let n := n mod 365 in
  let year := year + n100 * 100 + n4 * 4 + n1 in
  if (n1 =? 4) || (n100 =? 4) then (year - 1, 12, 31)
  else
    let leapyear := (n1 =? 3) && (negb (n4 =? 24) || (n100 =? 3)) in
    let month := Z.shiftr (n + 50) 5 in
    let preceding :=
      nth (Z.to_nat month) _DAYS_BEFORE_MONTH 0
      + (if (2 <? month) && leapyear then 1 else 0) in
    if n <? preceding then
      let month := month - 1 in
      let preceding :=
        preceding - (nth (Z.to_nat month) _DAYS_IN_MONTH 0
                     + (if (month =? 2) && leapyear then 1 else 0)) in
      (year, month, n - preceding + 1)
    else (year, month, n - preceding + 1).

(** The range checks of the constructor. *)
Definition is_valid (d : t) : bool :=
  (MINYEAR <=? year d) && (year d <=? MAXYEAR)
  && (1 <=? month d) && (month d <=? 12)
  && (1 <=? day d) && (day d <=? _days_in_month (year d) (month d))
  && (0 <=? hour d) && (hour d <=? 23)
  && (0 <=? minute d) && (minute d <=? 59)
  && (0 <=? second d) && (second d <=? 59)
  && (0 <=? microsecond d) && (microsecond d <=? 999999).

Definition valid (d : t) : Prop := is_valid d = true.

(** [datetime(year, month, day, hour, minute, second, microsecond)] *)
Definition make (y mo d h mi s us : Z) : outcome t :=
  let r := mk y mo d h mi s us in
  if is_valid r then Return r
  else Raise (ValueError "datetime field out of range").

Definition toordinal (d : t) : Z := _ymd2ord (year d) (month d) (day d).

(** [d + timedelta(days=n)]: the date moves by [n] days and the time of day
    stays; a date outside [date.min .. date.max] is an [OverflowError]. *)
Definition add_days (d : t) (n : Z) : outcome t :=
  let o := toordinal d + n in
  if (0 <? o) && (o <=? _MAXORDINAL) then
    let '(y, m, dd) := _ord2ymd o in
    Return (mk y m dd (hour d) (minute d) (second d) (microsecond d))
  else Raise (OverflowError "date value out of range").

(** [d.strftime('%Y-%m-%d')].  The directives are those of the C library:
    [%m] and [%d] have two digits, and [%Y] is the year as glibc writes it,
    without padding, so a year below 1000 has fewer than four digits. *)
Definition strftime_ymd (d : t) : string :=
  decimal (year d) +:+ "-" +:+ zero_pad 2 (month d) +:+ "-"
  +:+ zero_pad 2 (day d).

(** [d.isoformat()]: the fraction is written only when it is not zero. *)
Definition isoformat (d : t) : string :=
  zero_pad 4 (year d) +:+ "-" +:+ zero_pad 2 (month d) +:+ "-"
  +:+ zero_pad 2 (day d) +:+ "T"
  +:+ zero_pad 2 (hour d) +:+ ":" +:+ zero_pad 2 (minute d) +:+ ":"
  +:+ zero_pad 2 (second d)
  +:+ (if microsecond d =? 0 then "" else "." +:+ zero_pad 6 (microsecond d)).

(** [YYYY-MM-DD] *)
Definition _parse_isoformat_date (s : string) : option (Z * Z * Z * string) :=
  '(y, s) ← take_digits 4 s;
  s ← expect_char "-" s;
  '(m, s) ← take_digits 2 s;
  s ← expect_char "-" s;
  '(d, s) ← take_digits 2 s;
  Some (y, m, d, s).

(** The fraction after the seconds: nothing, or [.fff], or [.ffffff]. *)
Definition _parse_fraction (s : string) : option Z :=
  match s with
  | EmptyString => Some 0
  | String c s' =>
      if Ascii.eqb c "." then
        match String.length s' with
        | 3%nat => '(f, _) ← take_digits 3 s'; Some (f * 1000)
        | 6%nat => '(f, _) ← take_digits 6 s'; Some f
        | _ => None
        end
      else None
  end.

(** [HH[:MM[:SS[.fff[fff]]]]] *)
Definition _parse_hh_mm_ss_ff (s : string) : option (Z * Z * Z * Z) :=
  '(h, s) ← take_digits 2 s;
  match s with
  | EmptyString => Some (h, 0, 0, 0)
  | _ =>
      s ← expect_char ":" s;
      '(mi, s) ← take_digits 2 s;
      match s with
      | EmptyString => Some (h, mi, 0, 0)
      | _ =>
          s ← expect_char ":" s;
          '(sec, s) ← take_digits 2 s;
          us ← _parse_fraction s;
          Some (h, mi, sec, us)
      end
  end.

(** [datetime.fromisoformat] on the texts of naive datetimes in the form
    [YYYY-MM-DD[*HH[:MM[:SS[.fff[fff]]]]]], which is what [isoformat()]
    writes and what every version of the method reads alike.  The method
    also reads a text with a UTC offset, and from Python 3.11 on further
    ISO 8601 forms; these are outside this definition, which answers them
    like a text that is no timestamp.  What is proved below reads only the
    texts that [isoformat()] wrote. *)
Definition fromisoformat (s : string) : outcome t :=
  let bad := Raise (ValueError ("Invalid isoformat string: " +:+ s)) in
  match _parse_isoformat_date s with
  | None => bad
  | Some (y, m, d, rest) =>
      match rest with
      | EmptyString => make y m d 0 0 0 0
      | String _ tstr =>
          match _parse_hh_mm_ss_ff tstr with
          | None => bad
          | Some (h, mi, sec, us) => make y m d h mi sec us
          end
      end
  end.

End datetime.

(** ** [hashlib.sha256]

    SHA-256 (FIPS 180-4) on 32-bit words held in [Z]; additions wrap around
    modulo [2^32]. *)
Module hashlib.

Definition add32 (x y : Z) : Z := (x + y) mod 2 ^ 32.

Definition rotr (n x : Z) : Z :=
  Z.lor (Z.shiftr x n) (Z.shiftl x (32 - n) mod 2 ^ 32).

Definition Ch (x y z : Z) : Z :=
  Z.lxor (Z.land x y) (Z.land (Z.lnot x) z).
Definition Maj (x y z : Z) : Z :=
  Z.lxor (Z.lxor (Z.land x y) (Z.land x z)) (Z.land y z).
Definition Sigma0 (x : Z) : Z :=
  Z.lxor (Z.lxor (rotr 2 x) (rotr 13 x)) (rotr 22 x).
Definition Sigma1 (x : Z) : Z :=
  Z.lxor (Z.lxor (rotr 6 x) (rotr 11 x)) (rotr 25 x).
Definition sigma0 (x : Z) : Z :=
  Z.lxor (Z.lxor (rotr 7 x) (rotr 18 x)) (Z.shiftr x 3).
Definition sigma1 (x : Z) : Z :=
  Z.lxor (Z.lxor (rotr 17 x) (rotr 19 x)) (Z.shiftr x 10).

(** The round constants (FIPS 180-4, 4.2.2), in decimal. *)
Definition K : list Z :=
  [ 1116352408; 1899447441; 3049323471; 3921009573;
    961987163; 1508970993; 2453635748; 2870763221;
    3624381080; 310598401; 607225278; 1426881987;
    1925078388; 2162078206; 2614888103; 3248222580;
    3835390401; 4022224774; 264347078; 604807628;
    770255983; 1249150122; 1555081692; 1996064986;
    2554220882; 2821834349; 2952996808; 3210313671;
    3336571891; 3584528711; 113926993; 338241895;
    666307205; 773529912; 1294757372; 1396182291;
    1695183700; 1986661051; 2177026350; 2456956037;
    2730485921; 2820302411; 3259730800; 3345764771;
    3516065817; 3600352804; 4094571909; 275423344;
    430227734; 506948616; 659060556; 883997877;
    958139571; 1322822218; 1537002063; 1747873779;
    1955562222; 2024104815; 2227730452; 2361852424;
    2428436474; 2756734187; 3204031479; 3329325298 ].

(** The eight working variables, also the hash value between blocks. *)
Record state := mk_state {
  ha : Z; hb : Z; hc : Z; hd : Z; he : Z; hf : Z; hg : Z; hh : Z
}.

Definition H0 : state :=
  mk_state 1779033703 3144134277 1013904242 2773480762
           1359893119 2600822924 528734635 1541459225.

(** The message with the bit [1], zeros and the 64-bit length appended. *)
Definition pad (msg : list Z) : list Z :=
  let len := Z.of_nat (length msg) in
  let zeros := Z.to_nat ((55 - len) mod 64) in
  let bits := len * 8 in
  msg ++ [0x80] ++ replicate zeros 0
      ++ map (λ i, Z.shiftr bits (8 * (7 - Z.of_nat i)) mod 256) (seq 0 8).

Fixpoint words (fuel : nat) (bs : list Z) : list Z :=
  match fuel, bs with
  | S f, b0 :: b1 :: b2 :: b3 :: rest =>
      (((b0 * 256 + b1) * 256 + b2) * 256 + b3) :: words f rest
  | _, _ => []
  end.

(** Extends the sixteen words of a block to the 64-word message schedule;
    [sched] holds the words computed so far, the latest first. *)
Fixpoint schedule (n : nat) (sched : list Z) : list Z :=
  match n with
  | O => reverse sched
  | S n' =>
      let wt :=
        add32 (add32 (sigma1 (nth 1 sched 0)) (nth 6 sched 0))
              (add32 (sigma0 (nth 14 sched 0)) (nth 15 sched 0)) in
      schedule n' (wt :: sched)
  end.

Definition round (s : state) (kw : Z * Z) : state :=
  let '(k, w) := kw in
  let t1 := add32 (add32 (add32 (hh s) (Sigma1 (he s)))
                         (add32 (Ch (he s) (hf s) (hg s)) k)) w in
  let t2 := add32 (Sigma0 (ha s)) (Maj (ha s) (hb s) (hc s)) in
  mk_state (add32 t1 t2) (ha s) (hb s) (hc s)
           (add32 (hd s) t1) (he s) (hf s) (hg s).

Definition compress (h : state) (block : list Z) : state :=
  let w := schedule 48 (reverse block) in
  let s := foldl round h (zip K w) in
  mk_state (add32 (ha h) (ha s)) (add32 (hb h) (hb s))
           (add32 (hc h) (hc s)) (add32 (hd h) (hd s))
           (add32 (he h) (he s)) (add32 (hf h) (hf s))
           (add32 (hg h) (hg s)) (add32 (hh h) (hh s)).

Fixpoint blocks (fuel : nat) (ws : list Z) : list (list Z) :=
  match fuel, ws with
  | S f, _ :: _ => take 16 ws :: blocks f (drop 16 ws)
  | _, _ => []
  end.

Definition sha256 (msg : list byte) : state :=
  let bs := pad (map (λ b, Z.of_N (Byte.to_N b)) msg) in
  let ws := words (length bs) bs in
  foldl compress H0 (blocks (length ws) ws).

Definition hex_char (d : Z) : ascii :=
  nth (Z.to_nat d) (list_ascii_of_string "0123456789abcdef") "0"%char.

(** [width] lower-case hexadecimal digits of [n], most significant first. *)
Fixpoint hex_pad (width : nat) (n : Z) : string :=
  match width with
  | O => EmptyString
  | S w => hex_pad w (n / 16) +:+ String (hex_char (n mod 16)) EmptyString
  end.

(** [sha256(msg).hexdigest()] *)
Definition hexdigest (s : state) : string :=
  hex_pad 8 (ha s) +:+ hex_pad 8 (hb s) +:+ hex_pad 8 (hc s)
  +:+ hex_pad 8 (hd s) +:+ hex_pad 8 (he s) +:+ hex_pad 8 (hf s)
  +:+ hex_pad 8 (hg s) +:+ hex_pad 8 (hh s).

Definition sha256_hexdigest (msg : list byte) : string :=
  hexdigest (sha256 msg).

(** [bytes.hex()] *)
Definition bytes_hex (bs : list byte) : string :=
  foldr (λ b acc, hex_pad 2 (Z.of_N (Byte.to_N b)) +:+ acc) EmptyString bs.

End hashlib.

(** ** [secrets] *)
Module secrets.
(** [secrets.token_hex(nbytes)]: [entropy] stands for the [nbytes] bytes that
    the operating system returns. *)
Definition token_hex (entropy : list byte) : string :=
  hashlib.bytes_hex entropy.
End secrets.

(** ** [base64]

    [b64encode] and the decoder of [binascii.a2b_base64] that [b64decode]
    calls (not in strict mode). *)
Module base64.

Definition byte_val (b : byte) : Z := Z.of_N (Byte.to_N b).

(** The byte that storing [z] in an [unsigned char] leaves. *)
Definition byte_of (z : Z) : byte :=
  default x00 (Byte.of_N (Z.to_N (z mod 256))).

Definition table_b2a : list ascii :=
  list_ascii_of_string
    "ABCDEFGHIJKLMNOPQRSTUVWXYZabcdefghijklmnopqrstuvwxyz0123456789+/".

Definition b2a (n : Z) : ascii := nth (Z.to_nat n) table_b2a "A"%char.

(** The value of a character of the alphabet. *)
Definition a2b (c : ascii) : option Z :=
  let n := Z.of_nat (nat_of_ascii c) in
  if (65 <=? n) && (n <=? 90) then Some (n - 65)
  else if (97 <=? n) && (n <=? 122) then Some (n - 71)
  else if (48 <=? n) && (n <=? 57) then Some (n + 4)
  else if n =? 43 then Some 62
  else if n =? 47 then Some 63
  else None.

Definition pad_char : ascii := "="%char.

(** Three bytes give four characters; a last group of one or two bytes is
    completed with [=]. *)
Fixpoint b64encode (bs : list byte) : string :=
  match bs with
  | [] => EmptyString
  | [b0] =>
      let n0 := byte_val b0 in
      String (b2a (Z.shiftr n0 2))
        (String (b2a (Z.shiftl (Z.land n0 3) 4))
           (String pad_char (String pad_char EmptyString)))
  | [b0; b1] =>
      let n0 := byte_val b0 in
      let n1 := byte_val b1 in
      String (b2a (Z.shiftr n0 2))
        (String (b2a (Z.lor (Z.shiftl (Z.land n0 3) 4) (Z.shiftr n1 4)))
           (String (b2a (Z.shiftl (Z.land n1 15) 2))
              (String pad_char EmptyString)))
  | b0 :: b1 :: b2 :: rest =>
      let n0 := byte_val b0 in
      let n1 := byte_val b1 in
      let n2 := byte_val b2 in
      String (b2a (Z.shiftr n0 2))
        (String (b2a (Z.lor (Z.shiftl (Z.land n0 3) 4) (Z.shiftr n1 4)))
           (String (b2a (Z.lor (Z.shiftl (Z.land n1 15) 2) (Z.shiftr n2 6)))
              (String (b2a (Z.land n2 63)) (b64encode rest))))
  end.

(** The decoder's variables: position in the group of four, the bits left
    over from the last character, the [=] seen in a row, the bytes written. *)
Record decoder := mk_decoder {
  quad_pos : Z; leftchar : Z; pads : Z; bin_data : list byte
}.

(** One turn of the loop over the input; [inr] when the padding ends it. *)
Definition step (d : decoder) (c : ascii) : decoder + decoder :=
  if Ascii.eqb c pad_char then
    if 2 <=? quad_pos d then
      let pads' := pads d + 1 in
      let d' := mk_decoder (quad_pos d) (leftchar d) pads' (bin_data d) in
      if 4 <=? quad_pos d + pads' then inr d' else inl d'
    else inl d
  else
    match a2b c with
    | None => inl d
    | Some this_ch =>
        if quad_pos d =? 0 then
          inl (mk_decoder 1 this_ch 0 (bin_data d))
        else if quad_pos d =? 1 then
          inl (mk_decoder 2 (Z.land this_ch 15) 0
                 (bin_data d
                  ++ [byte_of (Z.lor (Z.shiftl (leftchar d) 2) (Z.shiftr this_ch 4))]))
        else if quad_pos d =? 2 then
          inl (mk_decoder 3 (Z.land this_ch 3) 0
                 (bin_data d
                  ++ [byte_of (Z.lor (Z.shiftl (leftchar d) 4) (Z.shiftr this_ch 2))]))
        else
          inl (mk_decoder 0 0 0
                 (bin_data d
                  ++ [byte_of (Z.lor (Z.shiftl (leftchar d) 6) this_ch)]))
    end.

Fixpoint run (d : decoder) (s : string) : decoder + decoder :=
  match s with
  | EmptyString => inl d
  | String c s' =>
      match step d c with
      | inl d' => run d' s'
      | inr d' => inr d'
      end
  end.

(** After the loop: input that ends inside a group is an error. *)
Definition finish (r : decoder + decoder) : outcome (list byte) :=
  match r with
  | inr d => Return (bin_data d)
  | inl d =>
      if quad_pos d =? 0 then Return (bin_data d)
      else if quad_pos d =? 1 then
        Raise (BinasciiError "Invalid base64-encoded string: number of data characters cannot be 1 more than a multiple of 4")
      else Raise (BinasciiError "Incorrect padding")
  end.

Definition a2b_base64 (s : string) : outcome (list byte) :=
  finish (run (mk_decoder 0 0 0 []) s).

Definition is_ascii (s : string) : bool :=
  forallb (λ c, (nat_of_ascii c <? 128)%nat) (list_ascii_of_string s).

(** [base64.b64decode(s)] for a [str] argument. *)
Definition b64decode (s : string) : outcome (list byte) :=
  if is_ascii s then a2b_base64 s
  else Raise (ValueError "string argument should contain only ASCII characters").

(** Properties of the tables that are settled by enumeration: a sextet is
    encoded by an ASCII character that is not [=] and decodes to itself. *)
Definition sextet_ok (s : Z) : bool :=
  match a2b (b2a s) with Some v => v =? s | None => false end
  && negb (Ascii.eqb (b2a s) pad_char)
  && (nat_of_ascii (b2a s) <? 128)%nat.

(** The decoder rebuilds the first byte from the first two sextets. *)
Definition first_byte_ok (n0 n1 : Z) : bool :=
  let s0 := Z.shiftr n0 2 in
  let s1 := Z.lor (Z.shiftl (Z.land n0 3) 4) (Z.shiftr n1 4) in
  sextet_ok s0 && sextet_ok s1
  && (Z.land s1 15 =? Z.shiftr n1 4)
  && (Z.lor (Z.shiftl s0 2) (Z.shiftr s1 4) =? n0).

(** The second byte from the bits left over and the third sextet, and the
    third byte from the bits left over and the fourth sextet. *)
Definition next_bytes_ok (n1 n2 : Z) : bool :=
  let s2 := Z.lor (Z.shiftl (Z.land n1 15) 2) (Z.shiftr n2 6) in
  let s3 := Z.land n2 63 in
  sextet_ok s2 && sextet_ok s3
  && (Z.land s2 3 =? Z.shiftr n2 6)
  && (Z.lor (Z.shiftl (Z.shiftr n1 4) 4) (Z.shiftr s2 2) =? n1)
  && (Z.lor (Z.shiftl (Z.shiftr n2 6) 6) s3 =? n2).

(** The last group when it has one byte, and when it has two. *)
Definition last_group_ok (n0 n1 : Z) : bool :=
  let s0 := Z.shiftr n0 2 in
  let s1 := Z.shiftl (Z.land n0 3) 4 in
  let s2 := Z.shiftl (Z.land n1 15) 2 in
  sextet_ok s1 && sextet_ok s2
  && (Z.lor (Z.shiftl s0 2) (Z.shiftr s1 4) =? n0)
  && (Z.lor (Z.shiftl (Z.shiftr n1 4) 4) (Z.shiftr s2 2) =? n1).

Definition byte_values : list Z := Z.of_nat <$> seq 0 256.

(** [f] on every pair of byte values. *)
Definition on_byte_pairs (f : Z → Z → bool) : bool :=
  forallb (λ n0, forallb (f n0) byte_values) byte_values.

End base64.

(** ** Plain Python data

    What the [to_dict] methods build and the [from_dict] methods read: [None],
    strings, numbers, lists, tuples, and dictionaries with string keys (the
    items in insertion order, no key twice). *)
#[warnings="-register-all"]
Inductive pyval :=
| PNone
| PStr (s : string)
| PInt (z : Z)
| PFloat (f : float)
| PList (l : list pyval)
| PTuple (l : list pyval)
| PDict (items : list (string * pyval)).

(** [bool(v)] *)
Definition py_truthy (v : pyval) : bool :=
  match v with
  | PNone => false
  | PStr s => str_truthy s
  | PInt z => negb (z =? 0)
  | PFloat f => negb (PrimFloat.eqb f 0%float)
  | PList l | PTuple l => match l with [] => false | _ => true end
  | PDict items => match items with [] => false | _ => true end
  end.

Definition dict_lookup (key : string) (items : list (string * pyval)) : option pyval :=
  match find (λ kv, String.eqb (fst kv) key) items with
  | Some kv => Some (snd kv)
  | None => None
  end.

(** [data[key]] *)
Definition getitem (data : pyval) (key : string) : outcome pyval :=
  match data with
  | PDict items =>
      match dict_lookup key items with
      | Some v => Return v
      | None => Raise (KeyError key)
      end
  | _ => Raise (TypeError "object is not subscriptable by a key")
  end.

(** [data.get(key, default)] *)
Definition get (data : pyval) (key : string) (default : pyval) : outcome pyval :=
  match data with
  | PDict items =>
      match dict_lookup key items with
      | Some v => Return v
      | None => Return default
      end
  | _ => Raise (TypeError "object has no attribute get")
  end.

(** The fields of the records below are typed.  A value read from a dictionary
    enters a field through one of these projections, which reject a value of
    another Python type (Python itself would store it unchecked). *)
Definition as_str (v : pyval) : outcome string :=
  match v with PStr s => Return s | _ => Raise (TypeError "str expected") end.

Definition as_opt_str (v : pyval) : outcome (option string) :=
  match v with
  | PNone => Return None
  | PStr s => Return (Some s)
  | _ => Raise (TypeError "str or None expected")
  end.

Definition as_int (v : pyval) : outcome Z :=
  match v with PInt z => Return z | _ => Raise (TypeError "int expected") end.

Definition as_float (v : pyval) : outcome float :=
  match v with PFloat f => Return f | _ => Raise (TypeError "float expected") end.

(** Iterating over a list or a tuple. *)
Definition as_list (v : pyval) : outcome (list pyval) :=
  match v with
  | PList l | PTuple l => Return l
  | _ => Raise (TypeError "object is not iterable")
  end.

Definition as_items (v : pyval) : outcome (list (string * pyval)) :=
  match v with
  | PDict items => Return items
  | _ => Raise (TypeError "object has no attribute items")
  end.

(** Runs [f] on the elements from left to right and stops at the first one
    that raises. *)
Fixpoint outcome_map {A B} (f : A → outcome B) (l : list A) : outcome (list B) :=
  match l with
  | [] => Return []
  | x :: l' => y ← f x; ys ← outcome_map f l'; Return (y :: ys)
  end.

Definition as_str_list (v : pyval) : outcome (list string) :=
  l ← as_list v; outcome_map as_str l.

(** [x in l] for a list of strings. *)
Definition str_in (x : string) (l : list string) : bool :=
  existsb (String.eqb x) l.

(** ** The entity classes *)

Module Customer.

Record t := mk {
  customer_id : string;
  email : string;
  birthdate : datetime.t;
  gender : string;
  address : string;
  favorite_food : list string;
  purchase_history : list pyval;
  password_hash : option string;
  salt : option string;
  last_login : option datetime.t
}.

(** [Customer(...)]: [favorite_food] defaults to a new empty list and
    [purchase_history] always starts empty. *)
Definition new (customer_id email : string) (birthdate : datetime.t)
    (gender address : string) (favorite_food : option (list string))
    (password_hash salt : option string) (last_login : option datetime.t) : t :=
  mk customer_id email birthdate gender address
     (match favorite_food with Some l => l | None => [] end)
     [] password_hash salt last_login.

Definition set_salt (v : option string) (self : t) : t :=
  mk (customer_id self) (email self) (birthdate self) (gender self)
     (address self) (favorite_food self) (purchase_history self)
     (password_hash self) v (last_login self).

Definition set_password_hash (v : option string) (self : t) : t :=
  mk (customer_id self) (email self) (birthdate self) (gender self)
     (address self) (favorite_food self) (purchase_history self)
     v (salt self) (last_login self).

Definition set_last_login (v : option datetime.t) (self : t) : t :=
  mk (customer_id self) (email self) (birthdate self) (gender self)
     (address self) (favorite_food self) (purchase_history self)
     (password_hash self) (salt self) v.

(** The method reads no attribute; it raises what [encode()] raises. *)
Definition _hash_password (password salt : string) : outcome string :=
  bs ← encode (password +:+ salt);
  Return (hashlib.sha256_hexdigest bs).

(** [entropy] is what [secrets.token_hex(16)] draws.  The salt is assigned
    before the hash is computed: when hashing raises, the object has the new
    salt and the old hash. *)
Definition set_password (entropy : list byte) (password : string) : Py t unit :=
  λ self,
    let salt' := secrets.token_hex entropy in
    let self := set_salt (Some salt') self in
    match _hash_password password salt' with
    | Return h => (Return tt, set_password_hash (Some h) self)
    | Raise e => (Raise e, self)
    end.

Definition verify_password (password : string) (self : t) : outcome bool :=
  if negb (opt_str_truthy (password_hash self))
     || negb (opt_str_truthy (salt self))
  then Return false
  else
    match password_hash self, salt self with
    | Some h, Some s =>
        h' ← _hash_password password s;
        Return (String.eqb h h')
    | _, _ => Return false
    end.

(** [now] is what [datetime.now()] returns. *)
Definition record_login (now : datetime.t) (self : t) : t :=
  set_last_login (Some now) self.

Definition opt_str_val (o : option string) : pyval :=
  match o with Some s => PStr s | None => PNone end.

Definition to_dict (self : t) : pyval :=
  PDict [
    ("customer_id", PStr (customer_id self));
    ("email", PStr (email self));
    ("birthdate", PStr (datetime.isoformat (birthdate self)));
    ("gender", PStr (gender self));
    ("address", PStr (address self));
    ("favorite_food", PList (PStr <$> favorite_food self));
    ("password_hash", opt_str_val (password_hash self));
    ("salt", opt_str_val (salt self));
    ("last_login",
      match last_login self with
      | Some d => PStr (datetime.isoformat d)
      | None => PNone
      end)
  ].

Definition from_dict (data : pyval) : outcome t :=
  customer_id ← getitem data "customer_id" ≫= as_str;
  email ← getitem data "email" ≫= as_str;
  birthdate ← (getitem data "birthdate" ≫= as_str) ≫= datetime.fromisoformat;
  gender ← getitem data "gender" ≫= as_str;
  address ← getitem data "address" ≫= as_str;
  ff ← getitem data "favorite_food";
  favorite_food ←
    match ff return outcome (option (list string)) with
    | PNone => Return None
    | _ => l ← as_str_list ff; Return (Some l)
    end;
  password_hash ← get data "password_hash" PNone ≫= as_opt_str;
  salt ← get data "salt" PNone ≫= as_opt_str;
  ll ← get data "last_login" PNone;
  last_login ←
    (if py_truthy ll
     then d ← (getitem data "last_login" ≫= as_str) ≫= datetime.fromisoformat;
          Return (Some d)
     else Return None : outcome (option datetime.t));
  Return (new customer_id email birthdate gender address favorite_food
              password_hash salt last_login).

End Customer.

Module Receipt.

Record t := mk {
  receipt_id : string;
  upload_date : datetime.t;
  image_data : option (list byte);
  ocr_text : string;
  ingredients : list string;
  quantity : Z;
  shelf_life : datetime.t
}.

Definition set_ingredients (v : list string) (self : t) : t :=
  mk (receipt_id self) (upload_date self) (image_data self) (ocr_text self)
     v (quantity self) (shelf_life self).

Definition set_ocr_text (v : string) (self : t) : t :=
  mk (receipt_id self) (upload_date self) (image_data self) v
     (ingredients self) (quantity self) (shelf_life self).

Definition set_shelf_life (v : datetime.t) (self : t) : t :=
  mk (receipt_id self) (upload_date self) (image_data self) (ocr_text self)
     (ingredients self) (quantity self) v.

(** [bool(self.image_data)]: [None] and [b""] are both false. *)
Definition image_truthy (o : option (list byte)) : bool :=
  match o with
  | Some (_ :: _) => true
  | _ => false
  end.

Definition to_dict (self : t) : pyval :=
  PDict [
    ("receipt_id", PStr (receipt_id self));
    ("upload_date", PStr (datetime.isoformat (upload_date self)));
    ("image_data",
      if image_truthy (image_data self)
      then PStr (base64.b64encode (default [] (image_data self)))
      else PNone);
    ("ocr_text", PStr (ocr_text self));
    ("ingredients", PList (PStr <$> ingredients self));
    ("quantity", PInt (quantity self));
    ("shelf_life", PStr (datetime.isoformat (shelf_life self)))
  ].

Definition from_dict (data : pyval) : outcome t :=
  img ← get data "image_data" PNone;
  image_data ←
    (if py_truthy img
     then bs ← (getitem data "image_data" ≫= as_str) ≫= base64.b64decode;
          Return (Some bs)
     else Return None : outcome (option (list byte)));
  receipt_id ← getitem data "receipt_id" ≫= as_str;
  upload_date ← (getitem data "upload_date" ≫= as_str) ≫= datetime.fromisoformat;
  ocr_text ← getitem data "ocr_text" ≫= as_str;
  ingredients ← getitem data "ingredients" ≫= as_str_list;
  quantity ← getitem data "quantity" ≫= as_int;
  shelf_life ← (getitem data "shelf_life" ≫= as_str) ≫= datetime.fromisoformat;
  Return (mk receipt_id upload_date image_data ocr_text ingredients quantity
             shelf_life).

End Receipt.

Module MenuItem.

Record t := mk {
  item_id : string;
  name : string;
  ingredients : list string;
  price : float
}.

Definition match_ingredients (ingredients' : list string) (self : t) : bool :=
  existsb (λ ingredient, str_in ingredient (ingredients self)) ingredients'.

Definition to_dict (self : t) : pyval :=
  PDict [
    ("item_id", PStr (item_id self));
    ("name", PStr (name self));
    ("ingredients", PList (PStr <$> ingredients self));
    ("price", PFloat (price self))
  ].

Definition from_dict (data : pyval) : outcome t :=
  item_id ← getitem data "item_id" ≫= as_str;
  name ← getitem data "name" ≫= as_str;
  ingredients ← getitem data "ingredients" ≫= as_str_list;
  price ← getitem data "price" ≫= as_float;
  Return (mk item_id name ingredients price).

End MenuItem.

Module Store.

Record t := mk {
  store_id : string;
  name : string;
  location : float * float;
  menu_items : list MenuItem.t
}.

Definition get_store_link (self : t) : string :=
  "https://www.example.com/store/" +:+ store_id self.

Definition to_dict (self : t) : pyval :=
  PDict [
    ("store_id", PStr (store_id self));
    ("name", PStr (name self));
    ("location", PTuple [PFloat (fst (location self)); PFloat (snd (location self))]);
    ("menu_items", PList (MenuItem.to_dict <$> menu_items self))
  ].

(** [tuple(data["location"])], kept to the two coordinates of the field. *)
Definition as_location (v : pyval) : outcome (float * float) :=
  l ← as_list v;
  match l with
  | [PFloat a; PFloat b] => Return (a, b)
  | _ => Raise (TypeError "two float coordinates expected")
  end.

Definition from_dict (data : pyval) : outcome t :=
  menu_items ← (getitem data "menu_items" ≫= as_list) ≫= outcome_map MenuItem.from_dict;
  store_id ← getitem data "store_id" ≫= as_str;
  name ← getitem data "name" ≫= as_str;
  location ← getitem data "location" ≫= as_location;
  Return (mk store_id name location menu_items).

End Store.

(** ** [random]

    The draws are arguments: [randint] results are integers, and a sample is
    described by the position in the population chosen at each draw. *)
Module random.

(** [random.sample(population, k)]: the elements at the [k] positions
    [position 0 .. position (k-1)].  The generator picks positions inside
    the population and never the same one twice ([distinct_positions]). *)
Definition sample {A} (population : list A) (k : Z) (position : nat → nat)
    : outcome (list A) :=
  if (k <? 0) || (Z.of_nat (length population) <? k)
  then Raise (ValueError "Sample larger than population or is negative")
  else
    outcome_map
      (λ i, match population !! position i with
            | Some x => Return x
            | None => Raise (IndexError "list index out of range")
            end)
      (seq 0 (Z.to_nat k)).

Definition distinct_positions (n : nat) (k : Z) (position : nat → nat) : Prop :=
  Forall (λ i, (i < n)%nat) (position <$> seq 0 (Z.to_nat k))
  ∧ NoDup (position <$> seq 0 (Z.to_nat k)).

End random.

(** What [process_receipt] draws: [randint(2, 5)], the positions of the sample
    of the vocabulary, and for the i-th item line the price
    [uniform(1.99, 15.99)] as the cents that [:.2f] prints. *)
Record receipt_draws := mk_receipt_draws {
  randint_2_5 : Z;
  vocabulary_position : nat → nat;
  uniform_cents : nat → Z
}.

Definition receipt_draws_ok (n : nat) (rnd : receipt_draws) : Prop :=
  2 <= randint_2_5 rnd <= 5
  ∧ random.distinct_positions n (randint_2_5 rnd) (vocabulary_position rnd).

(** What the fallback of [get_recommendations] draws: [randint(1, 3)] and the
    positions of the sample of the menu items. *)
Record recommendation_draws := mk_recommendation_draws {
  randint_1_3 : Z;
  menu_position : nat → nat
}.


(** [l.sort(key=key, reverse=True)]: the stable sort by decreasing key, that
    is, elements with equal keys keep their order.  Computed by insertion. *)
Fixpoint insert_reverse {A} (key : A → nat) (x : A) (l : list A) : list A :=
  match l with
  | [] => [x]
  | y :: l' =>
      if (key x <? key y)%nat then y :: insert_reverse key x l'
      else x :: y :: l'
  end.

Definition sort_reverse {A} (key : A → nat) (l : list A) : list A :=
  foldr (insert_reverse key) [] l.

(** ** [ReceiptSystem] *)
Module ReceiptSystem.

(** The attributes of the object: the two lists hold references to
    [Customer] objects and [Store] values, and [receipts] maps a customer id
    to a list of references to [Receipt] objects.  The mapping is a finite
    map: the order in which a Python [dict] lists its keys is not part of
    it, and [to_dict] lists the entries in the order of [map_to_list]. *)
Record t := mk {
  customers : list nat;
  stores : list Store.t;
  receipts : gmap string (list nat)
}.

(** [ReceiptSystem()] *)
Definition __init__ : t := mk [] [] ∅.

(** The system a method runs on, and the [Customer] and [Receipt] objects
    that exist, by reference. *)
Record world := mk_world {
  system : t;
  customer_objs : gmap nat Customer.t;
  receipt_objs : gmap nat Receipt.t
}.

Local Open Scope py_scope.

Definition lift {A} (m : outcome A) : Py world A := λ σ, (m, σ).

Definition get_self : Py world t := λ σ, (Return (system σ), σ).

Definition set_self (s : t) : Py world unit :=
  λ σ, (Return tt, mk_world s (customer_objs σ) (receipt_objs σ)).

Definition customer_at (r : nat) : Py world Customer.t :=
  λ σ, match customer_objs σ !! r with
       | Some c => (Return c, σ)
       | None => (Raise (ReferenceError "customer"), σ)
       end.

Definition receipt_at (r : nat) : Py world Receipt.t :=
  λ σ, match receipt_objs σ !! r with
       | Some c => (Return c, σ)
       | None => (Raise (ReferenceError "receipt"), σ)
       end.

(** An attribute assignment on the object behind [r]. *)
Definition modify_customer (r : nat) (f : Customer.t → Customer.t) : Py world unit :=
  do c <- customer_at r;
  λ σ, (Return tt,
        mk_world (system σ) (<[r := f c]> (customer_objs σ)) (receipt_objs σ)).

Definition modify_receipt (r : nat) (f : Receipt.t → Receipt.t) : Py world unit :=
  do c <- receipt_at r;
  λ σ, (Return tt,
        mk_world (system σ) (customer_objs σ) (<[r := f c]> (receipt_objs σ))).

(** A new object gets a reference that no object has yet. *)
Definition new_customer (c : Customer.t) : Py world nat :=
  λ σ, let r := fresh (dom (customer_objs σ)) in
       (Return r,
        mk_world (system σ) (<[r := c]> (customer_objs σ)) (receipt_objs σ)).

Definition new_receipt (c : Receipt.t) : Py world nat :=
  λ σ, let r := fresh (dom (receipt_objs σ)) in
       (Return r,
        mk_world (system σ) (customer_objs σ) (<[r := c]> (receipt_objs σ))).

(** [[f(x) for x in l]] *)
Fixpoint py_map {A B} (f : A → Py world B) (l : list A) : Py world (list B) :=
  match l with
  | [] => py_ret []
  | x :: l' =>
      do y <- f x;
      do ys <- py_map f l';
      py_ret (y :: ys)
  end.

Definition register_customer (customer : nat) : Py world unit :=
  do c <- customer_at customer;
  do self <- get_self;
  do existing <- py_map customer_at (customers self);
  if existsb (λ x, String.eqb (Customer.customer_id x) (Customer.customer_id c))
       existing
  then py_raise (ValueError ("Customer with ID " +:+ Customer.customer_id c
                             +:+ " already exists"))
  else if existsb (λ x, String.eqb (Customer.email x) (Customer.email c)) existing
  then py_raise (ValueError ("Customer with email " +:+ Customer.email c
                             +:+ " already exists"))
  else
    set_self (mk (customers self ++ [customer]) (stores self)
                 (<[Customer.customer_id c := []]> (receipts self))).

Definition add_store (store : Store.t) : Py world unit :=
  do self <- get_self;
  if existsb (λ s, String.eqb (Store.store_id s) (Store.store_id store))
       (stores self)
  then py_raise (ValueError ("Store with ID " +:+ Store.store_id store
                             +:+ " already exists"))
  else set_self (mk (customers self) (stores self ++ [store]) (receipts self)).

Definition sample_ingredients : list string :=
  ["beef"; "chicken"; "lettuce"; "tomato"; "cheese"; "bread"; "milk"; "eggs";
   "rice"; "pasta"].

(** ["{:.2f}"] of a price given in cents. *)
Definition price_text (cents : Z) : string :=
  decimal (cents / 100) +:+ "." +:+ zero_pad 2 (cents mod 100).

Definition item_line (rnd : receipt_draws) (i : nat) (ingredient : string) : string :=
  "- " +:+ capitalize ingredient +:+ " $" +:+ price_text (uniform_cents rnd i)
  +:+ newline.

Definition process_receipt (rnd : receipt_draws) (receipt : nat)
    (customer_id : option string) : Py world unit :=
  let num_ingredients := randint_2_5 rnd in
  do sampled <- lift (random.sample sample_ingredients num_ingredients
                        (vocabulary_position rnd));
  perform modify_receipt receipt (Receipt.set_ingredients sampled);
  do r <- receipt_at receipt;
  perform modify_receipt receipt
    (Receipt.set_ocr_text
       ("Receipt #" +:+ Receipt.receipt_id r +:+ newline
        +:+ "Date: " +:+ datetime.strftime_ymd (Receipt.upload_date r) +:+ newline
        +:+ "Items:" +:+ newline
        +:+ String.concat "" (imap (item_line rnd) (Receipt.ingredients r))));
  do r <- receipt_at receipt;
  let shelf_life_days :=
    if str_in "milk" (Receipt.ingredients r) || str_in "eggs" (Receipt.ingredients r)
    then 3 else 7 in
  do shelf_life <- lift (datetime.add_days (Receipt.upload_date r) shelf_life_days);
  perform modify_receipt receipt (Receipt.set_shelf_life shelf_life);
  do self <- get_self;
  match customer_id with
  | Some cid =>
      if str_truthy cid then
        match receipts self !! cid with
        | Some l =>
            set_self (mk (customers self) (stores self)
                         (<[cid := l ++ [receipt]]> (receipts self)))
        | None => py_ret tt
        end
      else py_ret tt
  | None => py_ret tt
  end.

(** The number of members of the interest set that [item] lists. *)
Definition overlap (customer_ingredients : gset string) (item : MenuItem.t) : nat :=
  length (filter (λ ing, str_in ing (MenuItem.ingredients item) = true)
            (elements customer_ingredients)).

Definition get_recommendations (rnd : recommendation_draws) (customer : nat)
    : Py world (list MenuItem.t) :=
  do self <- get_self;
  let all_menu_items := concat (Store.menu_items <$> stores self) in
  match all_menu_items with
  | [] => py_ret []
  | _ =>
      do c <- customer_at customer;
      do stored <-
        match receipts self !! Customer.customer_id c with
        | Some l => py_map receipt_at l
        | None => py_ret []
        end;
      let customer_ingredients : gset string :=
        list_to_set (Customer.favorite_food c)
        ∪ list_to_set (concat (Receipt.ingredients <$> stored)) in
      let matching_items :=
        filter (λ item,
                  existsb (λ ing, str_in ing (MenuItem.ingredients item))
                    (elements customer_ingredients) = true)
               all_menu_items in
      match matching_items with
      | _ :: _ =>
          py_ret (take 3 (sort_reverse (overlap customer_ingredients) matching_items))
      | [] =>
          let num_recommendations :=
            Z.min (Z.of_nat (length all_menu_items)) (randint_1_3 rnd) in
          lift (random.sample all_menu_items num_recommendations (menu_position rnd))
      end
  end.

Section lookup.

(** [str.lower] *)
Variable lower : string → string.

(** The loop of [get_customer_by_email]. *)
Fixpoint find_by_email (email : string) (l : list nat) : Py world (option nat) :=
  match l with
  | [] => py_ret None
  | customer :: l' =>
      do c <- customer_at customer;
      if String.eqb (lower (Customer.email c)) (lower email)
      then py_ret (Some customer)
      else find_by_email email l'
  end.

Definition get_customer_by_email (email : string) : Py world (option nat) :=
  do self <- get_self;
  find_by_email email (customers self).

(** [now] is what [datetime.now()] returns in [record_login]. *)
Definition authenticate_customer (now : datetime.t) (email password : string)
    : Py world (option nat) :=
  do found <- get_customer_by_email email;
  match found with
  | None => py_ret None
  | Some customer =>
      do c <- customer_at customer;
      do verified <- lift (Customer.verify_password password c);
      if verified then
        perform modify_customer customer (Customer.record_login now);
        py_ret (Some customer)
      else py_ret None
  end.

End lookup.

(** The loop of [update_customer] from index [i] on. *)
Fixpoint update_from (customer : nat) (i : nat) (l : list nat) : Py world bool :=
  match l with
  | [] => py_ret false
  | r :: l' =>
      do c <- customer_at r;
      do new <- customer_at customer;
      if String.eqb (Customer.customer_id c) (Customer.customer_id new) then
        do self <- get_self;
        perform set_self (mk (<[i := customer]> (customers self)) (stores self)
                             (receipts self));
        py_ret true
      else update_from customer (S i) l'
  end.

Definition update_customer (customer : nat) : Py world bool :=
  do self <- get_self;
  update_from customer 0 (customers self).

Definition receipts_to_dict (entry : string * list nat) : Py world (string * pyval) :=
  do rs <- py_map (λ r, do v <- receipt_at r; py_ret (Receipt.to_dict v)) (snd entry);
  py_ret (fst entry, PList rs).

Definition to_dict : Py world pyval :=
  do self <- get_self;
  do cs <- py_map (λ r, do c <- customer_at r; py_ret (Customer.to_dict c))
             (customers self);
  do rs <- py_map receipts_to_dict (map_to_list (receipts self));
  py_ret (PDict [
    ("customers", PList cs);
    ("stores", PList (Store.to_dict <$> stores self));
    ("receipts", PDict rs)
  ]).

Definition load_customer (customer_data : pyval) : Py world nat :=
  do c <- lift (Customer.from_dict customer_data);
  new_customer c.

Definition load_receipt (receipt_data : pyval) : Py world nat :=
  do r <- lift (Receipt.from_dict receipt_data);
  new_receipt r.

(** The loop over [data.get("receipts", {}).items()]; [acc] is
    [system.receipts] so far. *)
Fixpoint load_receipts (acc : gmap string (list nat))
    (items : list (string * pyval)) : Py world (gmap string (list nat)) :=
  match items with
  | [] => py_ret acc
  | (customer_id, receipts_data) :: items' =>
      do l <- lift (as_list receipts_data);
      do rs <- py_map load_receipt l;
      load_receipts (<[customer_id := rs]> acc) items'
  end.

(** The class method: it builds a new system and new objects, and leaves
    the system of the world alone. *)
Definition from_dict (data : pyval) : Py world t :=
  do stores_data <- lift (get data "stores" (PList []) ≫= as_list);
  do stores <- lift (outcome_map Store.from_dict stores_data);
  do customers_data <- lift (get data "customers" (PList []) ≫= as_list);
  do customers <- py_map load_customer customers_data;
  do receipts_data <- lift (get data "receipts" (PDict []) ≫= as_items);
  do receipts <- load_receipts ∅ receipts_data;
  py_ret (mk customers stores receipts).

(** The objects behind the references of a system, field by field; [None]
    where a reference has no object. *)
Definition contents (σ : world) (s : t)
    : option (list Customer.t) * list Store.t
      * gmap string (option (list Receipt.t)) :=
  (mapM (λ r, customer_objs σ !! r) (customers s),
   stores s,
   (λ l, mapM (λ r, receipt_objs σ !! r) l) <$> receipts s).

(** Every reference of the system has its object. *)
Definition closed (σ : world) : Prop :=
  Forall (λ r, is_Some (customer_objs σ !! r)) (customers (system σ))
  ∧ map_Forall (λ _ l, Forall (λ r, is_Some (receipt_objs σ !! r)) l)
      (receipts (system σ)).

End ReceiptSystem.

(** ** Words of the specification

    The definitions below restate, in the terms of the specification, what the
    methods are compared with. *)

(** The text that [process_receipt] writes into [ocr_text]. *)
Definition receipt_text (rnd : receipt_draws) (receipt_id : string)
    (upload_date : datetime.t) (sampled : list string) : string :=
  "Receipt #" +:+ receipt_id +:+ newline
  +:+ "Date: " +:+ datetime.strftime_ymd upload_date +:+ newline
  +:+ "Items:" +:+ newline
  +:+ String.concat "" (imap (ReceiptSystem.item_line rnd) sampled).

(** Three days when milk or eggs were sampled, seven days otherwise. *)
Definition shelf_life_offset (sampled : list string) : Z :=
  if str_in "milk" sampled || str_in "eggs" sampled then 3 else 7.

(** The receipt after the three assignments of [process_receipt]. *)
Definition processed (rnd : receipt_draws) (sampled : list string)
    (shelf_life : datetime.t) (r : Receipt.t) : Receipt.t :=
  Receipt.mk (Receipt.receipt_id r) (Receipt.upload_date r) (Receipt.image_data r)
    (receipt_text rnd (Receipt.receipt_id r) (Receipt.upload_date r) sampled)
    sampled (Receipt.quantity r) shelf_life.

(** The receipt when the date arithmetic raised: the first two assignments
    are done, [shelf_life] is the old one. *)
Definition half_processed (rnd : receipt_draws) (sampled : list string)
    (r : Receipt.t) : Receipt.t :=
  processed rnd sampled (Receipt.shelf_life r) r.

(** The system after the last statement of [process_receipt]: the receipt is
    appended when [customer_id] is a non-empty key of the mapping. *)
Definition with_receipt (receipt : nat) (customer_id : option string)
    (s : ReceiptSystem.t) : ReceiptSystem.t :=
  match customer_id with
  | Some cid =>
      if str_truthy cid then
        match ReceiptSystem.receipts s !! cid with
        | Some l =>
            ReceiptSystem.mk (ReceiptSystem.customers s) (ReceiptSystem.stores s)
              (<[cid := l ++ [receipt]]> (ReceiptSystem.receipts s))
        | None => s
        end
      else s
  | None => s
  end.

(** The answer that the lookup by email is specified to give for a list of
    references: the first one, in list order, whose lower-cased email is the
    lower-cased query.  [lower] is [str.lower]. *)
Definition first_email_match (lower : string → string)
    (σ : ReceiptSystem.world) (email : string)
    (l : list nat) (found : option nat) : Prop :=
  match found with
  | Some r =>
      ∃ i c, l !! i = Some r ∧ ReceiptSystem.customer_objs σ !! r = Some c
             ∧ lower (Customer.email c) = lower email
             ∧ ∀ j r' c', (j < i)%nat → l !! j = Some r' →
                 ReceiptSystem.customer_objs σ !! r' = Some c' →
                 lower (Customer.email c') ≠ lower email
  | None =>
      ∀ r c, r ∈ l → ReceiptSystem.customer_objs σ !! r = Some c →
             lower (Customer.email c) ≠ lower email
  end.

(** The customer with [last_login] set to [now] and every other attribute
    as it is. *)
Definition logged_in (now : datetime.t) (c : Customer.t) : Customer.t :=
  Customer.mk (Customer.customer_id c) (Customer.email c) (Customer.birthdate c)
    (Customer.gender c) (Customer.address c) (Customer.favorite_food c)
    (Customer.purchase_history c) (Customer.password_hash c) (Customer.salt c)
    (Some now).

(** The candidate pool: every menu item of every store, in store order and
    then item order. *)
Definition candidate_pool (s : ReceiptSystem.t) : list MenuItem.t :=
  concat (Store.menu_items <$> ReceiptSystem.stores s).

(** The interest set of a customer with the receipts [stored] under the
    customer's id. *)
Definition interest_set (c : Customer.t) (stored : list Receipt.t) : gset string :=
  list_to_set (Customer.favorite_food c)
  ∪ ⋃ ((λ r, list_to_set (Receipt.ingredients r)) <$> stored).

(** The item has at least one ingredient in the interest set. *)
Definition item_matches (interest : gset string) (item : MenuItem.t) : Prop :=
  Exists (λ ing, ing ∈ interest) (MenuItem.ingredients item).

#[global] Instance item_matches_dec (interest : gset string) (item : MenuItem.t) :
  Decision (item_matches interest item).
Proof. unfold item_matches. apply _. Defined.

(** How many members of the interest set the item contains. *)
Definition overlap_count (interest : gset string) (item : MenuItem.t) : nat :=
  size (filter (λ ing, ing ∈ MenuItem.ingredients item) interest).

(** The receipts stored under the id of [c], object by object. *)
Definition stored_receipts (σ : ReceiptSystem.world) (c : Customer.t)
    (stored : list Receipt.t) : Prop :=
  match ReceiptSystem.receipts (ReceiptSystem.system σ) !! Customer.customer_id c with
  | Some l => Forall2 (λ r v, ReceiptSystem.receipt_objs σ !! r = Some v) l stored
  | None => stored = []
  end.

(** The entry of the receipts dictionary of a snapshot for a customer id and
    the receipts stored under it. *)
Definition receipts_entry (e : string * list Receipt.t) : string * pyval :=
  (e.1, PList (Receipt.to_dict <$> e.2)).

(** What [from_dict] needs to give a customer back from its dictionary: the
    timestamps are datetimes, as they are for every [datetime] object, and
    the purchase history, which [to_dict] leaves out, is empty. *)
Definition customer_serializable (c : Customer.t) : Prop :=
  datetime.valid (Customer.birthdate c)
  ∧ (∀ d, Customer.last_login c = Some d → datetime.valid d)
  ∧ Customer.purchase_history c = [].

(** The same for a receipt: its image is [None] or has at least one byte. *)
Definition receipt_serializable (r : Receipt.t) : Prop :=
  datetime.valid (Receipt.upload_date r)
  ∧ datetime.valid (Receipt.shelf_life r)
  ∧ Receipt.image_data r ≠ Some [].

(** The objects that the system refers to are serializable. *)
Definition serializable (σ : ReceiptSystem.world) : Prop :=
  (∀ r c, r ∈ ReceiptSystem.customers (ReceiptSystem.system σ) →
          ReceiptSystem.customer_objs σ !! r = Some c → customer_serializable c)
  ∧ (∀ cid l r v,
       ReceiptSystem.receipts (ReceiptSystem.system σ) !! cid = Some l →
       r ∈ l → ReceiptSystem.receipt_objs σ !! r = Some v →
       receipt_serializable v).



#[global] Instance closed_dec (σ : ReceiptSystem.world) :
  Decision (ReceiptSystem.closed σ).
Proof. unfold ReceiptSystem.closed. apply _. Defined.

(** ** Further notions

    What the further properties of the operations are stated with. *)

(** The customers behind the references [l] have pairwise distinct values
    of the attribute [f]: two positions whose objects agree on [f] are the
    same position. *)
Definition distinct_by (f : Customer.t → string) (objs : gmap nat Customer.t)
    (l : list nat) : Prop :=
  ∀ i j ri rj ci cj,
    l !! i = Some ri → l !! j = Some rj →
    objs !! ri = Some ci → objs !! rj = Some cj →
    f ci = f cj → i = j.

(** No two registered customers have the same [customer_id], and no two
    stores have the same [store_id]. *)
Definition unique_ids (σ : ReceiptSystem.world) : Prop :=
  distinct_by Customer.customer_id (ReceiptSystem.customer_objs σ)
    (ReceiptSystem.customers (ReceiptSystem.system σ))
  ∧ NoDup (Store.store_id <$> ReceiptSystem.stores (ReceiptSystem.system σ)).

(** No two registered customers have the same email, character for
    character. *)
Definition unique_emails (σ : ReceiptSystem.world) : Prop :=
  distinct_by Customer.email (ReceiptSystem.customer_objs σ)
    (ReceiptSystem.customers (ReceiptSystem.system σ)).

(** What the dictionary of a receipt keeps of it: every attribute, but an
    empty image is written like no image. *)
Definition saved_receipt (r : Receipt.t) : Receipt.t :=
  Receipt.mk (Receipt.receipt_id r) (Receipt.upload_date r)
    (if Receipt.image_truthy (Receipt.image_data r) then Receipt.image_data r
     else None)
    (Receipt.ocr_text r) (Receipt.ingredients r) (Receipt.quantity r)
    (Receipt.shelf_life r).

(** What the dictionary of a customer keeps of it: every attribute but the
    purchase history. *)
Definition saved_customer (c : Customer.t) : Customer.t :=
  Customer.mk (Customer.customer_id c) (Customer.email c) (Customer.birthdate c)
    (Customer.gender c) (Customer.address c) (Customer.favorite_food c) []
    (Customer.password_hash c) (Customer.salt c) (Customer.last_login c).

(** The timestamps of the objects that the system refers to are
    datetimes. *)
Definition datetimes_valid (σ : ReceiptSystem.world) : Prop :=
  (∀ r c, r ∈ ReceiptSystem.customers (ReceiptSystem.system σ) →
          ReceiptSystem.customer_objs σ !! r = Some c →
          datetime.valid (Customer.birthdate c)
          ∧ ∀ d, Customer.last_login c = Some d → datetime.valid d)
  ∧ (∀ cid l r v,
       ReceiptSystem.receipts (ReceiptSystem.system σ) !! cid = Some l →
       r ∈ l → ReceiptSystem.receipt_objs σ !! r = Some v →
       datetime.valid (Receipt.upload_date v)
       ∧ datetime.valid (Receipt.shelf_life v)).

(** The contents of a system as a snapshot keeps them. *)
Definition saved_contents
    (x : option (list Customer.t) * list Store.t
         * gmap string (option (list Receipt.t)))
    : option (list Customer.t) * list Store.t
      * gmap string (option (list Receipt.t)) :=
  ((λ cs : list Customer.t, saved_customer <$> cs) <$> x.1.1,
   x.1.2,
   (λ o : option (list Receipt.t),
      (λ rs : list Receipt.t, saved_receipt <$> rs) <$> o) <$> x.2).

(** What [data.get(key)] is when the key is missing or holds [None] or a
    string: [v] is that string, or [None]. *)
Definition get_opt_str (items : list (string * pyval)) (key : string)
    (v : option string) : Prop :=
  match dict_lookup key items with
  | None | Some PNone => v = None
  | Some (PStr s) => v = Some s
  | Some _ => False
  end.

(** The key is missing or holds a value that is false as a condition
    ([None], the empty string, zero, an empty container). *)
Definition missing_or_false (items : list (string * pyval)) (key : string) : Prop :=
  match dict_lookup key items with
  | None => True
  | Some v => py_truthy v = false
  end.

(** The string is made of lower-case hexadecimal digits. *)
Definition hex_digits (s : string) : Prop :=
  Forall (λ a, a ∈ list_ascii_of_string "0123456789abcdef")
    (list_ascii_of_string s).

(** ** Sample data *)
Module Sample.

Definition day0 : datetime.t := datetime.mk 2024 1 15 10 30 0 0.

Definition alice : Customer.t :=
  Customer.new "c1" "Alice@example.com" day0 "f" "1 Main St" (Some ["cheese"])
    None None None.

(** Another object with the id of [alice]. *)
Definition alice_again : Customer.t :=
  Customer.new "c1" "other@example.com" day0 "f" "2 Main St" None None None None.

(** The email of [alice] in another letter case. *)
Definition bob : Customer.t :=
  Customer.new "c2" "alice@example.com" day0 "m" "3 Main St" None None None None.

(** The email of [alice], character for character. *)
Definition carol : Customer.t :=
  Customer.new "c3" "Alice@example.com" day0 "f" "4 Main St" None None None None.

Definition receipt0 : Receipt.t :=
  Receipt.mk "r1" day0 None "" [] 1 day0.

Definition toast : MenuItem.t :=
  MenuItem.mk "i1" "toast" ["bread"; "cheese"] 3.5%float.
Definition salad : MenuItem.t :=
  MenuItem.mk "i2" "salad" ["lettuce"; "tomato"] 4.5%float.
Definition omelette : MenuItem.t :=
  MenuItem.mk "i3" "omelette" ["eggs"; "cheese"; "milk"] 5.5%float.

Definition corner_store : Store.t :=
  Store.mk "s1" "Corner" (1.5%float, 2.5%float) [toast; salad; omelette].

Definition objects : gmap nat Customer.t :=
  <[0%nat := alice]> (<[1%nat := alice_again]> (<[2%nat := bob]>
    (<[3%nat := carol]> ∅))).

(** [alice] is registered; the other three customers are not. *)
Definition world1 : ReceiptSystem.world :=
  ReceiptSystem.mk_world
    (ReceiptSystem.mk [0%nat] [corner_store] (<["c1" := []]> ∅))
    objects (<[0%nat := receipt0]> ∅).

(** A customer whose id is the empty string, registered. *)
Definition nobody : Customer.t :=
  Customer.new "" "nobody@example.com" day0 "x" "" None None None None.

Definition world_empty_id : ReceiptSystem.world :=
  ReceiptSystem.mk_world
    (ReceiptSystem.mk [4%nat] [corner_store] (<["" := []]> ∅))
    (<[4%nat := nobody]> objects) (<[0%nat := receipt0]> ∅).

(** [randint(2, 5)] gives 2 and the sample is [["milk"; "rice"]]. *)
Definition draws_milk_rice : receipt_draws :=
  mk_receipt_draws 2 (λ i, match i with O => 6%nat | _ => 8%nat end)
    (λ i, 199 + 1000 * Z.of_nat i).

(** [randint(2, 5)] gives 2 and the sample is [["rice"; "pasta"]]. *)
Definition draws_rice_pasta : receipt_draws :=
  mk_receipt_draws 2 (λ i, match i with O => 8%nat | _ => 9%nat end)
    (λ i, 1599 - 700 * Z.of_nat i).

(** A receipt uploaded two days before [datetime.max]. *)
Definition late_receipt : Receipt.t :=
  Receipt.mk "r9" (datetime.mk 9999 12 30 8 0 0 0) None "" [] 1 day0.

Definition late_world : ReceiptSystem.world :=
  ReceiptSystem.mk_world
    (ReceiptSystem.mk [0%nat] [corner_store] (<["c1" := []]> ∅))
    objects (<[0%nat := late_receipt]> ∅).

(** [alice] after [set_password("p1")], registered. *)
Definition entropy16 : list byte :=
  [x00; x01; x02; x03; x04; x05; x06; x07; x08; x09; x0a; x0b; x0c; x0d; x0e; xff].

Definition alice_p1 : Customer.t :=
  snd (Customer.set_password entropy16 "p1" alice).

Definition world_p1 : ReceiptSystem.world :=
  ReceiptSystem.mk_world
    (ReceiptSystem.mk [0%nat] [corner_store] (<["c1" := []]> ∅))
    (<[0%nat := alice_p1]> ∅) ∅.

Definition noon : datetime.t := datetime.mk 2024 6 1 12 0 0 0.

(** The password ['p\ud800']: the letter [p] and the surrogate U+D800. *)
Definition surrogate_password : string :=
  String "p" (String (ascii_of_nat 237) (String (ascii_of_nat 160)
    (String (ascii_of_nat 128) EmptyString))).

(** [randint(1, 3)] gives 2 and the sample takes positions 2 and 0. *)
Definition draws_two : recommendation_draws :=
  mk_recommendation_draws 2 (λ i, match i with O => 2%nat | _ => 0%nat end).

(** A receipt whose image is the empty byte string, stored for [alice]. *)
Definition receipt_empty_image : Receipt.t :=
  Receipt.mk "r2" day0 (Some []) "" [] 1 day0.

Definition world_empty_image : ReceiptSystem.world :=
  ReceiptSystem.mk_world
    (ReceiptSystem.mk [0%nat] [corner_store] (<["c1" := [0%nat]]> ∅))
    (<[0%nat := alice]> ∅) (<[0%nat := receipt_empty_image]> ∅).

(** [alice] with an entry in her purchase history, registered. *)
Definition alice_with_history : Customer.t :=
  Customer.mk "c1" "Alice@example.com" day0 "f" "1 Main St" ["cheese"]
    [PStr "r1"] None None None.

Definition world_with_history : ReceiptSystem.world :=
  ReceiptSystem.mk_world
    (ReceiptSystem.mk [0%nat] [] (<["c1" := []]> ∅))
    (<[0%nat := alice_with_history]> ∅) ∅.

(** A populated system: two customers, one of them logged in, a store, and
    a processed receipt with an image under the first customer. *)
Definition alice_logged_in : Customer.t := Customer.record_login noon alice_p1.

Definition receipt_with_image : Receipt.t :=
  Receipt.mk "r3" day0 (Some [x89; x50; x4e; x47]) "Receipt #r3" ["milk"; "rice"] 2
    (datetime.mk 2024 1 18 10 30 0 0).

Definition world_full : ReceiptSystem.world :=
  ReceiptSystem.mk_world
    (ReceiptSystem.mk [0%nat; 1%nat] [corner_store]
       (<["c1" := [5%nat; 7%nat]]> (<["c2" := []]> ∅)))
    (<[0%nat := alice_logged_in]> (<[1%nat := bob]> ∅))
    (<[5%nat := receipt_with_image]> (<[7%nat := receipt0]> ∅)).

(** A snapshot with a customer and no receipts entry. *)
Definition snapshot_without_receipts : pyval :=
  PDict [("customers", PList [Customer.to_dict alice])].

Definition empty_world : ReceiptSystem.world :=
  ReceiptSystem.mk_world ReceiptSystem.__init__ ∅ ∅.

(** Another object with the id of [bob] and the email of [alice]. *)
Definition bob_renamed : Customer.t :=
  Customer.new "c2" "Alice@example.com" day0 "m" "3 Main St" None None None
    None.

(** [world_full] with the object [bob_renamed], which is not registered. *)
Definition world_renaming : ReceiptSystem.world :=
  ReceiptSystem.mk_world (ReceiptSystem.system world_full)
    (<[2%nat := bob_renamed]> (ReceiptSystem.customer_objs world_full))
    (ReceiptSystem.receipt_objs world_full).

(** A new system, and [alice] after [set_password("p1")], not yet
    registered. *)
Definition world_sign_up : ReceiptSystem.world :=
  ReceiptSystem.mk_world ReceiptSystem.__init__ (<[0%nat := alice_p1]> ∅) ∅.

(** The dictionary of a customer saved before passwords existed. *)
Definition legacy_customer_dict : list (string * pyval) :=
  [("customer_id", PStr "c9"); ("email", PStr "old@example.com");
   ("birthdate", PStr "1990-05-17T00:00:00"); ("gender", PStr "f");
   ("address", PStr "9 Side St"); ("favorite_food", PNone)].

(** The dictionary of a receipt without the key for the image. *)
Definition bare_receipt_dict : list (string * pyval) :=
  [("receipt_id", PStr "r7"); ("upload_date", PStr "2024-03-01T09:15:00");
   ("ocr_text", PStr ""); ("ingredients", PList [PStr "rice"]);
   ("quantity", PInt 1); ("shelf_life", PStr "2024-03-08T09:15:00")].

End Sample.

(** * Properties *)

(** ** Timestamps on sample values *)

Example strftime_sample :
  datetime.strftime_ymd (datetime.mk 2024 2 29 7 5 0 0) = "2024-02-29"
  /\ datetime.strftime_ymd (datetime.mk 999 12 28 0 0 0 0) = "999-12-28".
Proof. vm_compute. auto. Qed.
Example isoformat_sample :
  datetime.isoformat (datetime.mk 2024 2 29 7 5 0 0) = "2024-02-29T07:05:00".
Proof. vm_compute. reflexivity. Qed.
Example isoformat_sample2 :
  datetime.fromisoformat "2024-02-29T07:05:00.000120" = Return (datetime.mk 2024 2 29 7 5 0 120).
Proof. vm_compute. reflexivity. Qed.
Example add_sample :
  datetime.add_days (datetime.mk 2024 2 27 7 5 0 0) 3 = Return (datetime.mk 2024 3 1 7 5 0 0).
Proof. vm_compute. reflexivity. Qed.
Example add_sample2 :
  datetime.add_days (datetime.mk 9999 12 27 7 5 0 0) 7 = Raise (OverflowError "date value out of range").
Proof. vm_compute. reflexivity. Qed.
Example add_sample3 :
  datetime.add_days (datetime.mk 2023 12 27 7 5 0 0) 7 = Return (datetime.mk 2024 1 3 7 5 0 0)
  /\ datetime.toordinal (datetime.mk 9999 12 31 0 0 0 0) = datetime._MAXORDINAL
  /\ datetime.add_days (datetime.mk 2023 2 26 7 5 0 0) 3 = Return (datetime.mk 2023 3 1 7 5 0 0)
  /\ datetime.add_days (datetime.mk 2000 12 31 7 5 0 0) 7 = Return (datetime.mk 2001 1 7 7 5 0 0).
Proof. vm_compute. auto. Qed.

(** ** SHA-256 on the standard test vectors *)

Example sha256_abc :
  hashlib.sha256_hexdigest (list_byte_of_string "abc")
  = "ba7816bf8f01cfea414140de5dae2223b00361a396177a9cb410ff61f20015ad".
Proof. vm_compute. reflexivity. Qed.

Example sha256_empty :
  hashlib.sha256_hexdigest []
  = "e3b0c44298fc1c149afbf4c8996fb92427ae41e4649b934ca495991b7852b855".
Proof. vm_compute. reflexivity. Qed.

Example sha256_two_blocks :
  hashlib.sha256_hexdigest
    (list_byte_of_string "abcdbcdecdefdefgefghfghighijhijkijkljklmklmnlmnomnopnopq")
  = "248d6a61d20638b8e5c026930c3e6039a33ce45964ff2167f6ecedd419db06c1".
Proof. vm_compute. reflexivity. Qed.

(** ** Base64 on sample values *)

Example b64encode_sample :
  base64.b64encode (list_byte_of_string "any carnal pleas") = "YW55IGNhcm5hbCBwbGVhcw=="
  /\ base64.b64encode (list_byte_of_string "any carnal pleasu") = "YW55IGNhcm5hbCBwbGVhc3U="
  /\ base64.b64encode (list_byte_of_string "any carnal pleasur") = "YW55IGNhcm5hbCBwbGVhc3Vy".
Proof. vm_compute. auto. Qed.

Example b64decode_sample :
  base64.b64decode "YW55IGNhcm5hbCBwbGVhcw==" = Return (list_byte_of_string "any carnal pleas")
  /\ base64.b64decode "YW55IGNhcm5hbCBwbGVhc3U=" = Return (list_byte_of_string "any carnal pleasu")
  /\ base64.b64decode "YW55IGNhcm5hbCBwbGVhc3Vy" = Return (list_byte_of_string "any carnal pleasur")
  /\ base64.b64decode "YW55I" = Raise (BinasciiError "Invalid base64-encoded string: number of data characters cannot be 1 more than a multiple of 4")
  /\ base64.b64decode "YW55IG" = Raise (BinasciiError "Incorrect padding").
Proof. vm_compute. auto 10. Qed.

(** ** Running the methods *)

Import ReceiptSystem.

Lemma py_map_customer_at (σ : world) (l : list nat) (cs : list Customer.t) :
  Forall2 (λ r c, customer_objs σ !! r = Some c) l cs →
  py_map customer_at l σ = (Return cs, σ).
Proof.
  induction 1 as [|r c l cs Hr _ IH]; [reflexivity|].
  cbn [py_map]. unfold py_bind at 1. unfold customer_at at 1. rewrite Hr.
  unfold py_bind at 1. rewrite IH. reflexivity.
Qed.

Lemma py_map_receipt_at (σ : world) (l : list nat) (rs : list Receipt.t) :
  Forall2 (λ r c, receipt_objs σ !! r = Some c) l rs →
  py_map receipt_at l σ = (Return rs, σ).
Proof.
  induction 1 as [|r c l cs Hr _ IH]; [reflexivity|].
  cbn [py_map]. unfold py_bind at 1. unfold receipt_at at 1. rewrite Hr.
  unfold py_bind at 1. rewrite IH. reflexivity.
Qed.

Lemma Forall_is_Some_Forall2 {A} (m : gmap nat A) (l : list nat) :
  Forall (λ r, is_Some (m !! r)) l →
  ∃ xs, Forall2 (λ r x, m !! r = Some x) l xs.
Proof.
  induction 1 as [|r l [x Hx] _ [xs IH]].
  - exists []. constructor.
  - exists (x :: xs). by constructor.
Qed.

(** The customers of a closed world, object by object. *)
Lemma closed_customers (σ : world) :
  closed σ →
  ∃ cs, Forall2 (λ r c, customer_objs σ !! r = Some c) (customers (system σ)) cs.
Proof. intros [H _]. by apply Forall_is_Some_Forall2. Qed.

Lemma existsb_eqb_false_iff {A} (f : A → string) (v : string) (l : list A) :
  existsb (λ x, String.eqb (f x) v) l = false ↔ Forall (λ x, f x ≠ v) l.
Proof.
  induction l as [|x l IH]; cbn; [by split; [constructor|]|].
  rewrite orb_false_iff, IH, Forall_cons, String.eqb_neq. tauto.
Qed.

Lemma existsb_eqb_true_iff {A} (f : A → string) (v : string) (l : list A) :
  existsb (λ x, String.eqb (f x) v) l = true ↔ Exists (λ x, f x = v) l.
Proof.
  induction l as [|x l IH]; cbn.
  - split; [discriminate|]. by intros ?%Exists_nil.
  - rewrite orb_true_iff, IH, Exists_cons, String.eqb_eq. tauto.
Qed.

(** What [register_customer] does, by cases on the two uniqueness checks. *)
Lemma register_customer_cases (σ : world) (customer : nat) (c : Customer.t)
    (cs : list Customer.t) :
  customer_objs σ !! customer = Some c →
  Forall2 (λ r x, customer_objs σ !! r = Some x) (customers (system σ)) cs →
  register_customer customer σ =
    if existsb (λ x, String.eqb (Customer.customer_id x) (Customer.customer_id c)) cs
    then (Raise (ValueError ("Customer with ID " +:+ Customer.customer_id c
                             +:+ " already exists")), σ)
    else if existsb (λ x, String.eqb (Customer.email x) (Customer.email c)) cs
    then (Raise (ValueError ("Customer with email " +:+ Customer.email c
                             +:+ " already exists")), σ)
    else (Return tt,
          mk_world (mk (customers (system σ) ++ [customer]) (stores (system σ))
                       (<[Customer.customer_id c := []]> (receipts (system σ))))
                   (customer_objs σ) (receipt_objs σ)).
Proof.
  intros Hc Hcs. unfold register_customer.
  unfold py_bind at 1. unfold customer_at at 1. rewrite Hc.
  unfold py_bind at 1. unfold get_self at 1.
  unfold py_bind at 1. rewrite (py_map_customer_at _ _ _ Hcs).
  destruct (existsb _ cs); [reflexivity|].
  destruct (existsb _ cs); reflexivity.
Qed.

(** Settles a decidable statement about concrete data by evaluation. *)
Ltac by_evaluation := apply (bool_decide_unpack _); vm_compute; exact I.

(** ** Registration *)

(** C2: registering a customer whose [customer_id] is the one of a registered
    customer raises the [ValueError] for a duplicate id, and the world after
    the call is the world before it: customer list, receipts mapping and all
    objects. *)
Theorem register_customer_duplicate_id (σ : world) (customer : nat)
    (c : Customer.t) (r : nat) (c' : Customer.t) :
  closed σ →
  customer_objs σ !! customer = Some c →
  r ∈ customers (system σ) →
  customer_objs σ !! r = Some c' →
  Customer.customer_id c' = Customer.customer_id c →
  register_customer customer σ
  = (Raise (ValueError ("Customer with ID " +:+ Customer.customer_id c
                        +:+ " already exists")), σ).
Proof.
  intros Hclosed Hc Hr Hc' Hid.
  destruct (closed_customers σ Hclosed) as [cs Hcs].
  rewrite (register_customer_cases σ customer c cs Hc Hcs).
  replace (existsb _ cs) with true; [reflexivity|].
  symmetry. apply existsb_eqb_true_iff, Exists_exists.
  apply list_elem_of_lookup in Hr as [i Hi].
  destruct (Forall2_lookup_l _ _ _ _ _ Hcs Hi) as (x & Hx & Hrx).
  exists x. split; [by eapply list_elem_of_lookup_2|]. congruence.
Qed.

Lemma register_customer_duplicate_id_witness :
  register_customer 1 Sample.world1
  = (Raise (ValueError "Customer with ID c1 already exists"), Sample.world1).
Proof.
  apply (register_customer_duplicate_id Sample.world1 1 Sample.alice_again 0
           Sample.alice).
  - by_evaluation.
  - vm_compute. reflexivity.
  - by_evaluation.
  - vm_compute. reflexivity.
  - reflexivity.
Defined.

(** ** Lookup by email *)

Lemma find_by_email_first (lower : string → string) (σ : world)
    (email : string) (l : list nat) :
  Forall (λ r, is_Some (customer_objs σ !! r)) l →
  ∃ found, find_by_email lower email l σ = (Return found, σ)
           ∧ first_email_match lower σ email l found.
Proof.
  induction 1 as [|r l [c Hc] _ (found & Hrun & Hfound)].
  - exists None. split; [reflexivity|]. intros r c Hr. by apply elem_of_nil in Hr.
  - cbn [find_by_email]. unfold py_bind at 1. unfold customer_at at 1. rewrite Hc.
    destruct (String.eqb (lower (Customer.email c)) (lower email)) eqn:Heq.
    + exists (Some r). split; [reflexivity|].
      exists 0%nat, c. apply String.eqb_eq in Heq. repeat split; [done..|].
      intros j r' c' Hj. lia.
    + exists found. split; [exact Hrun|]. apply String.eqb_neq in Heq.
      destruct found as [r0|]; cbn in *.
      * destruct Hfound as (i & c0 & Hi & Hc0 & Hlow & Hbefore).
        exists (S i), c0. repeat split; [done..|].
        intros [|j] r' c' Hj Hlook Hobj; cbn in Hlook.
        -- congruence.
        -- eapply Hbefore; [|done..]. lia.
      * intros r' c' [->|Hin]%elem_of_cons Hobj; [congruence|].
        by eapply Hfound.
Qed.

Lemma get_customer_by_email_first (lower : string → string) (σ : world)
    (email : string) :
  closed σ →
  ∃ found, get_customer_by_email lower email σ = (Return found, σ)
           ∧ first_email_match lower σ email (customers (system σ)) found.
Proof. intros [H _]. by apply find_by_email_first. Qed.

(** C3: the email check of [register_customer] compares exactly, the lookup by
    email compares lower-cased text ([lower] is [str.lower]; the statement
    holds for every function in its place).  With [c1] registered in [σ]:
    a customer with exactly the email of [c1] is refused with a [ValueError]
    and [σ] stays as it is; a customer with a new id whose email is the one
    of [c1] up to letter case, and is the exact email of no registered
    customer, is appended with an empty receipt list; and the lookup returns
    the first registered customer whose lower-cased email is the lower-cased
    query, or [None], without raising or changing anything. *)
Theorem register_exact_email_lookup_lower_email (lower : string → string)
    (σ : world) (r1 : nat) (c1 : Customer.t) :
  closed σ →
  r1 ∈ customers (system σ) →
  customer_objs σ !! r1 = Some c1 →
  (∀ customer c,
     customer_objs σ !! customer = Some c →
     Customer.email c = Customer.email c1 →
     ∃ msg, register_customer customer σ = (Raise (ValueError msg), σ))
  ∧ (∀ customer c,
       customer_objs σ !! customer = Some c →
       lower (Customer.email c) = lower (Customer.email c1) →
       (∀ r' c', r' ∈ customers (system σ) → customer_objs σ !! r' = Some c' →
          Customer.customer_id c' ≠ Customer.customer_id c
          ∧ Customer.email c' ≠ Customer.email c) →
       register_customer customer σ
       = (Return tt,
          mk_world (mk (customers (system σ) ++ [customer]) (stores (system σ))
                       (<[Customer.customer_id c := []]> (receipts (system σ))))
                   (customer_objs σ) (receipt_objs σ)))
  ∧ (∀ email,
       ∃ found, get_customer_by_email lower email σ = (Return found, σ)
                ∧ first_email_match lower σ email (customers (system σ)) found).
Proof.
  intros Hclosed Hr1 Hc1.
  destruct (closed_customers σ Hclosed) as [cs Hcs].
  split; [|split].
  - intros customer c Hc Hemail.
    rewrite (register_customer_cases σ customer c cs Hc Hcs).
    destruct (existsb _ cs); [by eexists|].
    replace (existsb _ cs) with true; [by eexists|].
    symmetry. apply existsb_eqb_true_iff, Exists_exists.
    apply list_elem_of_lookup in Hr1 as [i Hi].
    destruct (Forall2_lookup_l _ _ _ _ _ Hcs Hi) as (x & Hx & Hrx).
    exists x. split; [by eapply list_elem_of_lookup_2|]. congruence.
  - intros customer c Hc _ Hnew.
    rewrite (register_customer_cases σ customer c cs Hc Hcs).
    assert (Forall (λ x, Customer.customer_id x ≠ Customer.customer_id c
                         ∧ Customer.email x ≠ Customer.email c) cs) as Hall.
    { apply Forall_lookup. intros i x Hx.
      destruct (Forall2_lookup_r _ _ _ _ _ Hcs Hx) as (r' & Hr' & Hobj).
      eapply Hnew; [by eapply list_elem_of_lookup_2|done]. }
    replace (existsb (λ x, String.eqb (Customer.customer_id x) _) cs) with false.
    2:{ symmetry. apply existsb_eqb_false_iff. eapply Forall_impl; [exact Hall|].
        by intros ? []. }
    replace (existsb (λ x, String.eqb (Customer.email x) _) cs) with false.
    2:{ symmetry. apply existsb_eqb_false_iff. eapply Forall_impl; [exact Hall|].
        by intros ? []. }
    reflexivity.
  - intros email. by apply get_customer_by_email_first.
Qed.

Lemma register_exact_email_lookup_lower_email_witness :
  (∃ msg, register_customer 3 Sample.world1
          = (Raise (ValueError msg), Sample.world1))
  ∧ (∃ σ', register_customer 2 Sample.world1 = (Return tt, σ')
           ∧ customers (system σ') = [0; 2]%nat)
  ∧ (∃ found, get_customer_by_email lower_ascii "ALICE@EXAMPLE.COM" Sample.world1
              = (Return found, Sample.world1)
              ∧ first_email_match lower_ascii Sample.world1 "ALICE@EXAMPLE.COM"
                  [0%nat] found).
Proof.
  destruct (register_exact_email_lookup_lower_email lower_ascii Sample.world1 0
              Sample.alice) as (Hexact & Hcase & Hlookup).
  - by_evaluation.
  - by_evaluation.
  - vm_compute. reflexivity.
  - split; [|split].
    + apply (Hexact 3%nat Sample.carol); vm_compute; reflexivity.
    + eexists. split.
      * apply (Hcase 2%nat Sample.bob); [vm_compute; reflexivity..|].
        intros r' c' Hr' Hc'.
        apply list_elem_of_singleton in Hr'. subst r'.
        vm_compute in Hc'. injection Hc' as <-.
        split; vm_compute; discriminate.
      * reflexivity.
    + apply (Hlookup "ALICE@EXAMPLE.COM").
Defined.

(** ** Processing a receipt *)

Lemma outcome_map_lookup {A} (population : list A) (position : nat → nat)
    (l : list nat) :
  Forall (λ i, (i < length population)%nat) (position <$> l) →
  ∃ xs,
    outcome_map
      (λ i, match population !! position i with
            | Some x => Return x
            | None => Raise (IndexError "list index out of range")
            end) l = Return xs
    ∧ Forall2 (λ i x, population !! position i = Some x) l xs.
Proof.
  induction l as [|i l IH]; intros Hall.
  - exists []. split; [reflexivity|constructor].
  - apply Forall_cons in Hall as [Hi Hl].
    destruct (IH Hl) as (xs & Hrun & Hxs).
    destruct (lookup_lt_is_Some_2 population (position i) Hi) as [x Hx].
    exists (x :: xs). split; [|by constructor].
    cbn [outcome_map]. rewrite Hx. cbn. rewrite Hrun. reflexivity.
Qed.

(** A sample of [k] positions inside the population is returned, and holds the
    elements at these positions in the order of the draws. *)
Lemma sample_returns {A} (population : list A) (k : Z) (position : nat → nat) :
  0 <= k <= Z.of_nat (length population) →
  Forall (λ i, (i < length population)%nat) (position <$> seq 0 (Z.to_nat k)) →
  ∃ xs, random.sample population k position = Return xs
        ∧ Forall2 (λ i x, population !! position i = Some x)
            (seq 0 (Z.to_nat k)) xs.
Proof.
  intros Hk Hpos. unfold random.sample.
  replace ((k <? 0) || (Z.of_nat (length population) <? k)) with false.
  - by apply outcome_map_lookup.
  - symmetry. apply orb_false_iff. split; apply Z.ltb_ge; lia.
Qed.

Lemma sample_length {A} (population : list A) (k : Z) (position : nat → nat)
    (xs : list A) :
  random.sample population k position = Return xs →
  0 <= k <= Z.of_nat (length population) ∧ length xs = Z.to_nat k.
Proof.
  unfold random.sample.
  destruct ((k <? 0) || (Z.of_nat (length population) <? k)) eqn:Hk; [discriminate|].
  apply orb_false_iff in Hk as [H1%Z.ltb_ge H2%Z.ltb_ge].
  intros Hrun. split; [lia|].
  rewrite <- (length_seq (Z.to_nat k) 0).
  revert xs Hrun. generalize (seq 0 (Z.to_nat k)) as l.
  induction l as [|i l IH]; intros xs; cbn [outcome_map].
  - by intros [= <-].
  - destruct (population !! position i); [|discriminate]. cbn.
    destruct (outcome_map _ l) as [ys|] eqn:Hys; [|discriminate]. cbn.
    intros [= <-]. cbn. f_equal. by apply IH.
Qed.

Lemma receipt_draws_sample (rnd : receipt_draws) :
  receipt_draws_ok (length sample_ingredients) rnd →
  ∃ sampled,
    random.sample sample_ingredients (randint_2_5 rnd) (vocabulary_position rnd)
    = Return sampled
    ∧ length sampled = Z.to_nat (randint_2_5 rnd).
Proof.
  intros [Hk [Hin _]].
  destruct (sample_returns sample_ingredients (randint_2_5 rnd)
              (vocabulary_position rnd)) as (xs & Hrun & _).
  - cbn. lia.
  - exact Hin.
  - exists xs. split; [exact Hrun|]. by eapply sample_length.
Qed.

Lemma modify_receipt_run (σ : world) (r : nat) (v : Receipt.t)
    (f : Receipt.t → Receipt.t) :
  receipt_objs σ !! r = Some v →
  modify_receipt r f σ
  = (Return tt, mk_world (system σ) (customer_objs σ) (<[r := f v]> (receipt_objs σ))).
Proof.
  intros Hr. unfold modify_receipt, py_bind, receipt_at. rewrite Hr. reflexivity.
Qed.

Lemma receipt_at_run (σ : world) (r : nat) (v : Receipt.t) :
  receipt_objs σ !! r = Some v → receipt_at r σ = (Return v, σ).
Proof. intros Hr. unfold receipt_at. rewrite Hr. reflexivity. Qed.

(** The last statement of [process_receipt]. *)
Lemma store_receipt_run (σ : world) (receipt : nat) (customer_id : option string) :
  match customer_id with
  | Some cid =>
      if str_truthy cid then
        match receipts (system σ) !! cid with
        | Some l =>
            set_self (mk (customers (system σ)) (stores (system σ))
                         (<[cid := l ++ [receipt]]> (receipts (system σ))))
        | None => py_ret tt
        end
      else py_ret tt
  | None => py_ret tt
  end σ
  = (Return tt,
     mk_world (with_receipt receipt customer_id (system σ))
              (customer_objs σ) (receipt_objs σ)).
Proof.
  unfold with_receipt.
  destruct customer_id as [cid|]; [|by destruct σ].
  destruct (str_truthy cid); [|by destruct σ].
  destruct (receipts (system σ) !! cid); [reflexivity|by destruct σ].
Qed.

(** What [process_receipt] does to a receipt that exists, once the sample is
    drawn: either the date arithmetic overflows after the first two
    assignments, or all three are done and the receipt is stored when the
    customer id is a non-empty key. *)
Lemma process_receipt_run (σ : world) (rnd : receipt_draws) (receipt : nat)
    (customer_id : option string) (r : Receipt.t) (sampled : list string) :
  receipt_objs σ !! receipt = Some r →
  random.sample sample_ingredients (randint_2_5 rnd) (vocabulary_position rnd)
  = Return sampled →
  process_receipt rnd receipt customer_id σ
  = match datetime.add_days (Receipt.upload_date r) (shelf_life_offset sampled) with
    | Raise e =>
        (Raise e,
         mk_world (system σ) (customer_objs σ)
           (<[receipt := half_processed rnd sampled r]> (receipt_objs σ)))
    | Return d =>
        (Return tt,
         mk_world (with_receipt receipt customer_id (system σ)) (customer_objs σ)
           (<[receipt := processed rnd sampled d r]> (receipt_objs σ)))
    end.
Proof.
  intros Hr Hsample. unfold process_receipt.
  unfold py_bind at 1. unfold lift at 1. rewrite Hsample.
  unfold py_bind at 1. rewrite (modify_receipt_run σ receipt r _ Hr).
  set (σ1 := mk_world _ _ (<[receipt := Receipt.set_ingredients sampled r]> _)).
  assert (receipt_objs σ1 !! receipt = Some (Receipt.set_ingredients sampled r)) as H1
    by apply lookup_insert_eq.
  unfold py_bind at 1. rewrite (receipt_at_run σ1 receipt _ H1).
  unfold py_bind at 1. rewrite (modify_receipt_run σ1 receipt _ _ H1).
  set (σ2 := mk_world _ _ (<[receipt := Receipt.set_ocr_text _ _]> _)).
  assert (receipt_objs σ2 !! receipt = Some (half_processed rnd sampled r)) as H2
    by apply lookup_insert_eq.
  unfold py_bind at 1. rewrite (receipt_at_run σ2 receipt _ H2).
  unfold py_bind at 1. unfold lift at 1.
  change (if str_in "milk" (Receipt.ingredients (half_processed rnd sampled r))
             || str_in "eggs" (Receipt.ingredients (half_processed rnd sampled r))
          then 3 else 7) with (shelf_life_offset sampled).
  change (Receipt.upload_date (half_processed rnd sampled r))
    with (Receipt.upload_date r).
  destruct (datetime.add_days (Receipt.upload_date r) (shelf_life_offset sampled))
    as [d|e].
  - unfold py_bind at 1. rewrite (modify_receipt_run σ2 receipt _ _ H2).
    unfold py_bind at 1. unfold get_self at 1.
    rewrite store_receipt_run. cbn [system customer_objs receipt_objs].
    subst σ2 σ1. cbn [system customer_objs receipt_objs].
    rewrite !insert_insert_eq. reflexivity.
  - subst σ2 σ1. cbn [system customer_objs receipt_objs].
    rewrite !insert_insert_eq. reflexivity.
Qed.

(** Whatever happens, the system after [process_receipt] is the system before
    it, or that system with the receipt stored. *)
Lemma process_receipt_system (σ : world) (rnd : receipt_draws) (receipt : nat)
    (customer_id : option string) :
  let σ' := snd (process_receipt rnd receipt customer_id σ) in
  (system σ' = system σ
   ∨ system σ' = with_receipt receipt customer_id (system σ))
  ∧ customer_objs σ' = customer_objs σ.
Proof.
  destruct (random.sample sample_ingredients (randint_2_5 rnd)
              (vocabulary_position rnd)) as [sampled|e] eqn:Hsample.
  - destruct (receipt_objs σ !! receipt) as [r|] eqn:Hr.
    + rewrite (process_receipt_run σ rnd receipt customer_id r sampled Hr Hsample).
      destruct (datetime.add_days _ _); cbn; auto.
    + assert (process_receipt rnd receipt customer_id σ
              = (Raise (ReferenceError "receipt"), σ)) as ->; [|cbn; auto].
      unfold process_receipt. unfold py_bind at 1. unfold lift at 1.
      rewrite Hsample. unfold py_bind at 1.
      unfold modify_receipt at 1. unfold py_bind at 1. unfold receipt_at at 1.
      by rewrite Hr.
  - assert (process_receipt rnd receipt customer_id σ = (Raise e, σ)) as ->;
      [|cbn; auto].
    unfold process_receipt. unfold py_bind at 1. unfold lift at 1.
    by rewrite Hsample.
Qed.

(** C10: with the empty string a key of the receipts mapping,
    [process_receipt(receipt, customer_id="")] leaves the system as it is,
    whatever the call returns or raises: the list under [""] and every
    other entry of the mapping, the customer list and the store list. *)
Theorem process_receipt_empty_customer_id (σ : world) (rnd : receipt_draws)
    (receipt : nat) :
  "" ∈ dom (receipts (system σ)) →
  let σ' := snd (process_receipt rnd receipt (Some "") σ) in
  system σ' = system σ
  ∧ receipts (system σ') !! "" = receipts (system σ) !! "".
Proof.
  intros _ σ'.
  assert (system σ' = system σ) as Hsame.
  { destruct (process_receipt_system σ rnd receipt (Some "")) as [[H|H] _];
      exact H. }
  split; [exact Hsame|]. by rewrite Hsame.
Qed.

Lemma process_receipt_empty_customer_id_witness :
  system (snd (process_receipt Sample.draws_milk_rice 0 (Some "")
                 Sample.world_empty_id))
  = system Sample.world_empty_id
  ∧ receipts (system (snd (process_receipt Sample.draws_milk_rice 0 (Some "")
                             Sample.world_empty_id))) !! ""
    = receipts (system Sample.world_empty_id) !! "".
Proof.
  apply (process_receipt_empty_customer_id Sample.world_empty_id
           Sample.draws_milk_rice 0).
  by_evaluation.
Defined.

(** The call of the witness returns, and the receipt is processed. *)
Example empty_customer_id_call_returns :
  fst (process_receipt Sample.draws_milk_rice 0 (Some "") Sample.world_empty_id)
  = Return tt
  ∧ Receipt.ingredients
      <$> receipt_objs (snd (process_receipt Sample.draws_milk_rice 0 (Some "")
                               Sample.world_empty_id)) !! 0%nat
    = Some ["milk"; "rice"].
Proof. vm_compute. auto. Qed.

Lemma str_in_elem_of (x : string) (l : list string) :
  str_in x l = true ↔ x ∈ l.
Proof.
  unfold str_in. rewrite existsb_exists. split.
  - intros (y & Hy%list_elem_of_In & ->%String.eqb_eq). exact Hy.
  - intros Hx. exists x. split; [by apply list_elem_of_In|apply String.eqb_refl].
Qed.

Lemma shelf_life_offset_cases (sampled : list string) :
  shelf_life_offset sampled
  = if decide ("milk" ∈ sampled ∨ "eggs" ∈ sampled) then 3 else 7.
Proof.
  unfold shelf_life_offset.
  destruct (str_in "milk" sampled || str_in "eggs" sampled) eqn:Hin.
  - rewrite decide_True; [reflexivity|].
    apply orb_true_iff in Hin as [H|H]; apply str_in_elem_of in H; auto.
  - rewrite decide_False; [reflexivity|].
    apply orb_false_iff in Hin as [H1 H2].
    intros [H|H]; apply str_in_elem_of in H; congruence.
Qed.

(** C5, as amended: after [process_receipt] the ingredients of the receipt are
    the sample, and [shelf_life] is the value of
    [upload_date + timedelta(days=n)] with [n = 3] when milk or eggs is in the
    sample and [n = 7] otherwise, whenever that sum is a datetime: the call
    then returns and has assigned it.  When the sum is past [datetime.max]
    the addition raises, the call raises the same error and [shelf_life]
    keeps its old value. *)
Theorem process_receipt_shelf_life (σ : world) (rnd : receipt_draws)
    (receipt : nat) (customer_id : option string) (r : Receipt.t)
    (sampled : list string) :
  receipt_objs σ !! receipt = Some r →
  random.sample sample_ingredients (randint_2_5 rnd) (vocabulary_position rnd)
  = Return sampled →
  Receipt.ingredients
    <$> receipt_objs (snd (process_receipt rnd receipt customer_id σ)) !! receipt
  = Some sampled
  ∧ match datetime.add_days (Receipt.upload_date r)
            (if decide ("milk" ∈ sampled ∨ "eggs" ∈ sampled) then 3 else 7) with
    | Return d =>
        fst (process_receipt rnd receipt customer_id σ) = Return tt
        ∧ Receipt.shelf_life
            <$> receipt_objs (snd (process_receipt rnd receipt customer_id σ))
                  !! receipt
          = Some d
    | Raise e =>
        fst (process_receipt rnd receipt customer_id σ) = Raise e
        ∧ Receipt.shelf_life
            <$> receipt_objs (snd (process_receipt rnd receipt customer_id σ))
                  !! receipt
          = Some (Receipt.shelf_life r)
    end.
Proof.
  intros Hr Hsample.
  rewrite (process_receipt_run σ rnd receipt customer_id r sampled Hr Hsample).
  rewrite <- shelf_life_offset_cases.
  destruct (datetime.add_days _ _) as [d|e]; cbn [fst snd receipt_objs];
    rewrite lookup_insert_eq; auto.
Qed.

Lemma process_receipt_shelf_life_witness :
  (fst (process_receipt Sample.draws_milk_rice 0 None Sample.world1) = Return tt
   ∧ Receipt.shelf_life
       <$> receipt_objs (snd (process_receipt Sample.draws_milk_rice 0 None
                                Sample.world1)) !! 0%nat
     = Some (datetime.mk 2024 1 18 10 30 0 0))
  ∧ (fst (process_receipt Sample.draws_rice_pasta 0 None Sample.world1) = Return tt
     ∧ Receipt.shelf_life
         <$> receipt_objs (snd (process_receipt Sample.draws_rice_pasta 0 None
                                  Sample.world1)) !! 0%nat
       = Some (datetime.mk 2024 1 22 10 30 0 0)).
Proof.
  split.
  - refine (proj2 (process_receipt_shelf_life Sample.world1 Sample.draws_milk_rice
                     0 None Sample.receipt0 ["milk"; "rice"] _ _));
      vm_compute; reflexivity.
  - refine (proj2 (process_receipt_shelf_life Sample.world1 Sample.draws_rice_pasta
                     0 None Sample.receipt0 ["rice"; "pasta"] _ _));
      vm_compute; reflexivity.
Defined.

(** C5 as written fails for a receipt uploaded on 9999-12-30: milk is in the
    sample, three days later is past [datetime.max], and the call raises
    [OverflowError] with [shelf_life] still the value it had. *)
Lemma process_receipt_shelf_life_overflow :
  receipt_draws_ok (length sample_ingredients) Sample.draws_milk_rice
  ∧ Receipt.ingredients
      <$> receipt_objs (snd (process_receipt Sample.draws_milk_rice 0 None
                               Sample.late_world)) !! 0%nat
    = Some ["milk"; "rice"]
  ∧ datetime.add_days (Receipt.upload_date Sample.late_receipt) 3
    = Raise (OverflowError "date value out of range")
  ∧ fst (process_receipt Sample.draws_milk_rice 0 None Sample.late_world)
    = Raise (OverflowError "date value out of range")
  ∧ Receipt.shelf_life
      <$> receipt_objs (snd (process_receipt Sample.draws_milk_rice 0 None
                               Sample.late_world)) !! 0%nat
    = Some (Receipt.shelf_life Sample.late_receipt).
Proof.
  split.
  - split; [cbn; lia|]. split; by_evaluation.
  - vm_compute. auto.
Qed.





(** ** Encoding a string *)

Lemma has_surrogate_cons (a b : ascii) (s : string) :
  has_surrogate (String a (String b s))
  = ((nat_of_ascii a =? 237) && (160 <=? nat_of_ascii b)
     && (nat_of_ascii b <=? 191))%nat
    || has_surrogate (String b s).
Proof. reflexivity. Qed.

Lemma has_surrogate_app_l (s1 s2 : string) :
  has_surrogate s1 = true → has_surrogate (s1 +:+ s2) = true.
Proof.
  induction s1 as [|a s1 IH]; [discriminate|].
  destruct s1 as [|b s1]; [discriminate|].
  change (String a (String b s1) +:+ s2) with (String a (String b s1 +:+ s2)).
  change (String b s1 +:+ s2) with (String b (s1 +:+ s2)) in *.
  rewrite !has_surrogate_cons. intros [H|H]%orb_true_iff; apply orb_true_iff.
  - by left.
  - right. by apply IH.
Qed.

(** ASCII text holds no surrogate, and appending it adds none. *)
Lemma has_surrogate_ascii (s : string) :
  Forall (λ a, (nat_of_ascii a < 128)%nat) (list_ascii_of_string s) →
  has_surrogate s = false.
Proof.
  induction s as [|a s IH]; [reflexivity|].
  cbn [list_ascii_of_string]. intros [Ha Hs]%Forall_cons.
  destruct s as [|b s]; [reflexivity|].
  rewrite has_surrogate_cons, (IH Hs), orb_false_r.
  apply andb_false_iff. left. apply andb_false_iff. left.
  apply Nat.eqb_neq. lia.
Qed.

Lemma has_surrogate_app_ascii (s1 s2 : string) :
  Forall (λ a, (nat_of_ascii a < 128)%nat) (list_ascii_of_string s2) →
  has_surrogate (s1 +:+ s2) = has_surrogate s1.
Proof.
  intros Hs2. induction s1 as [|a s1 IH]; [by apply has_surrogate_ascii|].
  destruct s1 as [|b s1].
  - change (String a "" +:+ s2) with (String a s2).
    destruct s2 as [|b s2]; [reflexivity|].
    rewrite has_surrogate_cons, (has_surrogate_ascii _ Hs2), orb_false_r.
    cbn [list_ascii_of_string] in Hs2. apply Forall_cons in Hs2 as [Hb _].
    apply andb_false_iff. left. apply andb_false_iff. right.
    apply Nat.leb_gt. lia.
  - change (String a (String b s1) +:+ s2) with (String a (String b s1 +:+ s2)).
    change (String b s1 +:+ s2) with (String b (s1 +:+ s2)) in *.
    rewrite !has_surrogate_cons. by rewrite IH.
Qed.

(** Hashing a password that holds a surrogate raises, whatever the salt. *)
Lemma hash_password_surrogate (password salt : string) :
  has_surrogate password = true →
  Customer._hash_password password salt
  = Raise (UnicodeEncodeError "surrogates not allowed").
Proof.
  intros H. unfold Customer._hash_password, encode.
  by rewrite (has_surrogate_app_l _ _ H).
Qed.

Lemma hash_password_returns (password salt : string) :
  has_surrogate (password +:+ salt) = false →
  Customer._hash_password password salt
  = Return (hashlib.sha256_hexdigest (list_byte_of_string (password +:+ salt))).
Proof. intros H. unfold Customer._hash_password, encode. by rewrite H. Qed.

(** [verify_password] by cases: what it returns, and when it raises. *)
Lemma verify_password_cases (password : string) (c : Customer.t) :
  Customer.verify_password password c
  = match Customer.password_hash c, Customer.salt c with
    | Some h, Some s =>
        if str_truthy h && str_truthy s
        then h' ← Customer._hash_password password s; Return (String.eqb h h')
        else Return false
    | _, _ => Return false
    end.
Proof.
  unfold Customer.verify_password.
  destruct (Customer.password_hash c) as [h|], (Customer.salt c) as [s|];
    cbn [opt_str_truthy negb orb]; try reflexivity.
  - by destruct (str_truthy h), (str_truthy s).
  - by destruct (str_truthy h).
Qed.

(** ** Authentication *)

(** The lookup has one answer. *)
Lemma first_email_match_unique (lower : string → string) (σ : world)
    (email : string) (l : list nat) (found found' : option nat) :
  Forall (λ r, is_Some (customer_objs σ !! r)) l →
  first_email_match lower σ email l found →
  first_email_match lower σ email l found' →
  found = found'.
Proof.
  intros Hl H H'.
  destruct found as [r|], found' as [r'|]; cbn in *; [| | |done].
  - destruct H as (i & c & Hi & Hc & Hlow & Hbefore).
    destruct H' as (i' & c' & Hi' & Hc' & Hlow' & Hbefore').
    destruct (lt_eq_lt_dec i i') as [[Hlt|Heq]|Hgt].
    + by destruct (Hbefore' i r c Hlt Hi Hc).
    + subst i'. congruence.
    + by destruct (Hbefore i' r' c' Hgt Hi' Hc').
  - destruct H as (i & c & Hi & Hc & Hlow & _).
    destruct (H' r c); [by eapply list_elem_of_lookup_2|done..].
  - destruct H' as (i & c & Hi & Hc & Hlow & _).
    destruct (H r' c); [by eapply list_elem_of_lookup_2|done..].
Qed.

Lemma get_customer_by_email_run (lower : string → string) (σ : world)
    (email : string) (found : option nat) :
  closed σ →
  first_email_match lower σ email (customers (system σ)) found →
  get_customer_by_email lower email σ = (Return found, σ).
Proof.
  intros Hclosed Hfound.
  destruct (get_customer_by_email_first lower σ email Hclosed) as (found' & Hrun & H').
  rewrite Hrun. do 2 f_equal.
  destruct Hclosed as [Hl _]. by eapply first_email_match_unique.
Qed.

(** [record_login] assigns [last_login] and nothing else. *)
Lemma record_login_logged_in (now : datetime.t) (c : Customer.t) :
  Customer.record_login now c = logged_in now c.
Proof. reflexivity. Qed.

(** [authenticate_customer] by cases on the lookup and the password check. *)
Lemma authenticate_customer_cases (lower : string → string) (σ : world)
    (now : datetime.t) (email password : string) (found : option nat) :
  closed σ →
  first_email_match lower σ email (customers (system σ)) found →
  authenticate_customer lower now email password σ
  = match found with
    | None => (Return None, σ)
    | Some r =>
        match customer_objs σ !! r with
        | Some c =>
            match Customer.verify_password password c with
            | Return true =>
                (Return (Some r),
                 mk_world (system σ) (<[r := logged_in now c]> (customer_objs σ))
                   (receipt_objs σ))
            | Return false => (Return None, σ)
            | Raise e => (Raise e, σ)
            end
        | None => (Raise (ReferenceError "customer"), σ)
        end
    end.
Proof.
  intros Hclosed Hfound.
  unfold authenticate_customer. unfold py_bind at 1.
  rewrite (get_customer_by_email_run lower σ email found Hclosed Hfound).
  destruct found as [r|]; [|reflexivity].
  unfold py_bind at 1. unfold customer_at at 1.
  destruct (customer_objs σ !! r) as [c|] eqn:Hc; [|reflexivity].
  unfold py_bind at 1. unfold lift at 1.
  destruct (Customer.verify_password password c) as [[|]|e]; [|reflexivity..].
  unfold py_bind at 1. unfold modify_customer, py_bind, customer_at.
  by rewrite Hc.
Qed.

(** C7, as amended: the run with an email that matches no registered customer
    and the run with an email whose first match answers [False] to
    [verify_password] end alike: both return [None] and leave the world as it
    is.  When [verify_password] raises, the call raises the same error and
    changes nothing; it does so when the first match has a hash and a salt
    and the password followed by the salt holds a surrogate, while an
    unknown email gives [None] for the same password.  When the first match
    verifies the password, its [last_login] becomes [now], every other
    attribute and object stays, and it is the customer returned. *)
Theorem authenticate_customer_runs (lower : string → string) (σ : world)
    (now : datetime.t) :
  closed σ →
  (∀ email1 password1 email2 password2 r c,
     first_email_match lower σ email1 (customers (system σ)) None →
     first_email_match lower σ email2 (customers (system σ)) (Some r) →
     customer_objs σ !! r = Some c →
     Customer.verify_password password2 c = Return false →
     authenticate_customer lower now email1 password1 σ = (Return None, σ)
     ∧ authenticate_customer lower now email2 password2 σ = (Return None, σ))
  ∧ (∀ email password r c e,
       first_email_match lower σ email (customers (system σ)) (Some r) →
       customer_objs σ !! r = Some c →
       Customer.verify_password password c = Raise e →
       authenticate_customer lower now email password σ = (Raise e, σ))
  ∧ (∀ email password r c h s,
       first_email_match lower σ email (customers (system σ)) (Some r) →
       customer_objs σ !! r = Some c →
       Customer.password_hash c = Some h → h ≠ "" →
       Customer.salt c = Some s → s ≠ "" →
       has_surrogate (password +:+ s) = true →
       authenticate_customer lower now email password σ
       = (Raise (UnicodeEncodeError "surrogates not allowed"), σ))
  ∧ (∀ email password r c,
       first_email_match lower σ email (customers (system σ)) (Some r) →
       customer_objs σ !! r = Some c →
       Customer.verify_password password c = Return true →
       authenticate_customer lower now email password σ
       = (Return (Some r),
          mk_world (system σ) (<[r := logged_in now c]> (customer_objs σ))
            (receipt_objs σ))
       ∧ Customer.last_login (logged_in now c) = Some now).
Proof.
  intros Hclosed. split; [|split; [|split]].
  - intros email1 password1 email2 password2 r c Hnone Hsome Hc Hverify. split.
    + by rewrite (authenticate_customer_cases lower σ now email1 password1 None).
    + rewrite (authenticate_customer_cases lower σ now email2 password2 (Some r))
        by done.
      by rewrite Hc, Hverify.
  - intros email password r c e Hsome Hc Hverify.
    rewrite (authenticate_customer_cases lower σ now email password (Some r))
      by done.
    by rewrite Hc, Hverify.
  - intros email password r c h s Hsome Hc Hh Hh' Hs Hs' Hsur.
    rewrite (authenticate_customer_cases lower σ now email password (Some r))
      by done.
    rewrite Hc, verify_password_cases, Hh, Hs.
    assert (str_truthy h && str_truthy s = true) as ->
      by (by destruct h, s).
    unfold Customer._hash_password, encode. by rewrite Hsur.
  - intros email password r c Hsome Hc Hverify. split; [|reflexivity].
    rewrite (authenticate_customer_cases lower σ now email password (Some r))
      by done.
    by rewrite Hc, Hverify.
Qed.

Lemma sample_email_unknown :
  first_email_match lower_ascii Sample.world_p1 "nobody@example.com" [0%nat] None.
Proof.
  intros r c Hr%list_elem_of_singleton Hc. subst r.
  vm_compute in Hc. injection Hc as <-. vm_compute. discriminate.
Qed.

Lemma sample_email_known (email : string) :
  lower_ascii email = "alice@example.com" →
  first_email_match lower_ascii Sample.world_p1 email [0%nat] (Some 0%nat).
Proof.
  intros Hemail. exists 0%nat, Sample.alice_p1.
  split; [reflexivity|]. split; [reflexivity|]. split.
  - rewrite Hemail. vm_compute. reflexivity.
  - intros j r' c' Hj. lia.
Qed.

Lemma authenticate_customer_runs_witness :
  (authenticate_customer lower_ascii Sample.noon "nobody@example.com" "p1"
     Sample.world_p1
   = (Return None, Sample.world_p1)
   ∧ authenticate_customer lower_ascii Sample.noon "ALICE@example.com" "wrong"
       Sample.world_p1
     = (Return None, Sample.world_p1))
  ∧ authenticate_customer lower_ascii Sample.noon "alice@EXAMPLE.com" "p1"
      Sample.world_p1
    = (Return (Some 0%nat),
       mk_world (system Sample.world_p1)
         (<[0%nat := logged_in Sample.noon Sample.alice_p1]>
            (customer_objs Sample.world_p1))
         (receipt_objs Sample.world_p1)).
Proof.
  destruct (authenticate_customer_runs lower_ascii Sample.world_p1 Sample.noon)
    as (Hfail & _ & _ & Hok).
  - by_evaluation.
  - split.
    + apply (Hfail "nobody@example.com" "p1" "ALICE@example.com" "wrong" 0%nat
               Sample.alice_p1).
      * exact sample_email_unknown.
      * apply sample_email_known. vm_compute. reflexivity.
      * reflexivity.
      * vm_compute. reflexivity.
    + apply (Hok "alice@EXAMPLE.com" "p1" 0%nat Sample.alice_p1).
      * apply sample_email_known. vm_compute. reflexivity.
      * reflexivity.
      * vm_compute. reflexivity.
Defined.

(** C7 as written fails for a password that cannot be encoded: with the email
    of a registered customer who has a password the call raises
    [UnicodeEncodeError], with an email that nobody has it returns [None], so
    the two failure runs can be told apart. *)
Lemma authenticate_customer_surrogate_password :
  first_email_match lower_ascii Sample.world_p1 "nobody@example.com"
    (customers (system Sample.world_p1)) None
  ∧ first_email_match lower_ascii Sample.world_p1 "alice@example.com"
      (customers (system Sample.world_p1)) (Some 0%nat)
  ∧ authenticate_customer lower_ascii Sample.noon "nobody@example.com"
      Sample.surrogate_password Sample.world_p1
    = (Return None, Sample.world_p1)
  ∧ authenticate_customer lower_ascii Sample.noon "alice@example.com"
      Sample.surrogate_password Sample.world_p1
    = (Raise (UnicodeEncodeError "surrogates not allowed"), Sample.world_p1).
Proof.
  split; [exact sample_email_unknown|].
  split; [by apply sample_email_known|].
  split; vm_compute; reflexivity.
Qed.

(** ** Passwords *)

Lemma string_length_app (s1 s2 : string) :
  String.length (s1 +:+ s2) = (String.length s1 + String.length s2)%nat.
Proof.
  induction s1 as [|a s1 IH]; [reflexivity|].
  change (S (String.length (s1 +:+ s2)) = S (String.length s1 + String.length s2)).
  by rewrite IH.
Qed.

Lemma str_truthy_length (s : string) :
  (0 < String.length s)%nat → str_truthy s = true.
Proof. destruct s; cbn; [lia|reflexivity]. Qed.

Lemma hex_pad_length (width : nat) (n : Z) :
  String.length (hashlib.hex_pad width n) = width.
Proof.
  revert n. induction width as [|w IH]; intros n; cbn [hashlib.hex_pad];
    [reflexivity|].
  rewrite string_length_app, IH. cbn. lia.
Qed.

(** A SHA-256 digest is written with 64 hexadecimal digits. *)
Lemma hexdigest_length (msg : list byte) :
  String.length (hashlib.sha256_hexdigest msg) = 64%nat.
Proof.
  unfold hashlib.sha256_hexdigest, hashlib.hexdigest.
  rewrite !string_length_app, !hex_pad_length. reflexivity.
Qed.

(** [token_hex(n)] has [2 * n] characters. *)
Lemma token_hex_length (entropy : list byte) :
  String.length (secrets.token_hex entropy) = (2 * length entropy)%nat.
Proof.
  unfold secrets.token_hex, hashlib.bytes_hex.
  induction entropy as [|b bs IH]; [reflexivity|].
  cbn [foldr length]. rewrite string_length_app, hex_pad_length, IH. lia.
Qed.

Lemma list_ascii_of_string_app (s1 s2 : string) :
  list_ascii_of_string (s1 +:+ s2)
  = list_ascii_of_string s1 ++ list_ascii_of_string s2.
Proof.
  induction s1 as [|a s1 IH]; [reflexivity|].
  change (a :: list_ascii_of_string (s1 +:+ s2)
          = a :: (list_ascii_of_string s1 ++ list_ascii_of_string s2)).
  by rewrite IH.
Qed.

Lemma hex_pad_digits (width : nat) (n : Z) : hex_digits (hashlib.hex_pad width n).
Proof.
  unfold hex_digits. revert n.
  induction width as [|w IH]; intros n; cbn [hashlib.hex_pad]; [constructor|].
  rewrite list_ascii_of_string_app. apply Forall_app. split; [apply IH|].
  apply Forall_cons. split; [|constructor]. unfold hashlib.hex_char.
  assert (0 <= n mod 16 < 16) as Hd by (apply Z.mod_pos_bound; lia).
  apply list_elem_of_In. apply nth_In. cbn. lia.
Qed.

Lemma hex_digits_app (s1 s2 : string) :
  hex_digits s1 → hex_digits s2 → hex_digits (s1 +:+ s2).
Proof.
  unfold hex_digits. intros H1 H2. rewrite list_ascii_of_string_app.
  by apply Forall_app.
Qed.

Lemma hexdigest_digits (msg : list byte) :
  hex_digits (hashlib.sha256_hexdigest msg).
Proof.
  unfold hashlib.sha256_hexdigest, hashlib.hexdigest.
  do 7 (apply hex_digits_app; [apply hex_pad_digits|]). apply hex_pad_digits.
Qed.

Lemma token_hex_digits (entropy : list byte) :
  hex_digits (secrets.token_hex entropy).
Proof.
  unfold secrets.token_hex, hashlib.bytes_hex.
  induction entropy as [|b bs IH]; [constructor|].
  cbn [foldr]. apply hex_digits_app; [apply hex_pad_digits|exact IH].
Qed.

(** A hash that [_hash_password] returns is a SHA-256 digest: 64 hexadecimal
    digits. *)
Lemma hash_password_digest (password salt h : string) :
  Customer._hash_password password salt = Return h →
  h = hashlib.sha256_hexdigest (list_byte_of_string (password +:+ salt))
  ∧ String.length h = 64%nat ∧ hex_digits h.
Proof.
  unfold Customer._hash_password, encode.
  destruct (has_surrogate _); [discriminate|]. cbn. intros [= <-].
  split; [reflexivity|]. split; [apply hexdigest_length|apply hexdigest_digits].
Qed.

(** Hexadecimal digits are ASCII characters. *)
Lemma hex_digits_ascii (s : string) :
  hex_digits s →
  Forall (λ a, (nat_of_ascii a < 128)%nat) (list_ascii_of_string s).
Proof.
  intros H. eapply Forall_impl; [exact H|]. intros a Ha.
  change (list_ascii_of_string "0123456789abcdef")
    with ["0"; "1"; "2"; "3"; "4"; "5"; "6"; "7"; "8"; "9";
          "a"; "b"; "c"; "d"; "e"; "f"]%char in Ha.
  repeat (apply elem_of_cons in Ha as [->|Ha]);
    [apply Nat.ltb_lt; vm_compute; reflexivity..|].
  by apply elem_of_nil in Ha.
Qed.

(** Whether hashing with a salt of [token_hex] raises depends on the
    password alone. *)
Lemma has_surrogate_token_hex (p : string) (entropy : list byte) :
  has_surrogate (p +:+ secrets.token_hex entropy) = has_surrogate p.
Proof. apply has_surrogate_app_ascii, hex_digits_ascii, token_hex_digits. Qed.

(** [set_password] with a password that can be encoded: the salt and the
    hash are assigned. *)
Lemma set_password_returns (c : Customer.t) (entropy : list byte) (p : string) :
  has_surrogate p = false →
  Customer.set_password entropy p c
  = (Return tt,
     Customer.mk (Customer.customer_id c) (Customer.email c) (Customer.birthdate c)
       (Customer.gender c) (Customer.address c) (Customer.favorite_food c)
       (Customer.purchase_history c)
       (Some (hashlib.sha256_hexdigest
                (list_byte_of_string (p +:+ secrets.token_hex entropy))))
       (Some (secrets.token_hex entropy)) (Customer.last_login c)).
Proof.
  intros Hp. unfold Customer.set_password.
  rewrite hash_password_returns; [reflexivity|].
  by rewrite has_surrogate_token_hex.
Qed.

(** [set_password] with a password that holds a surrogate: the salt is
    assigned, then hashing raises and the hash stays. *)
Lemma set_password_raises (c : Customer.t) (entropy : list byte) (p : string) :
  has_surrogate p = true →
  Customer.set_password entropy p c
  = (Raise (UnicodeEncodeError "surrogates not allowed"),
     Customer.mk (Customer.customer_id c) (Customer.email c) (Customer.birthdate c)
       (Customer.gender c) (Customer.address c) (Customer.favorite_food c)
       (Customer.purchase_history c) (Customer.password_hash c)
       (Some (secrets.token_hex entropy)) (Customer.last_login c)).
Proof.
  intros Hp. unfold Customer.set_password.
  by rewrite (hash_password_surrogate _ _ Hp).
Qed.

(** [verify_password(p)] after [set_password(p)]. *)
Lemma verify_password_set_password (c : Customer.t) (entropy : list byte)
    (p : string) :
  length entropy = 16%nat →
  has_surrogate p = false →
  Customer.verify_password p (snd (Customer.set_password entropy p c))
  = Return true.
Proof.
  intros Hentropy Hp. rewrite (set_password_returns c entropy p Hp).
  cbn [snd]. rewrite verify_password_cases.
  cbn [Customer.password_hash Customer.salt].
  rewrite (str_truthy_length (hashlib.sha256_hexdigest _))
    by (rewrite hexdigest_length; lia).
  rewrite (str_truthy_length (secrets.token_hex entropy))
    by (rewrite token_hex_length, Hentropy; lia).
  cbn [andb]. rewrite hash_password_returns
    by (by rewrite has_surrogate_token_hex).
  cbn. by rewrite String.eqb_refl.
Qed.

(** C8, as amended: for a password [p] that can be encoded, [set_password(p)]
    returns and [verify_password(p)] is then true, whatever the 16 bytes
    drawn for the salt; for a password that holds a surrogate,
    [set_password(p)] raises [UnicodeEncodeError] with the new salt stored
    and the hash as it was.  [verify_password(q)] is true only if a hash and
    a salt are stored and the stored hash is the hash of [q] with the stored
    salt; and it is false when the hash or the salt is [None]. *)
Theorem set_password_verify_password (c : Customer.t) (entropy : list byte)
    (p q : string) :
  length entropy = 16%nat →
  (has_surrogate p = false →
   fst (Customer.set_password entropy p c) = Return tt
   ∧ Customer.verify_password p (snd (Customer.set_password entropy p c))
     = Return true)
  ∧ (has_surrogate p = true →
     fst (Customer.set_password entropy p c)
     = Raise (UnicodeEncodeError "surrogates not allowed")
     ∧ Customer.salt (snd (Customer.set_password entropy p c))
       = Some (secrets.token_hex entropy)
     ∧ Customer.password_hash (snd (Customer.set_password entropy p c))
       = Customer.password_hash c)
  ∧ (Customer.verify_password q c = Return true →
     ∃ h s, Customer.password_hash c = Some h ∧ Customer.salt c = Some s
            ∧ Customer._hash_password q s = Return h)
  ∧ (Customer.password_hash c = None ∨ Customer.salt c = None →
     Customer.verify_password q c = Return false).
Proof.
  intros Hentropy. split; [|split; [|split]].
  - intros Hp. split; [by rewrite set_password_returns|].
    by apply verify_password_set_password.
  - intros Hp. by rewrite set_password_raises.
  - rewrite verify_password_cases.
    destruct (Customer.password_hash c) as [h|]; [|discriminate].
    destruct (Customer.salt c) as [s|]; [|discriminate].
    destruct (str_truthy h && str_truthy s); [|discriminate].
    destruct (Customer._hash_password q s) as [h'|e] eqn:Hh'; [|discriminate].
    cbn. intros [= Heq]. apply String.eqb_eq in Heq. subst h'. by exists h, s.
  - rewrite verify_password_cases. intros [-> | ->]; [reflexivity|].
    by destruct (Customer.password_hash c).
Qed.

Lemma set_password_verify_password_witness :
  fst (Customer.set_password Sample.entropy16 "p1" Sample.alice) = Return tt
  ∧ Customer.verify_password "p1"
      (snd (Customer.set_password Sample.entropy16 "p1" Sample.alice))
    = Return true.
Proof.
  apply (proj1 (set_password_verify_password Sample.alice Sample.entropy16 "p1"
                  "wrong" eq_refl)).
  reflexivity.
Defined.

(** C8 as written fails for a password that holds a surrogate:
    [set_password] raises [UnicodeEncodeError] when it hashes, after it has
    stored the new salt, and [verify_password] with the same password is not
    true afterwards. *)
Lemma set_password_surrogate_raises :
  Customer.set_password Sample.entropy16 Sample.surrogate_password Sample.alice
  = (Raise (UnicodeEncodeError "surrogates not allowed"),
     Customer.set_salt (Some "000102030405060708090a0b0c0d0eff") Sample.alice)
  ∧ Customer.verify_password Sample.surrogate_password
      (snd (Customer.set_password Sample.entropy16 Sample.surrogate_password
              Sample.alice))
    = Return false
  ∧ Customer.verify_password Sample.surrogate_password
      (snd (Customer.set_password Sample.entropy16 Sample.surrogate_password
              Sample.alice_p1))
    = Raise (UnicodeEncodeError "surrogates not allowed").
Proof. vm_compute. auto. Qed.

(** On the sample customer: the salt has 32 hexadecimal digits, another
    password is refused, another salt gives another hash, and a customer
    without password verifies nothing. *)
Example verify_password_samples :
  Customer.salt Sample.alice_p1 = Some "000102030405060708090a0b0c0d0eff"
  ∧ Customer.verify_password "wrong" Sample.alice_p1 = Return false
  ∧ Customer.password_hash
      (snd (Customer.set_password (x01 :: tail Sample.entropy16) "p1" Sample.alice))
    ≠ Customer.password_hash Sample.alice_p1
  ∧ Customer.verify_password "p1" Sample.alice = Return false.
Proof. vm_compute. repeat split; discriminate. Qed.

(** ** The receipt-list invariant *)




(** The loop of [update_customer]: it returns, touches no object and no store
    or receipt list, and the customer list is the old one or the old one
    with [customer] in the place of the first customer that has the same id. *)
Lemma update_from_run (σ : world) (customer : nat) (new : Customer.t)
    (i : nat) (l : list nat) :
  customer_objs σ !! customer = Some new →
  Forall (λ r, is_Some (customer_objs σ !! r)) l →
  ∃ b s',
    update_from customer i l σ
    = (Return b, mk_world s' (customer_objs σ) (receipt_objs σ))
    ∧ stores s' = stores (system σ)
    ∧ receipts s' = receipts (system σ)
    ∧ ((b = false ∧ s' = system σ
        ∧ Forall (λ r, ∀ c, customer_objs σ !! r = Some c →
                       Customer.customer_id c ≠ Customer.customer_id new) l)
       ∨ (b = true
          ∧ ∃ j r c, l !! j = Some r ∧ customer_objs σ !! r = Some c
                     ∧ Customer.customer_id c = Customer.customer_id new
                     ∧ (∀ j' r' c', (j' < j)%nat → l !! j' = Some r' →
                          customer_objs σ !! r' = Some c' →
                          Customer.customer_id c' ≠ Customer.customer_id new)
                     ∧ customers s' = <[(i + j)%nat := customer]> (customers (system σ)))).
Proof.
  intros Hnew Hl. revert i.
  induction Hl as [|r l [c Hc] _ IH]; intros i.
  - exists false, (system σ). cbn. split; [by destruct σ|].
    split; [done|]. split; [done|]. left. by repeat split.
  - cbn [update_from]. unfold py_bind at 1. unfold customer_at at 1. rewrite Hc.
    unfold py_bind at 1. unfold customer_at at 1. rewrite Hnew.
    destruct (String.eqb (Customer.customer_id c) (Customer.customer_id new)) eqn:Heq.
    + apply String.eqb_eq in Heq.
      exists true, (mk (<[i := customer]> (customers (system σ))) (stores (system σ))
                       (receipts (system σ))).
      split; [reflexivity|]. split; [done|]. split; [done|]. right.
      split; [done|]. exists 0%nat, r, c. rewrite Nat.add_0_r.
      repeat split; [done..|]. intros j' r' c' Hj'. lia.
    + apply String.eqb_neq in Heq.
      destruct (IH (S i)) as (b & s' & Hrun & Hst & Hre & Hcases).
      exists b, s'. split; [exact Hrun|]. split; [exact Hst|]. split; [exact Hre|].
      destruct Hcases
        as [(-> & -> & Hall)|(-> & j & r' & c' & Hj & Hc' & Hid & Hfirst & Hcs)].
      * left. repeat split. constructor; [|exact Hall].
        intros c0 Hc0. congruence.
      * right. split; [done|]. exists (S j), r', c'.
        replace (i + S j)%nat with (S i + j)%nat by lia.
        repeat split; [done..| |done].
        intros [|j'] r0 c0 Hlt Hr0 Hc0; cbn in Hr0.
        -- congruence.
        -- eapply Hfirst; [|done..]. lia.
Qed.




(** [authenticate_customer] changes nothing, or only [last_login] of one
    customer object. *)
Lemma authenticate_customer_world (lower : string → string) (σ : world)
    (now : datetime.t) (email password : string) :
  closed σ →
  ∃ out σ',
    authenticate_customer lower now email password σ = (out, σ')
    ∧ (σ' = σ
       ∨ ∃ r c, customer_objs σ !! r = Some c
                ∧ σ' = mk_world (system σ)
                         (<[r := logged_in now c]> (customer_objs σ))
                         (receipt_objs σ)).
Proof.
  intros Hclosed.
  destruct (get_customer_by_email_first lower σ email Hclosed)
    as (found & _ & Hfound).
  rewrite (authenticate_customer_cases lower σ now email password found Hclosed
             Hfound).
  destruct found as [r|]; [|eexists _, _; split; [reflexivity|by left]].
  destruct Hfound as (i & c & Hi & Hc & _). rewrite Hc.
  destruct (Customer.verify_password password c) as [[|]|e];
    eexists _, _; (split; [reflexivity|]); [right; by exists r, c|by left..].
Qed.


(** ** The stable sort by decreasing key *)

Section sort_reverse.
Context {A : Type} (key : A → nat).

Lemma insert_reverse_perm (x : A) (l : list A) :
  insert_reverse key x l ≡ₚ x :: l.
Proof.
  induction l as [|y l IH]; cbn [insert_reverse]; [done|].
  destruct (key x <? key y)%nat; [|done].
  by rewrite IH, Permutation_swap.
Qed.

Lemma sort_reverse_perm (l : list A) : sort_reverse key l ≡ₚ l.
Proof.
  induction l as [|x l IH]; cbn; [done|].
  unfold sort_reverse in IH. by rewrite insert_reverse_perm, IH.
Qed.

Lemma insert_reverse_sorted (x : A) (l : list A) :
  StronglySorted (λ a b, (key b <= key a)%nat) l →
  StronglySorted (λ a b, (key b <= key a)%nat) (insert_reverse key x l).
Proof.
  induction 1 as [|y l Hl IH Hy]; cbn [insert_reverse].
  - repeat constructor.
  - destruct (key x <? key y)%nat eqn:Hlt.
    + apply Nat.ltb_lt in Hlt. constructor; [exact IH|].
      rewrite insert_reverse_perm. constructor; [lia|exact Hy].
    + apply Nat.ltb_ge in Hlt. constructor; [by constructor|].
      constructor; [exact Hlt|].
      eapply Forall_impl; [exact Hy|]. cbn. intros z Hz. lia.
Qed.

Lemma sort_reverse_sorted (l : list A) :
  StronglySorted (λ a b, (key b <= key a)%nat) (sort_reverse key l).
Proof.
  induction l as [|x l IH]; cbn; [constructor|].
  by apply insert_reverse_sorted.
Qed.



Lemma sort_reverse_length (l : list A) : length (sort_reverse key l) = length l.
Proof. by rewrite sort_reverse_perm. Qed.

End sort_reverse.

Lemma sort_reverse_ext {A} (key key' : A → nat) (l : list A) :
  (∀ x, key x = key' x) → sort_reverse key l = sort_reverse key' l.
Proof.
  intros Hext. induction l as [|x l IH]; [done|]. cbn. unfold sort_reverse in IH.
  rewrite IH. generalize (foldr (insert_reverse key') [] l) as s.
  induction s as [|y s IHs]; cbn [insert_reverse]; [done|]. by rewrite !Hext, IHs.
Qed.

(** ** Recommendations *)

Lemma interest_set_concat (c : Customer.t) (stored : list Receipt.t) :
  list_to_set (Customer.favorite_food c)
  ∪ list_to_set (concat (Receipt.ingredients <$> stored))
  = interest_set c stored.
Proof.
  unfold interest_set. f_equal.
  induction stored as [|r stored IH]; [done|].
  cbn [fmap list_fmap concat union_list foldr].
  rewrite list_to_set_app_L. by rewrite IH.
Qed.

Lemma elem_of_interest_set (c : Customer.t) (stored : list Receipt.t) (x : string) :
  x ∈ interest_set c stored
  ↔ x ∈ Customer.favorite_food c ∨ ∃ r, r ∈ stored ∧ x ∈ Receipt.ingredients r.
Proof.
  unfold interest_set. rewrite elem_of_union, elem_of_list_to_set, elem_of_union_list.
  apply or_iff_compat_l. split.
  - intros (X & (r & -> & Hr)%list_elem_of_fmap & Hx).
    exists r. split; [done|]. by apply elem_of_list_to_set in Hx.
  - intros (r & Hr & Hx). exists (list_to_set (Receipt.ingredients r)).
    split; [|by apply elem_of_list_to_set].
    apply list_elem_of_fmap. by exists r.
Qed.

(** The test of the loop that collects the matching items. *)
Lemma matching_test (interest : gset string) (item : MenuItem.t) :
  existsb (λ ing, str_in ing (MenuItem.ingredients item)) (elements interest) = true
  ↔ item_matches interest item.
Proof.
  unfold item_matches. rewrite existsb_exists, Exists_exists. split.
  - intros (ing & Hing%list_elem_of_In%elem_of_elements & Hin%str_in_elem_of).
    by exists ing.
  - intros (ing & Hin & Hing). exists ing. split.
    + by apply list_elem_of_In, elem_of_elements.
    + by apply str_in_elem_of.
Qed.

(** The sort key of the code is the count of the specification. *)
Lemma overlap_overlap_count (interest : gset string) (item : MenuItem.t) :
  overlap interest item = overlap_count interest item.
Proof.
  unfold overlap, overlap_count, size, set_size. cbn.
  apply Permutation_length, NoDup_Permutation.
  - apply NoDup_filter, NoDup_elements.
  - apply NoDup_elements.
  - intros x. rewrite list_elem_of_filter, !elem_of_elements, elem_of_filter.
    by rewrite str_in_elem_of.
Qed.

Lemma matching_filter (interest : gset string) (pool : list MenuItem.t) :
  filter (λ item,
            existsb (λ ing, str_in ing (MenuItem.ingredients item))
              (elements interest) = true) pool
  = filter (item_matches interest) pool.
Proof. apply list_filter_iff. intros item. apply matching_test. Qed.

(** [get_recommendations] on a customer that exists: the three branches, in
    the terms of the specification. *)
Lemma get_recommendations_run (σ : world) (rnd : recommendation_draws)
    (customer : nat) (c : Customer.t) (stored : list Receipt.t) :
  customer_objs σ !! customer = Some c →
  stored_receipts σ c stored →
  get_recommendations rnd customer σ
  = match candidate_pool (system σ) with
    | [] => (Return [], σ)
    | _ :: _ =>
        match filter (item_matches (interest_set c stored))
                (candidate_pool (system σ)) with
        | _ :: _ =>
            (Return (take 3 (sort_reverse (overlap_count (interest_set c stored))
                               (filter (item_matches (interest_set c stored))
                                  (candidate_pool (system σ))))), σ)
        | [] =>
            (random.sample (candidate_pool (system σ))
               (Z.min (Z.of_nat (length (candidate_pool (system σ))))
                  (randint_1_3 rnd))
               (menu_position rnd), σ)
        end
    end.
Proof.
  intros Hc Hstored. unfold get_recommendations.
  unfold py_bind at 1. unfold get_self at 1.
  change (concat (Store.menu_items <$> stores (system σ)))
    with (candidate_pool (system σ)).
  destruct (candidate_pool (system σ)) as [|item pool] eqn:Hpool; [reflexivity|].
  unfold py_bind at 1. unfold customer_at at 1. rewrite Hc.
  unfold py_bind at 1.
  assert (match receipts (system σ) !! Customer.customer_id c with
          | Some l => py_map receipt_at l
          | None => py_ret []
          end σ = (Return stored, σ)) as ->.
  { unfold stored_receipts in Hstored.
    destruct (receipts (system σ) !! Customer.customer_id c).
    - by apply py_map_receipt_at.
    - by subst stored. }
  rewrite interest_set_concat, matching_filter.
  destruct (filter _ (item :: pool)) as [|m ms] eqn:Hm; [reflexivity|].
  unfold py_ret. do 3 f_equal.
  apply sort_reverse_ext, overlap_overlap_count.
Qed.



(** The ranked answer on a customer with a stored receipt, and the fallback
    sample, computed. *)
Example get_recommendations_samples :
  fst (get_recommendations Sample.draws_two 0 Sample.world1)
  = Return [Sample.toast; Sample.omelette]
  ∧ fst (get_recommendations Sample.draws_two 2 Sample.world1)
    = Return [Sample.omelette; Sample.toast]
  ∧ fst (py_bind (process_receipt Sample.draws_milk_rice 0 (Some "c1"))
           (λ _, get_recommendations Sample.draws_two 0) Sample.world1)
    = Return [Sample.omelette; Sample.toast].
Proof. vm_compute. auto. Qed.

(** ** Timestamps: [fromisoformat] reads what [isoformat] writes *)

Lemma string_app_assoc (s1 s2 s3 : string) :
  (s1 +:+ s2) +:+ s3 = s1 +:+ (s2 +:+ s3).
Proof.
  induction s1 as [|a s1 IH]; [reflexivity|].
  change (String a ((s1 +:+ s2) +:+ s3) = String a (s1 +:+ (s2 +:+ s3))).
  by rewrite IH.
Qed.

Lemma string_app_nil_r (s : string) : s +:+ "" = s.
Proof.
  induction s as [|a s IH]; [reflexivity|].
  change (String a (s +:+ "") = String a s). by rewrite IH.
Qed.

Lemma digit_value_digit_char (d : Z) :
  0 <= d <= 9 → digit_value (digit_char d) = Some d.
Proof.
  intros Hd.
  assert (d = 0 ∨ d = 1 ∨ d = 2 ∨ d = 3 ∨ d = 4 ∨ d = 5 ∨ d = 6 ∨ d = 7
          ∨ d = 8 ∨ d = 9) as Hcases by lia.
  repeat (destruct Hcases as [->|Hcases]; [reflexivity|]). by subst d.
Qed.

Lemma zero_pad_length (width : nat) (n : Z) :
  String.length (zero_pad width n) = width.
Proof.
  revert n. induction width as [|w IH]; intros n; cbn [zero_pad]; [reflexivity|].
  rewrite string_length_app, IH. cbn. lia.
Qed.

(** Reading [k] digits from a field of width [k] gives back the number. *)
Lemma take_digits_from_zero_pad (k j : nat) (n acc : Z) (rest : string) :
  0 <= n < 10 ^ Z.of_nat k →
  take_digits_from (k + j) acc (zero_pad k n +:+ rest)
  = take_digits_from j (acc * 10 ^ Z.of_nat k + n) rest.
Proof.
  revert j n acc rest. induction k as [|k IH]; intros j n acc rest Hn.
  - cbn in Hn. assert (n = 0) as -> by lia.
    cbn [zero_pad Nat.add]. change ("" +:+ rest) with rest. f_equal. lia.
  - cbn [zero_pad]. rewrite string_app_assoc.
    change (String (digit_char (n mod 10)) "" +:+ rest)
      with (String (digit_char (n mod 10)) rest).
    replace (S k + j)%nat with (k + S j)%nat by lia.
    rewrite Nat2Z.inj_succ, Z.pow_succ_r in Hn by lia.
    rewrite IH by (split; [apply Z.div_pos; lia|apply Z.div_lt_upper_bound; lia]).
    cbn [take_digits_from].
    rewrite digit_value_digit_char by (pose proof (Z.mod_pos_bound n 10); lia).
    f_equal. rewrite Nat2Z.inj_succ, Z.pow_succ_r by lia.
    pose proof (Z.div_mod n 10). lia.
Qed.

Lemma take_digits_zero_pad (k : nat) (n : Z) (rest : string) :
  0 <= n < 10 ^ Z.of_nat k →
  take_digits k (zero_pad k n +:+ rest) = Some (n, rest).
Proof.
  intros Hn. unfold take_digits.
  rewrite <- (Nat.add_0_r k) at 1.
  rewrite take_digits_from_zero_pad by done. cbn [take_digits_from].
  by rewrite Z.mul_0_l.
Qed.

Lemma days_in_month_bound (y m : Z) :
  1 <= m <= 12 → datetime._days_in_month y m <= 31.
Proof.
  intros Hm. unfold datetime._days_in_month.
  destruct ((m =? 2) && datetime._is_leap y); [lia|].
  assert (m = 1 ∨ m = 2 ∨ m = 3 ∨ m = 4 ∨ m = 5 ∨ m = 6 ∨ m = 7 ∨ m = 8
          ∨ m = 9 ∨ m = 10 ∨ m = 11 ∨ m = 12) as Hcases by lia.
  repeat (destruct Hcases as [->|Hcases]; [by vm_compute|]). subst m. by vm_compute.
Qed.

(** The field ranges of a valid datetime. *)
Lemma valid_ranges (d : datetime.t) :
  datetime.valid d →
  1 <= datetime.year d <= 9999 ∧ 1 <= datetime.month d <= 12
  ∧ 1 <= datetime.day d <= 31
  ∧ 0 <= datetime.hour d <= 23 ∧ 0 <= datetime.minute d <= 59
  ∧ 0 <= datetime.second d <= 59 ∧ 0 <= datetime.microsecond d <= 999999.
Proof.
  unfold datetime.valid, datetime.is_valid, datetime.MINYEAR, datetime.MAXYEAR.
  rewrite !andb_true_iff, !Z.leb_le. intros H.
  pose proof (days_in_month_bound (datetime.year d) (datetime.month d)). lia.
Qed.

Lemma string_app_char (a : ascii) (s : string) : String a "" +:+ s = String a s.
Proof. reflexivity. Qed.

Lemma parse_isoformat_date_fields (y m d : Z) (rest : string) :
  0 <= y < 10 ^ 4 → 0 <= m < 10 ^ 2 → 0 <= d < 10 ^ 2 →
  datetime._parse_isoformat_date
    (zero_pad 4 y +:+ "-" +:+ zero_pad 2 m +:+ "-" +:+ zero_pad 2 d +:+ rest)
  = Some (y, m, d, rest).
Proof.
  intros Hy Hm Hd. unfold datetime._parse_isoformat_date.
  rewrite (take_digits_zero_pad 4) by exact Hy. cbn [mbind option_bind].
  rewrite string_app_char. cbn [mbind option_bind expect_char Ascii.eqb Bool.eqb].
  rewrite (take_digits_zero_pad 2) by exact Hm. cbn [mbind option_bind].
  rewrite string_app_char. cbn [mbind option_bind expect_char Ascii.eqb Bool.eqb].
  rewrite (take_digits_zero_pad 2) by exact Hd. reflexivity.
Qed.

Lemma parse_fraction_field (us : Z) :
  0 <= us < 10 ^ 6 →
  datetime._parse_fraction (if us =? 0 then "" else "." +:+ zero_pad 6 us)
  = Some us.
Proof.
  intros Hus. destruct (us =? 0) eqn:Hz.
  - apply Z.eqb_eq in Hz. by subst us.
  - rewrite string_app_char. cbn [datetime._parse_fraction Ascii.eqb Bool.eqb].
    rewrite zero_pad_length.
    rewrite <- (string_app_nil_r (zero_pad 6 us)).
    rewrite (take_digits_zero_pad 6) by exact Hus. reflexivity.
Qed.

Lemma parse_hh_mm_ss_ff_fields (h mi s us : Z) :
  0 <= h < 10 ^ 2 → 0 <= mi < 10 ^ 2 → 0 <= s < 10 ^ 2 → 0 <= us < 10 ^ 6 →
  datetime._parse_hh_mm_ss_ff
    (zero_pad 2 h +:+ ":" +:+ zero_pad 2 mi +:+ ":" +:+ zero_pad 2 s
     +:+ (if us =? 0 then "" else "." +:+ zero_pad 6 us))
  = Some (h, mi, s, us).
Proof.
  intros Hh Hmi Hs Hus. unfold datetime._parse_hh_mm_ss_ff.
  rewrite (take_digits_zero_pad 2) by exact Hh. cbn [mbind option_bind].
  rewrite string_app_char. cbn [mbind option_bind expect_char Ascii.eqb Bool.eqb].
  rewrite (take_digits_zero_pad 2) by exact Hmi. cbn [mbind option_bind].
  rewrite string_app_char. cbn [mbind option_bind expect_char Ascii.eqb Bool.eqb].
  rewrite (take_digits_zero_pad 2) by exact Hs. cbn [mbind option_bind].
  rewrite parse_fraction_field by exact Hus. reflexivity.
Qed.

(** [fromisoformat] gives back every datetime from its [isoformat] text. *)
Lemma fromisoformat_isoformat (d : datetime.t) :
  datetime.valid d →
  datetime.fromisoformat (datetime.isoformat d) = Return d.
Proof.
  intros Hvalid. pose proof (valid_ranges d Hvalid) as Hr.
  destruct d as [y mo dd h mi s us]. cbn [datetime.year datetime.month
    datetime.day datetime.hour datetime.minute datetime.second
    datetime.microsecond] in Hr.
  unfold datetime.fromisoformat, datetime.isoformat.
  cbn [datetime.year datetime.month datetime.day datetime.hour datetime.minute
       datetime.second datetime.microsecond].
  rewrite parse_isoformat_date_fields by lia.
  rewrite string_app_char.
  rewrite parse_hh_mm_ss_ff_fields by lia.
  unfold datetime.make. unfold datetime.valid in Hvalid. by rewrite Hvalid.
Qed.

(** ** Base64: the decoder reads what the encoder writes *)

Lemma byte_of_byte_val (b : byte) : base64.byte_of (base64.byte_val b) = b.
Proof. destruct b; reflexivity. Qed.

Lemma byte_val_range (b : byte) : 0 <= base64.byte_val b < 256.
Proof.
  unfold base64.byte_val. pose proof (Byte.to_N_bounded b). lia.
Qed.

Lemma on_byte_pairs_all (f : Z → Z → bool) (b0 b1 : byte) :
  base64.on_byte_pairs f = true →
  f (base64.byte_val b0) (base64.byte_val b1) = true.
Proof.
  assert (∀ b, In (base64.byte_val b) base64.byte_values) as Hin.
  { intros b. pose proof (byte_val_range b). apply list_elem_of_In.
    apply list_elem_of_fmap. exists (Z.to_nat (base64.byte_val b)).
    split; [lia|]. apply elem_of_seq. lia. }
  unfold base64.on_byte_pairs. rewrite forallb_forall. intros Hall.
  specialize (Hall _ (Hin b0)). rewrite forallb_forall in Hall. apply Hall, Hin.
Qed.

Lemma first_byte_ok_all (b0 b1 : byte) :
  base64.first_byte_ok (base64.byte_val b0) (base64.byte_val b1) = true.
Proof. apply on_byte_pairs_all. vm_compute. reflexivity. Qed.

Lemma next_bytes_ok_all (b1 b2 : byte) :
  base64.next_bytes_ok (base64.byte_val b1) (base64.byte_val b2) = true.
Proof. apply on_byte_pairs_all. vm_compute. reflexivity. Qed.

Lemma last_group_ok_all (b0 b1 : byte) :
  base64.last_group_ok (base64.byte_val b0) (base64.byte_val b1) = true.
Proof. apply on_byte_pairs_all. vm_compute. reflexivity. Qed.

(** Turns a conjunction of boolean checks into its facts. *)
Ltac split_checks H :=
  repeat (rewrite andb_true_iff in H || rewrite Z.eqb_eq in H).

Lemma sextet_ok_facts (s : Z) :
  base64.sextet_ok s = true →
  base64.a2b (base64.b2a s) = Some s
  ∧ Ascii.eqb (base64.b2a s) base64.pad_char = false
  ∧ (nat_of_ascii (base64.b2a s) <? 128)%nat = true.
Proof.
  unfold base64.sextet_ok. rewrite !andb_true_iff, negb_true_iff.
  intros [[Ha Hp] Hascii]. repeat split; [|done..].
  destruct (base64.a2b (base64.b2a s)) as [v|]; [|done].
  apply Z.eqb_eq in Ha. by subst v.
Qed.

(** A step on the character of a sextet. *)
Lemma step_sextet (d : base64.decoder) (s : Z) :
  base64.sextet_ok s = true →
  base64.step d (base64.b2a s)
  = if base64.quad_pos d =? 0 then
      inl (base64.mk_decoder 1 s 0 (base64.bin_data d))
    else if base64.quad_pos d =? 1 then
      inl (base64.mk_decoder 2 (Z.land s 15) 0
             (base64.bin_data d
              ++ [base64.byte_of (Z.lor (Z.shiftl (base64.leftchar d) 2)
                                    (Z.shiftr s 4))]))
    else if base64.quad_pos d =? 2 then
      inl (base64.mk_decoder 3 (Z.land s 3) 0
             (base64.bin_data d
              ++ [base64.byte_of (Z.lor (Z.shiftl (base64.leftchar d) 4)
                                    (Z.shiftr s 2))]))
    else
      inl (base64.mk_decoder 0 0 0
             (base64.bin_data d
              ++ [base64.byte_of (Z.lor (Z.shiftl (base64.leftchar d) 6) s)])).
Proof.
  intros (Ha & Hp & _)%sextet_ok_facts. unfold base64.step. by rewrite Hp, Ha.
Qed.

(** The first two characters of a group give the first byte. *)
Lemma run_first_byte (acc : list byte) (b0 : byte) (s1 : Z) (rest : string) :
  base64.sextet_ok (Z.shiftr (base64.byte_val b0) 2) = true →
  base64.sextet_ok s1 = true →
  Z.lor (Z.shiftl (Z.shiftr (base64.byte_val b0) 2) 2) (Z.shiftr s1 4)
  = base64.byte_val b0 →
  base64.run (base64.mk_decoder 0 0 0 acc)
    (String (base64.b2a (Z.shiftr (base64.byte_val b0) 2))
       (String (base64.b2a s1) rest))
  = base64.run (base64.mk_decoder 2 (Z.land s1 15) 0 (acc ++ [b0])) rest.
Proof.
  intros H0 H1 Hb0. cbn [base64.run].
  rewrite (step_sextet _ _ H0). cbn [base64.quad_pos Z.eqb].
  rewrite (step_sextet _ _ H1).
  cbn [base64.quad_pos base64.leftchar base64.bin_data Z.eqb Pos.eqb].
  by rewrite Hb0, byte_of_byte_val.
Qed.

(** A group of three bytes. *)
Lemma run_group (acc : list byte) (b0 b1 b2 : byte) (rest : string) :
  base64.run (base64.mk_decoder 0 0 0 acc)
    (base64.b64encode [b0; b1; b2] +:+ rest)
  = base64.run (base64.mk_decoder 0 0 0 (acc ++ [b0; b1; b2])) rest.
Proof.
  pose proof (first_byte_ok_all b0 b1) as Hf.
  pose proof (next_bytes_ok_all b1 b2) as Hn.
  unfold base64.first_byte_ok in Hf. unfold base64.next_bytes_ok in Hn.
  cbv zeta in Hf, Hn. split_checks Hf. split_checks Hn.
  destruct Hf as (((H0 & H1) & Hl1) & Hb0).
  destruct Hn as ((((H2 & H3) & Hl2) & Hb1) & Hb2).
  cbn [base64.b64encode].
  change (String ?a (String ?b (String ?c (String ?d ""))) +:+ rest)
    with (String a (String b (String c (String d rest)))).
  rewrite (run_first_byte acc b0 _ _ H0 H1 Hb0). rewrite Hl1.
  cbn [base64.run].
  rewrite (step_sextet _ _ H2).
  cbn [base64.quad_pos base64.leftchar base64.bin_data Z.eqb Pos.eqb].
  rewrite Hb1, byte_of_byte_val, Hl2.
  rewrite (step_sextet _ _ H3).
  cbn [base64.quad_pos base64.leftchar base64.bin_data Z.eqb Pos.eqb].
  rewrite Hb2, byte_of_byte_val. by rewrite <- !app_assoc.
Qed.

(** The last group, with one byte and with two. *)
Lemma finish_last_one (acc : list byte) (b0 : byte) :
  base64.finish (base64.run (base64.mk_decoder 0 0 0 acc) (base64.b64encode [b0]))
  = Return (acc ++ [b0]).
Proof.
  pose proof (first_byte_ok_all b0 b0) as Hf.
  pose proof (last_group_ok_all b0 b0) as Hl.
  unfold base64.first_byte_ok in Hf. unfold base64.last_group_ok in Hl.
  cbv zeta in Hf, Hl. split_checks Hf. split_checks Hl.
  destruct Hf as (((H0 & _) & _) & _). destruct Hl as (((H1 & _) & Hb0) & _).
  cbn [base64.b64encode].
  rewrite (run_first_byte acc b0 _ _ H0 H1 Hb0). reflexivity.
Qed.

Lemma finish_last_two (acc : list byte) (b0 b1 : byte) :
  base64.finish
    (base64.run (base64.mk_decoder 0 0 0 acc) (base64.b64encode [b0; b1]))
  = Return (acc ++ [b0; b1]).
Proof.
  pose proof (first_byte_ok_all b0 b1) as Hf.
  pose proof (last_group_ok_all b0 b1) as Hl.
  unfold base64.first_byte_ok in Hf. unfold base64.last_group_ok in Hl.
  cbv zeta in Hf, Hl. split_checks Hf. split_checks Hl.
  destruct Hf as (((H0 & H1) & Hl1) & Hb0). destruct Hl as (((_ & H2) & _) & Hb1).
  cbn [base64.b64encode].
  rewrite (run_first_byte acc b0 _ _ H0 H1 Hb0). rewrite Hl1.
  cbn [base64.run].
  rewrite (step_sextet _ _ H2).
  cbn [base64.quad_pos base64.leftchar base64.bin_data Z.eqb Pos.eqb].
  rewrite Hb1, byte_of_byte_val. cbn. by rewrite <- app_assoc.
Qed.

Lemma list_ind3 {A} (P : list A → Prop) :
  P [] → (∀ a, P [a]) → (∀ a b, P [a; b]) →
  (∀ a b c l, P l → P (a :: b :: c :: l)) →
  ∀ l, P l.
Proof.
  intros H0 H1 H2 H3 l.
  assert (∀ n l, (length l <= n)%nat → P l) as Hall; [|by apply (Hall (length l))].
  clear l. induction n as [|n IH]; intros l Hl.
  - destruct l; [exact H0|cbn in Hl; lia].
  - destruct l as [|a [|b [|c l]]]; [done..|].
    apply H3, IH. cbn in Hl. lia.
Qed.

Lemma b64encode_group (b0 b1 b2 : byte) (rest : list byte) :
  base64.b64encode (b0 :: b1 :: b2 :: rest)
  = base64.b64encode [b0; b1; b2] +:+ base64.b64encode rest.
Proof. reflexivity. Qed.

Lemma finish_run_b64encode (bs acc : list byte) :
  base64.finish (base64.run (base64.mk_decoder 0 0 0 acc) (base64.b64encode bs))
  = Return (acc ++ bs).
Proof.
  revert acc. induction bs as [|a|a b|a b c l IH] using list_ind3; intros acc.
  - cbn. by rewrite app_nil_r.
  - apply finish_last_one.
  - apply finish_last_two.
  - rewrite b64encode_group, run_group, IH. by rewrite <- app_assoc.
Qed.

Lemma is_ascii_b64encode (bs : list byte) :
  base64.is_ascii (base64.b64encode bs) = true.
Proof.
  unfold base64.is_ascii.
  induction bs as [|a|a b|a b c l IH] using list_ind3.
  - reflexivity.
  - pose proof (first_byte_ok_all a a) as Hf.
    pose proof (last_group_ok_all a a) as Hl.
    unfold base64.first_byte_ok in Hf. unfold base64.last_group_ok in Hl.
    cbv zeta in Hf, Hl. split_checks Hf. split_checks Hl.
    destruct Hf as (((H0 & _) & _) & _). destruct Hl as (((H1 & _) & _) & _).
    apply sextet_ok_facts in H0 as (_ & _ & H0). apply sextet_ok_facts in H1 as (_ & _ & H1).
    cbn [base64.b64encode list_ascii_of_string forallb]. by rewrite H0, H1.
  - pose proof (first_byte_ok_all a b) as Hf.
    pose proof (last_group_ok_all a b) as Hl.
    unfold base64.first_byte_ok in Hf. unfold base64.last_group_ok in Hl.
    cbv zeta in Hf, Hl. split_checks Hf. split_checks Hl.
    destruct Hf as (((H0 & H1) & _) & _). destruct Hl as (((_ & H2) & _) & _).
    apply sextet_ok_facts in H0 as (_ & _ & H0). apply sextet_ok_facts in H1 as (_ & _ & H1).
    apply sextet_ok_facts in H2 as (_ & _ & H2).
    cbn [base64.b64encode list_ascii_of_string forallb]. by rewrite H0, H1, H2.
  - pose proof (first_byte_ok_all a b) as Hf.
    pose proof (next_bytes_ok_all b c) as Hn.
    unfold base64.first_byte_ok in Hf. unfold base64.next_bytes_ok in Hn.
    cbv zeta in Hf, Hn. split_checks Hf. split_checks Hn.
    destruct Hf as (((H0 & H1) & _) & _). destruct Hn as ((((H2 & H3) & _) & _) & _).
    apply sextet_ok_facts in H0 as (_ & _ & H0). apply sextet_ok_facts in H1 as (_ & _ & H1).
    apply sextet_ok_facts in H2 as (_ & _ & H2). apply sextet_ok_facts in H3 as (_ & _ & H3).
    cbn [base64.b64encode list_ascii_of_string forallb].
    by rewrite H0, H1, H2, H3, IH.
Qed.

(** [b64decode] gives back every byte string from its encoding. *)
Lemma b64decode_b64encode (bs : list byte) :
  base64.b64decode (base64.b64encode bs) = Return bs.
Proof.
  unfold base64.b64decode, base64.a2b_base64.
  by rewrite is_ascii_b64encode, finish_run_b64encode.
Qed.

(** The encoding of a byte string that is not empty is not empty. *)
Lemma b64encode_truthy (b : byte) (bs : list byte) :
  str_truthy (base64.b64encode (b :: bs)) = true.
Proof. by destruct bs as [|b1 [|b2 bs]]. Qed.

(** ** Round trips of the entity classes *)

(** Evaluates the dictionary accesses of a [from_dict] on a dictionary that is
    written out. *)
Ltac eval_dict :=
  cbn [getitem get dict_lookup find fst snd String.eqb Ascii.eqb Bool.eqb
       mbind outcome_mbind outcome_bind as_str as_int as_float as_list
       py_truthy].

Lemma as_str_list_strings (l : list string) :
  as_str_list (PList (PStr <$> l)) = Return l.
Proof.
  unfold as_str_list. cbn [as_list mbind outcome_mbind outcome_bind].
  induction l as [|x l IH]; [reflexivity|].
  cbn [fmap list_fmap outcome_map as_str mbind outcome_mbind outcome_bind] in *.
  by rewrite IH.
Qed.

Lemma isoformat_truthy (d : datetime.t) :
  str_truthy (datetime.isoformat d) = true.
Proof.
  apply str_truthy_length. unfold datetime.isoformat.
  rewrite !string_length_app, !zero_pad_length. cbn. lia.
Qed.

Lemma MenuItem_from_dict_to_dict (item : MenuItem.t) :
  MenuItem.from_dict (MenuItem.to_dict item) = Return item.
Proof.
  destruct item as [i n ing p].
  unfold MenuItem.from_dict, MenuItem.to_dict.
  cbn [MenuItem.item_id MenuItem.name MenuItem.ingredients MenuItem.price].
  eval_dict. rewrite as_str_list_strings. reflexivity.
Qed.

Lemma outcome_map_from_dict {A} (to_dict : A → pyval) (from_dict : pyval → outcome A)
    (l : list A) :
  Forall (λ x, from_dict (to_dict x) = Return x) l →
  outcome_map from_dict (to_dict <$> l) = Return l.
Proof.
  induction 1 as [|x l Hx _ IH]; [reflexivity|].
  cbn [fmap list_fmap outcome_map mbind outcome_mbind outcome_bind] in *.
  by rewrite Hx, IH.
Qed.

Lemma Store_from_dict_to_dict (store : Store.t) :
  Store.from_dict (Store.to_dict store) = Return store.
Proof.
  destruct store as [i n [lat lon] items].
  unfold Store.from_dict, Store.to_dict.
  cbn [Store.store_id Store.name Store.location Store.menu_items].
  eval_dict.
  rewrite outcome_map_from_dict
    by (apply Forall_forall; intros; apply MenuItem_from_dict_to_dict).
  reflexivity.
Qed.

(** A customer comes back from its dictionary when its timestamps are
    datetimes and its purchase history is empty. *)
Lemma Customer_from_dict_to_dict (c : Customer.t) :
  datetime.valid (Customer.birthdate c) →
  (∀ d, Customer.last_login c = Some d → datetime.valid d) →
  Customer.purchase_history c = [] →
  Customer.from_dict (Customer.to_dict c) = Return c.
Proof.
  destruct c as [cid email birth gender addr ff ph hash salt login].
  cbn [Customer.birthdate Customer.last_login Customer.purchase_history].
  intros Hbirth Hlogin ->.
  unfold Customer.from_dict, Customer.to_dict.
  cbn [Customer.customer_id Customer.email Customer.birthdate Customer.gender
       Customer.address Customer.favorite_food Customer.password_hash
       Customer.salt Customer.last_login].
  eval_dict. rewrite (fromisoformat_isoformat birth Hbirth). eval_dict.
  rewrite as_str_list_strings. eval_dict.
  assert (as_opt_str (Customer.opt_str_val hash) = Return hash) as ->
    by (by destruct hash).
  eval_dict.
  assert (as_opt_str (Customer.opt_str_val salt) = Return salt) as ->
    by (by destruct salt).
  eval_dict.
  destruct login as [d|].
  - eval_dict. rewrite isoformat_truthy. eval_dict.
    rewrite (fromisoformat_isoformat d) by (by apply Hlogin). reflexivity.
  - reflexivity.
Qed.

(** A receipt comes back from its dictionary when its timestamps are
    datetimes and its image is [None] or at least one byte. *)
Lemma Receipt_from_dict_to_dict (r : Receipt.t) :
  datetime.valid (Receipt.upload_date r) →
  datetime.valid (Receipt.shelf_life r) →
  Receipt.image_data r ≠ Some [] →
  Receipt.from_dict (Receipt.to_dict r) = Return r.
Proof.
  destruct r as [rid upload img text ing q shelf].
  cbn [Receipt.upload_date Receipt.shelf_life Receipt.image_data].
  intros Hupload Hshelf Himg.
  unfold Receipt.from_dict, Receipt.to_dict.
  cbn [Receipt.receipt_id Receipt.upload_date Receipt.image_data Receipt.ocr_text
       Receipt.ingredients Receipt.quantity Receipt.shelf_life].
  destruct img as [[|b bs]|]; [done| |].
  - cbn [Receipt.image_truthy default]. eval_dict. unfold id.
    rewrite b64encode_truthy. eval_dict. rewrite b64decode_b64encode. eval_dict.
    rewrite (fromisoformat_isoformat upload Hupload). eval_dict.
    rewrite as_str_list_strings. eval_dict.
    rewrite (fromisoformat_isoformat shelf Hshelf). reflexivity.
  - cbn [Receipt.image_truthy default]. eval_dict.
    rewrite (fromisoformat_isoformat upload Hupload). eval_dict.
    rewrite as_str_list_strings. eval_dict.
    rewrite (fromisoformat_isoformat shelf Hshelf). reflexivity.
Qed.

(** ** Loading a snapshot *)

Lemma new_customer_run (σ : world) (c : Customer.t) :
  ∃ r, new_customer c σ
       = (Return r, mk_world (system σ) (<[r := c]> (customer_objs σ)) (receipt_objs σ))
       ∧ customer_objs σ !! r = None.
Proof.
  exists (fresh (dom (customer_objs σ))). split; [reflexivity|].
  apply not_elem_of_dom, is_fresh.
Qed.

Lemma new_receipt_run (σ : world) (v : Receipt.t) :
  ∃ r, new_receipt v σ
       = (Return r, mk_world (system σ) (customer_objs σ) (<[r := v]> (receipt_objs σ)))
       ∧ receipt_objs σ !! r = None.
Proof.
  exists (fresh (dom (receipt_objs σ))). split; [reflexivity|].
  apply not_elem_of_dom, is_fresh.
Qed.

(** Loading the dictionaries of customers creates one new object per
    customer and touches nothing else. *)
Lemma load_customers_run (σ : world) (cs : list Customer.t) :
  Forall (λ c, Customer.from_dict (Customer.to_dict c) = Return c) cs →
  ∃ refs objs,
    py_map load_customer (Customer.to_dict <$> cs) σ
    = (Return refs, mk_world (system σ) objs (receipt_objs σ))
    ∧ customer_objs σ ⊆ objs
    ∧ Forall2 (λ r c, objs !! r = Some c) refs cs.
Proof.
  intros Hcs. revert σ. induction Hcs as [|c cs Hc _ IH]; intros σ.
  - exists [], (customer_objs σ). split; [by destruct σ|]. split; [done|constructor].
  - cbn [fmap list_fmap py_map].
    unfold py_bind at 1. unfold load_customer at 1. unfold py_bind at 1.
    unfold lift at 1. rewrite Hc.
    destruct (new_customer_run σ c) as (r & -> & Hfresh).
    destruct (IH (mk_world (system σ) (<[r := c]> (customer_objs σ)) (receipt_objs σ)))
      as (refs & objs & Hrun & Hsub & Hrefs).
    cbn [system customer_objs receipt_objs] in Hrun, Hsub.
    unfold py_bind at 1. 
    change (list_fmap _ _ Customer.to_dict cs) with (Customer.to_dict <$> cs).
    rewrite Hrun.
    exists (r :: refs), objs. split; [reflexivity|]. split.
    + etrans; [|exact Hsub]. by apply insert_subseteq.
    + constructor; [|exact Hrefs].
      eapply lookup_weaken; [|exact Hsub]. apply lookup_insert_eq.
Qed.

Lemma load_receipt_list_run (σ : world) (rs : list Receipt.t) :
  Forall (λ v, Receipt.from_dict (Receipt.to_dict v) = Return v) rs →
  ∃ refs objs,
    py_map load_receipt (Receipt.to_dict <$> rs) σ
    = (Return refs, mk_world (system σ) (customer_objs σ) objs)
    ∧ receipt_objs σ ⊆ objs
    ∧ Forall2 (λ r v, objs !! r = Some v) refs rs.
Proof.
  intros Hrs. revert σ. induction Hrs as [|v rs Hv _ IH]; intros σ.
  - exists [], (receipt_objs σ). split; [by destruct σ|]. split; [done|constructor].
  - cbn [fmap list_fmap py_map].
    unfold py_bind at 1. unfold load_receipt at 1. unfold py_bind at 1.
    unfold lift at 1. rewrite Hv.
    destruct (new_receipt_run σ v) as (r & -> & Hfresh).
    destruct (IH (mk_world (system σ) (customer_objs σ) (<[r := v]> (receipt_objs σ))))
      as (refs & objs & Hrun & Hsub & Hrefs).
    cbn [system customer_objs receipt_objs] in Hrun, Hsub.
    unfold py_bind at 1.
    change (list_fmap _ _ Receipt.to_dict rs) with (Receipt.to_dict <$> rs).
    rewrite Hrun.
    exists (r :: refs), objs. split; [reflexivity|]. split.
    + etrans; [|exact Hsub]. by apply insert_subseteq.
    + constructor; [|exact Hrefs].
      eapply lookup_weaken; [|exact Hsub]. apply lookup_insert_eq.
Qed.

(** The loop over the receipt lists of a snapshot: every list becomes a list
    of new objects under its key. *)
Lemma load_receipts_run (σ : world) (acc : gmap string (list nat))
    (ents : list (string * list Receipt.t)) :
  Forall (λ e, Forall (λ v, Receipt.from_dict (Receipt.to_dict v) = Return v) e.2)
    ents →
  NoDup (fst <$> ents) →
  ∃ acc' objs,
    load_receipts acc (receipts_entry <$> ents) σ
    = (Return acc', mk_world (system σ) (customer_objs σ) objs)
    ∧ receipt_objs σ ⊆ objs
    ∧ (∀ cid, cid ∉ fst <$> ents → acc' !! cid = acc !! cid)
    ∧ Forall (λ e, ∃ refs, acc' !! e.1 = Some refs
                           ∧ Forall2 (λ r v, objs !! r = Some v) refs e.2) ents.
Proof.
  intros Hents. revert σ acc.
  induction Hents as [|[cid rs] ents Hrs _ IH]; intros σ acc Hnodup.
  - exists acc, (receipt_objs σ). split; [by destruct σ|].
    split; [done|]. split; [done|constructor].
  - cbn [fmap list_fmap] in Hnodup. apply NoDup_cons in Hnodup as [Hcid Hnodup].
    cbn [fmap list_fmap receipts_entry load_receipts fst snd].
    unfold py_bind at 1. unfold lift at 1. cbn [as_list].
    unfold py_bind at 1.
    destruct (load_receipt_list_run σ rs Hrs) as (refs & objs1 & -> & Hsub1 & Hrefs).
    destruct (IH (mk_world (system σ) (customer_objs σ) objs1) (<[cid := refs]> acc)
                Hnodup) as (acc' & objs & Hrun & Hsub & Hother & Hall).
    cbn [system customer_objs receipt_objs] in Hrun, Hsub.
    change (list_fmap _ _ receipts_entry ents) with (receipts_entry <$> ents).
    rewrite Hrun. exists acc', objs. split; [reflexivity|].
    split; [by etrans|]. split.
    + intros cid' Hcid'. apply not_elem_of_cons in Hcid' as [Hne Hcid'].
      rewrite (Hother cid' Hcid'). by apply lookup_insert_ne.
    + constructor; [|exact Hall]. exists refs. cbn [fst snd]. split.
      * rewrite (Hother cid Hcid). apply lookup_insert_eq.
      * eapply Forall2_impl; [exact Hrefs|]. cbn. intros r v Hr.
        by eapply lookup_weaken.
Qed.

Lemma py_map_customer_to_dict (σ : world) (l : list nat) (cs : list Customer.t) :
  Forall2 (λ r c, customer_objs σ !! r = Some c) l cs →
  py_map (λ r, py_bind (customer_at r) (λ c, py_ret (Customer.to_dict c))) l σ
  = (Return (Customer.to_dict <$> cs), σ).
Proof.
  induction 1 as [|r c l cs Hr _ IH]; [reflexivity|].
  cbn [py_map]. unfold py_bind at 1. unfold py_bind at 1.
  unfold customer_at at 1. rewrite Hr. unfold py_ret at 1.
  unfold py_bind at 1. rewrite IH. reflexivity.
Qed.

Lemma py_map_receipt_to_dict (σ : world) (l : list nat) (rs : list Receipt.t) :
  Forall2 (λ r v, receipt_objs σ !! r = Some v) l rs →
  py_map (λ r, py_bind (receipt_at r) (λ v, py_ret (Receipt.to_dict v))) l σ
  = (Return (Receipt.to_dict <$> rs), σ).
Proof.
  induction 1 as [|r c l cs Hr _ IH]; [reflexivity|].
  cbn [py_map]. unfold py_bind at 1. unfold py_bind at 1.
  unfold receipt_at at 1. rewrite Hr. unfold py_ret at 1.
  unfold py_bind at 1. rewrite IH. reflexivity.
Qed.

Lemma py_map_receipts_to_dict (σ : world) (kls : list (string * list nat))
    (ents : list (string * list Receipt.t)) :
  Forall2 (λ kl e, e.1 = kl.1
                   ∧ Forall2 (λ r v, receipt_objs σ !! r = Some v) kl.2 e.2)
    kls ents →
  py_map receipts_to_dict kls σ = (Return (receipts_entry <$> ents), σ).
Proof.
  induction 1 as [|[cid l] [cid' rs] kls ents [Hcid Hl] _ IH]; [reflexivity|].
  cbn [fst snd] in Hcid, Hl. subst cid'.
  cbn [py_map]. unfold py_bind at 1. unfold receipts_to_dict at 1.
  unfold py_bind at 1. cbn [fst snd].
  rewrite (py_map_receipt_to_dict σ l rs Hl). unfold py_ret at 1.
  unfold py_bind at 1. rewrite IH. reflexivity.
Qed.

(** The snapshot of a closed world, from the objects behind its references. *)
Lemma to_dict_run (σ : world) (cs : list Customer.t)
    (ents : list (string * list Receipt.t)) :
  Forall2 (λ r c, customer_objs σ !! r = Some c) (customers (system σ)) cs →
  Forall2 (λ kl e, e.1 = kl.1
                   ∧ Forall2 (λ r v, receipt_objs σ !! r = Some v) kl.2 e.2)
    (map_to_list (receipts (system σ))) ents →
  to_dict σ
  = (Return (PDict [
       ("customers", PList (Customer.to_dict <$> cs));
       ("stores", PList (Store.to_dict <$> stores (system σ)));
       ("receipts", PDict (receipts_entry <$> ents))]), σ).
Proof.
  intros Hcs Hents. unfold to_dict.
  unfold py_bind at 1. unfold get_self at 1.
  unfold py_bind at 1. rewrite (py_map_customer_to_dict σ _ cs Hcs).
  unfold py_bind at 1. rewrite (py_map_receipts_to_dict σ _ ents Hents).
  reflexivity.
Qed.

Lemma closed_receipts (σ : world) :
  closed σ →
  ∃ ents,
    Forall2 (λ kl e, e.1 = kl.1
                     ∧ Forall2 (λ r v, receipt_objs σ !! r = Some v) kl.2 e.2)
      (map_to_list (receipts (system σ))) ents.
Proof.
  intros [_ Hclosed].
  assert (Forall (λ kl, Forall (λ r, is_Some (receipt_objs σ !! r)) kl.2)
            (map_to_list (receipts (system σ)))) as Hall.
  { apply Forall_forall. intros [cid l] Hin%elem_of_map_to_list.
    by apply (Hclosed cid l). }
  induction Hall as [|[cid l] kls Hl _ [ents IH]].
  - exists []. constructor.
  - destruct (Forall_is_Some_Forall2 _ _ Hl) as [rs Hrs].
    exists ((cid, rs) :: ents). by constructor.
Qed.

(** Every customer and receipt of a serializable world comes back from its
    dictionary. *)
Lemma serializable_customers (σ : world) (cs : list Customer.t) :
  serializable σ →
  Forall2 (λ r c, customer_objs σ !! r = Some c) (customers (system σ)) cs →
  Forall (λ c, Customer.from_dict (Customer.to_dict c) = Return c) cs.
Proof.
  intros [Hser _] Hcs. apply Forall_lookup. intros i c Hi.
  destruct (Forall2_lookup_r _ _ _ _ _ Hcs Hi) as (r & Hr & Hc).
  destruct (Hser r c) as (Hb & Hl & Hp); [by eapply list_elem_of_lookup_2|done|].
  by apply Customer_from_dict_to_dict.
Qed.

Lemma serializable_receipts (σ : world) (ents : list (string * list Receipt.t)) :
  serializable σ →
  Forall2 (λ kl e, e.1 = kl.1
                   ∧ Forall2 (λ r v, receipt_objs σ !! r = Some v) kl.2 e.2)
    (map_to_list (receipts (system σ))) ents →
  Forall (λ e, Forall (λ v, Receipt.from_dict (Receipt.to_dict v) = Return v) e.2)
    ents.
Proof.
  intros [_ Hser] Hents. apply Forall_lookup. intros i [cid rs] Hi.
  destruct (Forall2_lookup_r _ _ _ _ _ Hents Hi) as ([cid' l] & Hkl & Hcid & Hl).
  cbn [fst snd] in *. subst cid'.
  apply list_elem_of_lookup_2, elem_of_map_to_list in Hkl.
  apply Forall_lookup. intros j v Hj.
  destruct (Forall2_lookup_r _ _ _ _ _ Hl Hj) as (r & Hr & Hv).
  destruct (Hser cid l r v) as (Hu & Hs & Himg);
    [done|by eapply list_elem_of_lookup_2|done|].
  by apply Receipt_from_dict_to_dict.
Qed.

(** Saving a closed, serializable world and loading the snapshot: both calls
    return, the loaded system has the stores of the saved one, and its
    customer list and receipts mapping lead to new objects with the fields
    of the old ones.  The objects and the system of the world are kept. *)
Lemma from_dict_to_dict (σ : world) :
  closed σ →
  serializable σ →
  ∃ data s' cobjs robjs,
    to_dict σ = (Return data, σ)
    ∧ from_dict data σ = (Return s', mk_world (system σ) cobjs robjs)
    ∧ customer_objs σ ⊆ cobjs
    ∧ receipt_objs σ ⊆ robjs
    ∧ contents (mk_world (system σ) cobjs robjs) s' = contents σ (system σ).
Proof.
  intros Hclosed Hser.
  destruct (closed_customers σ Hclosed) as [cs Hcs].
  destruct (closed_receipts σ Hclosed) as [ents Hents].
  pose proof (serializable_customers σ cs Hser Hcs) as Hcs_ok.
  pose proof (serializable_receipts σ ents Hser Hents) as Hents_ok.
  assert (fst <$> ents = (map_to_list (receipts (system σ))).*1) as Hkeys.
  { clear -Hents. induction Hents as [|kl e kls ents [He _] _ IH]; [done|].
    cbn [fmap list_fmap] in *. by rewrite He, IH. }
  destruct (load_customers_run σ cs Hcs_ok) as (refs & cobjs & Hload_c & Hsub_c & Hrefs).
  destruct (load_receipts_run (mk_world (system σ) cobjs (receipt_objs σ)) ∅ ents
              Hents_ok) as (acc & robjs & Hload_r & Hsub_r & Hother & Hall).
  { rewrite Hkeys. apply NoDup_fst_map_to_list. }
  cbn [system customer_objs receipt_objs] in Hload_r, Hsub_r.
  eexists _, (mk refs (stores (system σ)) acc), cobjs, robjs.
  split; [exact (to_dict_run σ cs ents Hcs Hents)|].
  split; [|split; [exact Hsub_c|split; [exact Hsub_r|]]].
  - unfold from_dict.
    unfold py_bind at 1. unfold lift at 1. eval_dict.
    unfold py_bind at 1. unfold lift at 1.
    rewrite (outcome_map_from_dict Store.to_dict Store.from_dict)
      by (apply Forall_forall; intros; apply Store_from_dict_to_dict).
    unfold py_bind at 1. unfold lift at 1. eval_dict.
    unfold py_bind at 1. rewrite Hload_c.
    unfold py_bind at 1. unfold lift at 1. eval_dict. cbn [as_items].
    unfold py_bind at 1. rewrite Hload_r. reflexivity.
  - unfold contents. cbn [customers stores receipts customer_objs receipt_objs].
    f_equal; [f_equal|].
    + rewrite (mapM_Some_2 _ _ _ Hrefs). symmetry. by apply mapM_Some_2.
    + apply map_eq. intros cid. rewrite !lookup_fmap.
      destruct (receipts (system σ) !! cid) as [l|] eqn:Hl.
      * apply elem_of_map_to_list, list_elem_of_lookup in Hl as [i Hi].
        destruct (Forall2_lookup_l _ _ _ _ _ Hents Hi) as ([cid' rs] & He & Hcid & Hrs).
        cbn [fst snd] in Hcid, Hrs. subst cid'.
        apply list_elem_of_lookup_2 in He.
        rewrite Forall_forall in Hall. destruct (Hall _ He) as (refs' & Hacc & Hrefs').
        cbn [fst snd] in Hacc, Hrefs'. rewrite Hacc. cbn.
        rewrite (mapM_Some_2 _ _ _ Hrefs'). symmetry. f_equal. by apply mapM_Some_2.
      * rewrite Hother; [by rewrite lookup_empty|].
        rewrite Hkeys. intros ([cid' l] & -> & Hin%elem_of_map_to_list)%list_elem_of_fmap.
        cbn in Hl. congruence.
Qed.

(** ** The snapshot round trip *)

(** C1, as amended: for a system whose receipts have an image that is [None]
    or at least one byte, and whose customers have an empty purchase history,
    [to_dict] returns a snapshot from which [from_dict] returns a system that
    is field-wise equal to the original: the same customers in the same
    order, the same stores, and the same receipt lists under the same keys.
    The loaded system is made of new objects; the original system and its
    objects are left as they are. *)
Theorem to_dict_from_dict_round_trip (σ : world) :
  closed σ →
  serializable σ →
  ∃ data s' σ',
    to_dict σ = (Return data, σ)
    ∧ from_dict data σ = (Return s', σ')
    ∧ contents σ' s' = contents σ (system σ)
    ∧ system σ' = system σ
    ∧ customer_objs σ ⊆ customer_objs σ'
    ∧ receipt_objs σ ⊆ receipt_objs σ'.
Proof.
  intros Hclosed Hser.
  destruct (from_dict_to_dict σ Hclosed Hser)
    as (data & s' & cobjs & robjs & Hsave & Hload & Hc & Hr & Hsame).
  exists data, s', (mk_world (system σ) cobjs robjs). by repeat split.
Qed.

Lemma sample_world_full_serializable : serializable Sample.world_full.
Proof.
  split.
  - intros r c Hr Hc.
    repeat (apply elem_of_cons in Hr as [->|Hr]); [| |by apply elem_of_nil in Hr];
      vm_compute in Hc; injection Hc as <-;
      (split; [vm_compute; reflexivity|split; [|reflexivity]]);
      intros d [= <-]; vm_compute; reflexivity.
  - intros cid l r v Hl Hr Hv.
    apply elem_of_map_to_list in Hl.
    replace (map_to_list (receipts (system Sample.world_full)))
      with [("c1", [5%nat; 7%nat]); ("c2", [] : list nat)] in Hl
      by (vm_compute; reflexivity).
    repeat (apply elem_of_cons in Hl as [[= -> ->]|Hl]);
      [| |by apply elem_of_nil in Hl].
    + repeat (apply elem_of_cons in Hr as [->|Hr]); [| |by apply elem_of_nil in Hr];
        vm_compute in Hv; injection Hv as <-;
        (split; [vm_compute; reflexivity|split; [vm_compute; reflexivity|]]);
        discriminate.
    + by apply elem_of_nil in Hr.
Qed.

Lemma to_dict_from_dict_round_trip_witness :
  ∃ data s' σ',
    to_dict Sample.world_full = (Return data, Sample.world_full)
    ∧ from_dict data Sample.world_full = (Return s', σ')
    ∧ contents σ' s' = contents Sample.world_full (system Sample.world_full)
    ∧ system σ' = system Sample.world_full
    ∧ customer_objs Sample.world_full ⊆ customer_objs σ'
    ∧ receipt_objs Sample.world_full ⊆ receipt_objs σ'.
Proof.
  apply (to_dict_from_dict_round_trip Sample.world_full).
  - by_evaluation.
  - exact sample_world_full_serializable.
Defined.

(** C1 as written fails on a receipt whose image is the empty byte string:
    [to_dict] writes [None] for it and [from_dict] loads [None], so the
    receipt list under ["c1"] comes back with another [image_data]. *)
Lemma round_trip_loses_empty_image :
  closed Sample.world_empty_image
  ∧ ∃ data s' σ',
      to_dict Sample.world_empty_image = (Return data, Sample.world_empty_image)
      ∧ from_dict data Sample.world_empty_image = (Return s', σ')
      ∧ contents Sample.world_empty_image (system Sample.world_empty_image)
        ≠ contents σ' s'.
Proof.
  split; [by_evaluation|].
  eexists _, _, _.
  split; [vm_compute; reflexivity|].
  split; [vm_compute; reflexivity|].
  intros Heq. apply (f_equal (λ x, x.2 !! "c1")) in Heq.
  vm_compute in Heq. discriminate.
Qed.

(** The purchase history is not part of the snapshot either. *)
Example round_trip_loses_purchase_history :
  ∃ data s' σ',
    to_dict Sample.world_with_history = (Return data, Sample.world_with_history)
    ∧ from_dict data Sample.world_with_history = (Return s', σ')
    ∧ Customer.purchase_history <$> customer_objs σ' !! 1%nat = Some []
    ∧ customers s' = [1%nat].
Proof. eexists _, _, _. repeat split; vm_compute; reflexivity. Qed.

(** ** The receipt-list invariant, for every operation *)














(** ** Further properties of the operations *)

(** X1: [add_store] refuses a store whose id a registered store has, with a
    [ValueError] and no change; a store with a new id is appended, and
    nothing else changes. *)
Theorem add_store_unique_id (σ : world) (store : Store.t) :
  (Exists (λ s, Store.store_id s = Store.store_id store) (stores (system σ)) →
   add_store store σ
   = (Raise (ValueError ("Store with ID " +:+ Store.store_id store
                         +:+ " already exists")), σ))
  ∧ (Forall (λ s, Store.store_id s ≠ Store.store_id store) (stores (system σ)) →
     add_store store σ
     = (Return tt,
        mk_world (mk (customers (system σ)) (stores (system σ) ++ [store])
                     (receipts (system σ)))
                 (customer_objs σ) (receipt_objs σ))).
Proof.
  unfold add_store, py_bind, get_self. split.
  - intros Hdup%existsb_eqb_true_iff. by rewrite Hdup.
  - intros Hnew%existsb_eqb_false_iff. by rewrite Hnew.
Qed.

(** X2: [update_customer] returns [True] after putting the new object in the
    place of the first registered customer with its id, and [False] with no
    change when no registered customer has that id; the stores, the receipts
    mapping and every object stay as they are. *)
Theorem update_customer_in_place (σ : world) (customer : nat) (new : Customer.t) :
  closed σ →
  customer_objs σ !! customer = Some new →
  ∃ b s',
    update_customer customer σ
    = (Return b, mk_world s' (customer_objs σ) (receipt_objs σ))
    ∧ stores s' = stores (system σ)
    ∧ receipts s' = receipts (system σ)
    ∧ ((b = false ∧ s' = system σ
        ∧ Forall (λ r, ∀ c, customer_objs σ !! r = Some c →
                       Customer.customer_id c ≠ Customer.customer_id new)
            (customers (system σ)))
       ∨ (b = true
          ∧ ∃ j r c, customers (system σ) !! j = Some r
                     ∧ customer_objs σ !! r = Some c
                     ∧ Customer.customer_id c = Customer.customer_id new
                     ∧ (∀ j' r' c', (j' < j)%nat →
                          customers (system σ) !! j' = Some r' →
                          customer_objs σ !! r' = Some c' →
                          Customer.customer_id c' ≠ Customer.customer_id new)
                     ∧ customers s' = <[j := customer]> (customers (system σ)))).
Proof.
  intros [Hl _] Hnew. unfold update_customer, py_bind, get_self.
  exact (update_from_run σ customer new 0 (customers (system σ)) Hnew Hl).
Qed.

Lemma update_customer_in_place_witness :
  ∃ b s',
    update_customer 1 Sample.world1
    = (Return b, mk_world s' (customer_objs Sample.world1)
                   (receipt_objs Sample.world1))
    ∧ stores s' = stores (system Sample.world1)
    ∧ receipts s' = receipts (system Sample.world1)
    ∧ ((b = false ∧ s' = system Sample.world1
        ∧ Forall (λ r, ∀ c, customer_objs Sample.world1 !! r = Some c →
                       Customer.customer_id c
                       ≠ Customer.customer_id Sample.alice_again)
            (customers (system Sample.world1)))
       ∨ (b = true
          ∧ ∃ j r c, customers (system Sample.world1) !! j = Some r
                     ∧ customer_objs Sample.world1 !! r = Some c
                     ∧ Customer.customer_id c
                       = Customer.customer_id Sample.alice_again
                     ∧ (∀ j' r' c', (j' < j)%nat →
                          customers (system Sample.world1) !! j' = Some r' →
                          customer_objs Sample.world1 !! r' = Some c' →
                          Customer.customer_id c'
                          ≠ Customer.customer_id Sample.alice_again)
                     ∧ customers s'
                       = <[j := 1%nat]> (customers (system Sample.world1)))).
Proof.
  apply (update_customer_in_place Sample.world1 1 Sample.alice_again).
  - by_evaluation.
  - reflexivity.
Defined.

(** On the sample world the update replaces the reference at position 0. *)
Example update_customer_sample :
  fst (update_customer 1 Sample.world1) = Return true
  ∧ customers (system (snd (update_customer 1 Sample.world1))) = [1%nat]
  ∧ fst (update_customer 2 Sample.world1) = Return false
  ∧ snd (update_customer 2 Sample.world1) = Sample.world1.
Proof. vm_compute. auto. Qed.

(** X3: a receipt is an object that the mapping refers to.  When a receipt
    that is stored under a customer id is processed again, with no customer
    id or with one that is no key, the system keeps its references (the list
    under the id is the same list of references), and the object behind the
    reference has the new ingredients, text and shelf life: every holder of
    the reference sees the change.  The other stored receipts are as they
    were. *)
Theorem stored_receipt_processed_in_place (σ : world) (rnd : receipt_draws)
    (receipt : nat) (customer_id : option string) (r : Receipt.t)
    (sampled : list string) (d : datetime.t) (cid : string) (l : list nat) :
  receipt_objs σ !! receipt = Some r →
  random.sample sample_ingredients (randint_2_5 rnd) (vocabulary_position rnd)
  = Return sampled →
  datetime.add_days (Receipt.upload_date r) (shelf_life_offset sampled) = Return d →
  (customer_id = None
   ∨ ∃ cid', customer_id = Some cid' ∧ receipts (system σ) !! cid' = None) →
  receipts (system σ) !! cid = Some l →
  receipt ∈ l →
  ∃ σ', process_receipt rnd receipt customer_id σ = (Return tt, σ')
        ∧ system σ' = system σ
        ∧ receipts (system σ') !! cid = Some l
        ∧ receipt_objs σ' !! receipt = Some (processed rnd sampled d r)
        ∧ ∀ r', r' ≠ receipt → receipt_objs σ' !! r' = receipt_objs σ !! r'.
Proof.
  intros Hr Hsample Hd Hunknown Hl _.
  rewrite (process_receipt_run σ rnd receipt customer_id r sampled Hr Hsample), Hd.
  assert (with_receipt receipt customer_id (system σ) = system σ) as ->.
  { unfold with_receipt.
    destruct Hunknown as [->|(cid' & -> & Hcid)]; [reflexivity|].
    rewrite Hcid. by destruct (str_truthy cid'). }
  eexists. split; [reflexivity|]. cbn [system receipt_objs].
  split; [reflexivity|]. split; [exact Hl|].
  split; [apply lookup_insert_eq|].
  intros r' Hne. by apply lookup_insert_ne.
Qed.

Lemma stored_receipt_processed_in_place_witness :
  ∃ σ', process_receipt Sample.draws_rice_pasta 7 None Sample.world_full
        = (Return tt, σ')
        ∧ system σ' = system Sample.world_full
        ∧ receipts (system σ') !! "c1" = Some [5%nat; 7%nat]
        ∧ receipt_objs σ' !! 7%nat
          = Some (processed Sample.draws_rice_pasta ["rice"; "pasta"]
                    (datetime.mk 2024 1 22 10 30 0 0) Sample.receipt0)
        ∧ ∀ r', r' ≠ 7%nat →
                receipt_objs σ' !! r' = receipt_objs Sample.world_full !! r'.
Proof.
  apply (stored_receipt_processed_in_place Sample.world_full
           Sample.draws_rice_pasta 7 None Sample.receipt0 ["rice"; "pasta"]
           (datetime.mk 2024 1 22 10 30 0 0) "c1" [5%nat; 7%nat]).
  - vm_compute. reflexivity.
  - vm_compute. reflexivity.
  - vm_compute. reflexivity.
  - by left.
  - vm_compute. reflexivity.
  - by_evaluation.
Defined.

(** On the sample world: the receipt is stored for ["c1"], then processed
    again with a customer id that is no key; the mapping has the same
    reference, and the receipt behind it has the second sample. *)
Example stored_receipt_processed_again :
  let stored := snd (process_receipt Sample.draws_milk_rice 0 (Some "c1")
                       Sample.world1) in
  let again := snd (process_receipt Sample.draws_rice_pasta 0 (Some "unknown")
                      stored) in
  receipts (system stored) !! "c1" = Some [0%nat]
  ∧ system again = system stored
  ∧ (contents stored (system stored)).2 !! "c1"
    = Some (Some [processed Sample.draws_milk_rice ["milk"; "rice"]
                    (datetime.mk 2024 1 18 10 30 0 0) Sample.receipt0])
  ∧ (contents again (system again)).2 !! "c1"
    = Some (Some [processed Sample.draws_rice_pasta ["rice"; "pasta"]
                    (datetime.mk 2024 1 22 10 30 0 0) Sample.receipt0]).
Proof. vm_compute. auto. Qed.

(** On the sample world a store with the id of the registered store is
    refused and a store with another id is appended. *)
Example add_store_sample :
  add_store Sample.corner_store Sample.world1
  = (Raise (ValueError "Store with ID s1 already exists"), Sample.world1)
  ∧ stores (system (snd (add_store (Store.mk "s2" "Market" (0%float, 0%float) [])
                           Sample.world1)))
    = [Sample.corner_store; Store.mk "s2" "Market" (0%float, 0%float) []].
Proof. vm_compute. auto. Qed.

(** ** Identities stay unique *)

Lemma distinct_by_nil (f : Customer.t → string) (objs : gmap nat Customer.t) :
  distinct_by f objs [].
Proof. intros i j ri rj ci cj Hi. by rewrite lookup_nil in Hi. Qed.

(** Appending a customer whose [f] no listed customer has. *)
Lemma distinct_by_snoc (f : Customer.t → string) (objs : gmap nat Customer.t)
    (l : list nat) (customer : nat) (c : Customer.t) :
  distinct_by f objs l →
  objs !! customer = Some c →
  (∀ r c', r ∈ l → objs !! r = Some c' → f c' ≠ f c) →
  distinct_by f objs (l ++ [customer]).
Proof.
  intros Hl Hc Hnew i j ri rj ci cj Hi Hj Hci Hcj Hf.
  apply lookup_snoc_Some in Hi as [[Hilt Hi]|[-> <-]];
    apply lookup_snoc_Some in Hj as [[Hjlt Hj]|[-> <-]].
  - by eapply Hl.
  - assert (cj = c) as -> by congruence.
    destruct (Hnew ri ci); [by eapply list_elem_of_lookup_2|done..].
  - assert (ci = c) as -> by congruence.
    destruct (Hnew rj cj); [by eapply list_elem_of_lookup_2|done..].
  - reflexivity.
Qed.

(** Putting an object in the place of one with the same [f]. *)
Lemma distinct_by_insert (f : Customer.t → string) (objs : gmap nat Customer.t)
    (l : list nat) (k r customer : nat) (c new : Customer.t) :
  distinct_by f objs l →
  l !! k = Some r → objs !! r = Some c →
  objs !! customer = Some new → f c = f new →
  distinct_by f objs (<[k := customer]> l).
Proof.
  intros Hl Hk Hc Hnew Hf i j ri rj ci cj Hi Hj Hci Hcj Hij.
  apply list_lookup_insert_Some in Hi as [(<- & <- & _)|[Hne Hi]];
    apply list_lookup_insert_Some in Hj as [(<- & <- & Hlt)|[Hne' Hj]].
  - reflexivity.
  - assert (ci = new) as -> by congruence.
    eapply (Hl k j r rj c cj); [done..|congruence].
  - assert (cj = new) as -> by congruence.
    eapply (Hl i k ri r ci c); [done..|congruence].
  - by eapply Hl.
Qed.

(** An assignment to an attribute other than [f] of one object. *)
Lemma distinct_by_modify (f : Customer.t → string) (objs : gmap nat Customer.t)
    (l : list nat) (r : nat) (c c' : Customer.t) :
  distinct_by f objs l →
  objs !! r = Some c → f c' = f c →
  distinct_by f (<[r := c']> objs) l.
Proof.
  intros Hl Hc Hf i j ri rj ci cj Hi Hj Hci Hcj Hij.
  assert (∀ x cx, <[r := c']> objs !! x = Some cx →
                  ∃ cx', objs !! x = Some cx' ∧ f cx' = f cx) as Hold.
  { intros x cx Hx. destruct (decide (r = x)) as [->|Hne].
    - rewrite lookup_insert_eq in Hx. injection Hx as <-. by exists c.
    - rewrite lookup_insert_ne in Hx by done. by exists cx. }
  destruct (Hold _ _ Hci) as (ci' & Hci' & Hfi).
  destruct (Hold _ _ Hcj) as (cj' & Hcj' & Hfj).
  eapply (Hl i j ri rj ci' cj'); [done..|congruence].
Qed.

(** [register_customer] on a customer that exists: it raises and changes
    nothing, or no registered customer has the id or the email and the
    customer is appended with an empty receipt list. *)
Lemma register_customer_outcome (σ : world) (customer : nat) (c : Customer.t) :
  closed σ →
  customer_objs σ !! customer = Some c →
  (∃ msg, register_customer customer σ = (Raise (ValueError msg), σ))
  ∨ (register_customer customer σ
     = (Return tt,
        mk_world (mk (customers (system σ) ++ [customer]) (stores (system σ))
                     (<[Customer.customer_id c := []]> (receipts (system σ))))
                 (customer_objs σ) (receipt_objs σ))
     ∧ ∀ r c', r ∈ customers (system σ) → customer_objs σ !! r = Some c' →
               Customer.customer_id c' ≠ Customer.customer_id c
               ∧ Customer.email c' ≠ Customer.email c).
Proof.
  intros Hclosed Hc.
  destruct (closed_customers σ Hclosed) as [cs Hcs].
  rewrite (register_customer_cases σ customer c cs Hc Hcs).
  destruct (existsb _ cs) eqn:Hid; [left; by eexists|].
  destruct (existsb (λ x, String.eqb (Customer.email x) _) cs) eqn:Hemail;
    [left; by eexists|].
  right. split; [reflexivity|].
  apply existsb_eqb_false_iff in Hid, Hemail.
  intros r c' [i Hi]%list_elem_of_lookup Hc'.
  destruct (Forall2_lookup_l _ _ _ _ _ Hcs Hi) as (x & Hx & Hrx).
  assert (x = c') as -> by congruence.
  rewrite Forall_lookup in Hid, Hemail. split; [by eapply Hid|by eapply Hemail].
Qed.

Lemma with_receipt_frame (receipt : nat) (customer_id : option string)
    (s : ReceiptSystem.t) :
  customers (with_receipt receipt customer_id s) = customers s
  ∧ stores (with_receipt receipt customer_id s) = stores s.
Proof.
  unfold with_receipt.
  destruct customer_id as [cid|]; [|done].
  destruct (str_truthy cid); [|done].
  by destruct (receipts s !! cid).
Qed.

(** [process_receipt] leaves the customer list, the store list and the
    customer objects as they are, whatever it returns or raises. *)
Lemma process_receipt_frame (σ : world) (rnd : receipt_draws) (receipt : nat)
    (customer_id : option string) :
  let σ' := snd (process_receipt rnd receipt customer_id σ) in
  customers (system σ') = customers (system σ)
  ∧ stores (system σ') = stores (system σ)
  ∧ customer_objs σ' = customer_objs σ.
Proof.
  intros σ'.
  destruct (process_receipt_system σ rnd receipt customer_id) as [Hsys Hobjs].
  fold σ' in Hsys, Hobjs.
  destruct (with_receipt_frame receipt customer_id (system σ)) as [Hcs Hst].
  destruct Hsys as [->| ->]; by rewrite ?Hcs, ?Hst.
Qed.

Lemma register_customer_distinct_by (f : Customer.t → string) (σ : world)
    (customer : nat) (c : Customer.t) :
  closed σ →
  customer_objs σ !! customer = Some c →
  (∀ c', Customer.customer_id c' ≠ Customer.customer_id c
         ∧ Customer.email c' ≠ Customer.email c → f c' ≠ f c) →
  distinct_by f (customer_objs σ) (customers (system σ)) →
  let σ' := snd (register_customer customer σ) in
  distinct_by f (customer_objs σ') (customers (system σ')).
Proof.
  intros Hclosed Hc Hf Hl.
  destruct (register_customer_outcome σ customer c Hclosed Hc)
    as [[msg ->]|[-> Hnew]]; [exact Hl|].
  cbn. eapply distinct_by_snoc; [done..|].
  intros r c' Hr Hc'. apply Hf. by eapply Hnew.
Qed.

Lemma update_customer_distinct_ids (σ : world) (customer : nat) (new : Customer.t) :
  closed σ →
  customer_objs σ !! customer = Some new →
  distinct_by Customer.customer_id (customer_objs σ) (customers (system σ)) →
  let σ' := snd (update_customer customer σ) in
  distinct_by Customer.customer_id (customer_objs σ') (customers (system σ'))
  ∧ stores (system σ') = stores (system σ).
Proof.
  intros [Hl _] Hnew Hd.
  unfold update_customer, py_bind, get_self.
  destruct (update_from_run σ customer new 0 (customers (system σ)) Hnew Hl)
    as (b & s' & -> & Hst & Hre & Hcases).
  cbn. split; [|exact Hst].
  destruct Hcases as [(_ & -> & _)|(_ & j & r & c & Hj & Hc & Hid & _ & ->)];
    [exact Hd|].
  by eapply distinct_by_insert.
Qed.

Lemma authenticate_customer_distinct_by (lower : string → string)
    (f : Customer.t → string) (σ : world) (now : datetime.t)
    (email password : string) :
  (∀ c, f (logged_in now c) = f c) →
  closed σ →
  distinct_by f (customer_objs σ) (customers (system σ)) →
  let σ' := snd (authenticate_customer lower now email password σ) in
  distinct_by f (customer_objs σ') (customers (system σ'))
  ∧ stores (system σ') = stores (system σ).
Proof.
  intros Hf Hclosed Hd.
  destruct (authenticate_customer_world lower σ now email password Hclosed)
    as (out & σ1 & -> & [->|(r & c & Hc & ->)]); cbn; [done|].
  split; [|done]. by eapply distinct_by_modify.
Qed.

Lemma add_store_stores (σ : world) (store : Store.t) :
  NoDup (Store.store_id <$> stores (system σ)) →
  let σ' := snd (add_store store σ) in
  NoDup (Store.store_id <$> stores (system σ'))
  ∧ customers (system σ') = customers (system σ)
  ∧ customer_objs σ' = customer_objs σ.
Proof.
  intros Hst. unfold add_store, py_bind, get_self.
  destruct (existsb _ _) eqn:Hnew; [done|].
  apply existsb_eqb_false_iff in Hnew.
  cbn. split; [|done]. rewrite fmap_app. apply NoDup_app.
  split; [exact Hst|]. split; [|apply NoDup_singleton].
  intros x (s & -> & Hs)%list_elem_of_fmap Hx%list_elem_of_singleton.
  rewrite Forall_forall in Hnew. by destruct (Hnew s Hs).
Qed.

(** X4: unique identifiers are an invariant.  In a world where the
    registered customers have pairwise distinct ids and the stores have
    pairwise distinct ids, that is still so after [register_customer],
    [update_customer], [add_store], [process_receipt] and
    [authenticate_customer], whatever they return or raise. *)
Theorem unique_ids_invariant (σ : world) :
  closed σ →
  unique_ids σ →
  (∀ customer c, customer_objs σ !! customer = Some c →
     unique_ids (snd (register_customer customer σ)))
  ∧ (∀ customer c, customer_objs σ !! customer = Some c →
       unique_ids (snd (update_customer customer σ)))
  ∧ (∀ store, unique_ids (snd (add_store store σ)))
  ∧ (∀ rnd receipt customer_id,
       unique_ids (snd (process_receipt rnd receipt customer_id σ)))
  ∧ (∀ lower now email password,
       unique_ids (snd (authenticate_customer lower now email password σ))).
Proof.
  intros Hclosed [Hids Hstores].
  split; [|split; [|split; [|split]]].
  - intros customer c Hc. split.
    + apply (register_customer_distinct_by _ σ customer c); [done..| |done].
      by intros c' [? _].
    + destruct (register_customer_outcome σ customer c Hclosed Hc)
        as [[msg ->]|[-> _]]; exact Hstores.
  - intros customer c Hc.
    destruct (update_customer_distinct_ids σ customer c Hclosed Hc Hids)
      as [Hd Hst].
    split; [exact Hd|]. by rewrite Hst.
  - intros store.
    destruct (add_store_stores σ store Hstores) as (Hnd & Hcs & Hobjs).
    split; [|exact Hnd]. by rewrite Hcs, Hobjs.
  - intros rnd receipt customer_id.
    destruct (process_receipt_frame σ rnd receipt customer_id)
      as (Hcs & Hst & Hobjs).
    split; [by rewrite Hcs, Hobjs|by rewrite Hst].
  - intros lower now email password.
    destruct (authenticate_customer_distinct_by lower Customer.customer_id σ now email
                password) as [Hd Hst]; [done..|].
    split; [exact Hd|by rewrite Hst].
Qed.

(** [distinct_by] from the list of the objects. *)
Lemma distinct_by_NoDup (f : Customer.t → string) (objs : gmap nat Customer.t)
    (l : list nat) (cs : list Customer.t) :
  Forall2 (λ r c, objs !! r = Some c) l cs →
  NoDup (f <$> cs) →
  distinct_by f objs l.
Proof.
  intros Hcs Hnodup i j ri rj ci cj Hi Hj Hci Hcj Hf.
  destruct (Forall2_lookup_l _ _ _ _ _ Hcs Hi) as (ci' & Hi' & Hobj).
  destruct (Forall2_lookup_l _ _ _ _ _ Hcs Hj) as (cj' & Hj' & Hobj').
  assert (ci' = ci) as -> by congruence. assert (cj' = cj) as -> by congruence.
  eapply NoDup_lookup; [exact Hnodup| |].
  - rewrite list_lookup_fmap, Hi'. reflexivity.
  - rewrite list_lookup_fmap, Hj', Hf. reflexivity.
Qed.

Lemma sample_world_full_unique_ids : unique_ids Sample.world_full.
Proof.
  split.
  - apply (distinct_by_NoDup _ _ _ [Sample.alice_logged_in; Sample.bob]).
    + repeat constructor.
    + by_evaluation.
  - by_evaluation.
Qed.

Lemma sample_world_full_unique_emails : unique_emails Sample.world_full.
Proof.
  apply (distinct_by_NoDup _ _ _ [Sample.alice_logged_in; Sample.bob]).
  - repeat constructor.
  - by_evaluation.
Qed.

Lemma unique_ids_invariant_witness :
  unique_ids (snd (register_customer 1 Sample.world_full))
  ∧ unique_ids (snd (add_store Sample.corner_store Sample.world_full))
  ∧ unique_ids (snd (update_customer 1 Sample.world_full)).
Proof.
  destruct (unique_ids_invariant Sample.world_full) as (Hreg & Hupd & Hadd & _).
  - by_evaluation.
  - exact sample_world_full_unique_ids.
  - split; [|split].
    + apply (Hreg 1%nat Sample.bob). reflexivity.
    + apply Hadd.
    + apply (Hupd 1%nat Sample.bob). reflexivity.
Defined.

(** X5: exact emails stay unique under registration.  In a world where no
    two registered customers have the same email, character for character,
    that is still so after [register_customer], [add_store],
    [process_receipt] and [authenticate_customer], whatever they return or
    raise. *)
Theorem unique_emails_invariant (σ : world) :
  closed σ →
  unique_emails σ →
  (∀ customer c, customer_objs σ !! customer = Some c →
     unique_emails (snd (register_customer customer σ)))
  ∧ (∀ store, unique_emails (snd (add_store store σ)))
  ∧ (∀ rnd receipt customer_id,
       unique_emails (snd (process_receipt rnd receipt customer_id σ)))
  ∧ (∀ lower now email password,
       unique_emails (snd (authenticate_customer lower now email password σ))).
Proof.
  intros Hclosed Hemails. unfold unique_emails in *.
  split; [|split; [|split]].
  - intros customer c Hc.
    apply (register_customer_distinct_by _ σ customer c); [done..| |done].
    by intros c' [_ ?].
  - intros store. unfold add_store, py_bind, get_self.
    by destruct (existsb _ _).
  - intros rnd receipt customer_id.
    destruct (process_receipt_frame σ rnd receipt customer_id) as (-> & _ & ->).
    exact Hemails.
  - intros lower now email password. by apply authenticate_customer_distinct_by.
Qed.

Lemma unique_emails_invariant_witness :
  unique_emails (snd (register_customer 1 Sample.world_full))
  ∧ unique_emails
      (snd (authenticate_customer lower_ascii Sample.noon "alice@example.com" "p1"
              Sample.world_full)).
Proof.
  destruct (unique_emails_invariant Sample.world_full) as (Hreg & _ & _ & Hauth).
  - by_evaluation.
  - exact sample_world_full_unique_emails.
  - split.
    + apply (Hreg 1%nat Sample.bob). reflexivity.
    + apply Hauth.
Defined.

(** X6: [update_customer] compares ids only.  When the new object has the id
    of the registered customer at position [i] and the email of the
    registered customer at another position [j], the call returns [True]
    and afterwards two registered customers have the same email. *)
Theorem update_customer_skips_email_check (σ : world) (customer : nat)
    (new : Customer.t) (i j ri rj : nat) (ci cj : Customer.t) :
  closed σ →
  unique_ids σ →
  customer_objs σ !! customer = Some new →
  customers (system σ) !! i = Some ri → customer_objs σ !! ri = Some ci →
  customers (system σ) !! j = Some rj → customer_objs σ !! rj = Some cj →
  i ≠ j →
  Customer.customer_id new = Customer.customer_id ci →
  Customer.email new = Customer.email cj →
  fst (update_customer customer σ) = Return true
  ∧ customers (system (snd (update_customer customer σ)))
    = <[i := customer]> (customers (system σ))
  ∧ ¬ unique_emails (snd (update_customer customer σ)).
Proof.
  intros Hclosed [Hids _] Hnew Hi Hci Hj Hcj Hne Hid Hemail.
  destruct Hclosed as [Hl _].
  unfold update_customer, py_bind, get_self.
  destruct (update_from_run σ customer new 0 (customers (system σ)) Hnew Hl)
    as (b & s' & -> & Hst & Hre & Hcases).
  destruct Hcases as [(_ & _ & Hall)|(-> & k & r & c & Hk & Hc & Hidk & _ & Hcs)].
  - rewrite Forall_lookup in Hall. by destruct (Hall i ri Hi ci Hci).
  - assert (k = i) as -> by (eapply (Hids k i r ri c ci); [done..|congruence]).
    cbn. split; [done|]. split; [done|].
    intros Hemails. apply Hne. unfold unique_emails in Hemails.
    cbn [snd system customer_objs] in Hemails. rewrite Hcs in Hemails.
    eapply (Hemails i j customer rj new cj); [| |done..].
    + apply list_lookup_insert_eq. by eapply lookup_lt_Some.
    + rewrite list_lookup_insert_ne by done. exact Hj.
Qed.

Lemma update_customer_skips_email_check_witness :
  fst (update_customer 2 Sample.world_renaming) = Return true
  ∧ customers (system (snd (update_customer 2 Sample.world_renaming)))
    = <[1%nat := 2%nat]> (customers (system Sample.world_renaming))
  ∧ ¬ unique_emails (snd (update_customer 2 Sample.world_renaming)).
Proof.
  apply (update_customer_skips_email_check Sample.world_renaming 2
           Sample.bob_renamed 1 0 1 0 Sample.bob Sample.alice_logged_in).
  - by_evaluation.
  - split.
    + apply (distinct_by_NoDup _ _ _ [Sample.alice_logged_in; Sample.bob]).
      * repeat constructor.
      * by_evaluation.
    + by_evaluation.
  - reflexivity.
  - reflexivity.
  - reflexivity.
  - reflexivity.
  - reflexivity.
  - lia.
  - reflexivity.
  - reflexivity.
Defined.

(** ** Authentication, continued *)

(** What [verify_password] can raise: the error of [encode()], when the
    password followed by the stored salt holds a surrogate. *)
Lemma verify_password_raises (password : string) (c : Customer.t) (e : exn) :
  Customer.verify_password password c = Raise e →
  e = UnicodeEncodeError "surrogates not allowed"
  ∧ ∃ s, Customer.salt c = Some s ∧ has_surrogate (password +:+ s) = true.
Proof.
  rewrite verify_password_cases.
  destruct (Customer.password_hash c) as [h|]; [|discriminate].
  destruct (Customer.salt c) as [s|]; [|discriminate].
  destruct (str_truthy h && str_truthy s); [|discriminate].
  unfold Customer._hash_password, encode.
  destruct (has_surrogate (password +:+ s)) eqn:Hsur; [|discriminate].
  cbn. intros [= <-]. split; [reflexivity|]. by exists s.
Qed.

(** X7: [authenticate_customer] ends in one of three ways.  It returns
    [None] and has changed nothing; or the first registered customer, in
    list order, whose lower-cased email is the lower-cased query has a salt
    that, appended to the password, cannot be encoded, and the call raises
    the [UnicodeEncodeError] of [verify_password] and has changed nothing;
    or [verify_password] accepts the password for that first customer, this
    customer is returned, its [last_login] is [now] and nothing else has
    changed. *)
Theorem authenticate_customer_sound (lower : string → string) (σ : world)
    (now : datetime.t) (email password : string) :
  closed σ →
  (fst (authenticate_customer lower now email password σ) = Return None
   ∧ snd (authenticate_customer lower now email password σ) = σ)
  ∨ (∃ r c s,
       first_email_match lower σ email (customers (system σ)) (Some r)
       ∧ customer_objs σ !! r = Some c
       ∧ Customer.salt c = Some s
       ∧ has_surrogate (password +:+ s) = true
       ∧ authenticate_customer lower now email password σ
         = (Raise (UnicodeEncodeError "surrogates not allowed"), σ))
  ∨ ∃ r c,
      first_email_match lower σ email (customers (system σ)) (Some r)
      ∧ customer_objs σ !! r = Some c
      ∧ Customer.verify_password password c = Return true
      ∧ Customer.last_login (logged_in now c) = Some now
      ∧ authenticate_customer lower now email password σ
        = (Return (Some r),
           mk_world (system σ) (<[r := logged_in now c]> (customer_objs σ))
             (receipt_objs σ)).
Proof.
  intros Hclosed.
  destruct (get_customer_by_email_first lower σ email Hclosed)
    as (found & _ & Hfound).
  rewrite (authenticate_customer_cases lower σ now email password found Hclosed
             Hfound).
  destruct found as [r|]; [|by left].
  pose proof Hfound as (i & c & Hi & Hc & _). rewrite Hc.
  destruct (Customer.verify_password password c) as [[|]|e] eqn:Hverify.
  - right. right. by exists r, c.
  - by left.
  - right. left.
    destruct (verify_password_raises _ _ _ Hverify) as (-> & s & Hs & Hsur).
    by exists r, c, s.
Qed.

Lemma authenticate_customer_sound_witness :
  fst (authenticate_customer lower_ascii Sample.noon "ALICE@example.com" "p1"
         Sample.world_p1) = Return (Some 0%nat)
  ∧ Customer.last_login
      <$> customer_objs
            (snd (authenticate_customer lower_ascii Sample.noon
                    "ALICE@example.com" "p1" Sample.world_p1)) !! 0%nat
    = Some (Some Sample.noon).
Proof.
  destruct (authenticate_customer_sound lower_ascii Sample.world_p1 Sample.noon
              "ALICE@example.com" "p1")
    as [[Hnone _]|[(r & c & s & _ & _ & _ & _ & Hraise)|(r & c & _ & _ & _ & _ & Hrun)]].
  - by_evaluation.
  - vm_compute in Hnone. discriminate.
  - vm_compute in Hraise. discriminate.
  - split; vm_compute; reflexivity.
Defined.

Lemma register_customer_closed (σ : world) (customer : nat) (c : Customer.t) :
  closed σ →
  customer_objs σ !! customer = Some c →
  closed (snd (register_customer customer σ)).
Proof.
  intros Hclosed Hc.
  destruct (register_customer_outcome σ customer c Hclosed Hc)
    as [[msg ->]|[-> _]]; [exact Hclosed|].
  destruct Hclosed as [Hl Hm]. split; cbn.
  - apply Forall_app. split; [exact Hl|]. by repeat constructor.
  - apply map_Forall_insert_2; [constructor|exact Hm].
Qed.

(** X8: signing up and logging in.  A customer whose password was set with
    [set_password(p)], for a password that can be encoded, and whose id and
    lower-cased email no registered customer has, is registered; after that
    [authenticate_customer] with an email that has the same lower-cased text
    and the password [p] returns this customer, with [last_login] set to the
    current time and nothing else changed. *)
Theorem register_then_authenticate (lower : string → string) (σ : world)
    (customer : nat) (c0 : Customer.t) (entropy : list byte) (p email : string)
    (now : datetime.t) :
  closed σ →
  length entropy = 16%nat →
  has_surrogate p = false →
  customer_objs σ !! customer
  = Some (snd (Customer.set_password entropy p c0)) →
  (∀ r c', r ∈ customers (system σ) → customer_objs σ !! r = Some c' →
     Customer.customer_id c' ≠ Customer.customer_id c0
     ∧ lower (Customer.email c') ≠ lower (Customer.email c0)) →
  lower email = lower (Customer.email c0) →
  ∃ σ1,
    register_customer customer σ = (Return tt, σ1)
    ∧ customers (system σ1) = customers (system σ) ++ [customer]
    ∧ authenticate_customer lower now email p σ1
      = (Return (Some customer),
         mk_world (system σ1)
           (<[customer := logged_in now
                            (snd (Customer.set_password entropy p c0))]>
              (customer_objs σ1))
           (receipt_objs σ1))
    ∧ Customer.last_login
        (logged_in now (snd (Customer.set_password entropy p c0)))
      = Some now.
Proof.
  intros Hclosed Hentropy Hp Hc Hnew Hemail.
  assert (Customer.customer_id (snd (Customer.set_password entropy p c0))
          = Customer.customer_id c0
          ∧ Customer.email (snd (Customer.set_password entropy p c0))
            = Customer.email c0) as [Hsame_id Hsame_email]
    by (by rewrite set_password_returns).
  set (c := snd (Customer.set_password entropy p c0)) in *.
  pose proof (register_customer_closed σ customer c Hclosed Hc) as Hclosed1.
  destruct (register_customer_outcome σ customer c Hclosed Hc)
    as [[msg Hraise]|[Hrun _]].
  { exfalso. destruct (closed_customers σ Hclosed) as [cs Hcs].
    rewrite (register_customer_cases σ customer c cs Hc Hcs) in Hraise.
    assert (Forall (λ x, Customer.customer_id x ≠ Customer.customer_id c
                         ∧ Customer.email x ≠ Customer.email c) cs) as Hall.
    { apply Forall_lookup. intros i x Hx.
      destruct (Forall2_lookup_r _ _ _ _ _ Hcs Hx) as (r' & Hr' & Hobj).
      destruct (Hnew r' x) as [Hid Hlow]; [by eapply list_elem_of_lookup_2|done|].
      rewrite Hsame_id, Hsame_email.
      split; [exact Hid|]. intros Heq. apply Hlow. by rewrite Heq. }
    replace (existsb (λ x, String.eqb (Customer.customer_id x) _) cs) with false
      in Hraise.
    2:{ symmetry. apply existsb_eqb_false_iff. eapply Forall_impl; [exact Hall|].
        by intros ? []. }
    replace (existsb (λ x, String.eqb (Customer.email x) _) cs) with false
      in Hraise.
    2:{ symmetry. apply existsb_eqb_false_iff. eapply Forall_impl; [exact Hall|].
        by intros ? []. }
    discriminate. }
  rewrite Hrun in Hclosed1. cbn [snd] in Hclosed1.
  eexists. split; [exact Hrun|]. split; [reflexivity|]. split; [|reflexivity].
  rewrite (authenticate_customer_cases lower _ now email p (Some customer) Hclosed1).
  - cbn [customer_objs]. rewrite Hc.
    unfold c. by rewrite verify_password_set_password.
  - exists (length (customers (system σ))), c. cbn [system customers customer_objs].
    split; [by rewrite lookup_app_r, Nat.sub_diag|].
    split; [exact Hc|]. split; [by rewrite Hemail, Hsame_email|].
    intros j r' c' Hj Hr' Hc'. rewrite lookup_app_l in Hr' by done.
    rewrite Hemail.
    destruct (Hnew r' c') as [_ Hlow]; [by eapply list_elem_of_lookup_2|done|].
    exact Hlow.
Qed.

Lemma register_then_authenticate_witness :
  ∃ σ1,
    register_customer 0 Sample.world_sign_up = (Return tt, σ1)
    ∧ customers (system σ1) = [0%nat]
    ∧ authenticate_customer lower_ascii Sample.noon "ALICE@EXAMPLE.COM" "p1" σ1
      = (Return (Some 0%nat),
         mk_world (system σ1)
           (<[0%nat := logged_in Sample.noon Sample.alice_p1]>
              (customer_objs σ1))
           (receipt_objs σ1))
    ∧ Customer.last_login (logged_in Sample.noon Sample.alice_p1)
      = Some Sample.noon.
Proof.
  apply (register_then_authenticate lower_ascii Sample.world_sign_up 0
           Sample.alice Sample.entropy16 "p1" "ALICE@EXAMPLE.COM" Sample.noon).
  - by_evaluation.
  - reflexivity.
  - reflexivity.
  - reflexivity.
  - intros r c' Hr. by apply elem_of_nil in Hr.
  - vm_compute. reflexivity.
Defined.

(** X9: a later customer whose email has the lower-cased text of the email
    of an earlier one cannot log in: whatever the email and the password of
    the call, [authenticate_customer] does not return that customer. *)
Theorem authenticate_customer_shadowed (lower : string → string) (σ : world)
    (now : datetime.t) (email password : string) (i j r1 r2 : nat)
    (c1 c2 : Customer.t) :
  closed σ →
  NoDup (customers (system σ)) →
  customers (system σ) !! i = Some r1 → customer_objs σ !! r1 = Some c1 →
  customers (system σ) !! j = Some r2 → customer_objs σ !! r2 = Some c2 →
  (i < j)%nat →
  lower (Customer.email c1) = lower (Customer.email c2) →
  fst (authenticate_customer lower now email password σ) ≠ Return (Some r2).
Proof.
  intros Hclosed Hnodup Hi Hc1 Hj Hc2 Hlt Hlow Hout.
  destruct (get_customer_by_email_first lower σ email Hclosed) as (found & _ & Hfound).
  rewrite (authenticate_customer_cases lower σ now email password found Hclosed Hfound)
    in Hout.
  destruct found as [r|]; [|discriminate].
  pose proof Hfound as (k & c & Hk & Hc & Hemail & Hfirst). rewrite Hc in Hout.
  destruct (Customer.verify_password password c) as [[|]|e]; [|discriminate..].
  cbn in Hout. injection Hout as ->.
  assert (k = j) as -> by (by eapply NoDup_lookup).
  assert (c = c2) as -> by congruence.
  destruct (Hfirst i r1 c1 Hlt Hi Hc1). congruence.
Qed.

Lemma authenticate_customer_shadowed_witness :
  fst (authenticate_customer lower_ascii Sample.noon "alice@example.com" "p2"
         Sample.world_full) ≠ Return (Some 1%nat).
Proof.
  apply (authenticate_customer_shadowed lower_ascii Sample.world_full Sample.noon
           "alice@example.com" "p2" 0 1 0 1 Sample.alice_logged_in Sample.bob).
  - by_evaluation.
  - by_evaluation.
  - reflexivity.
  - reflexivity.
  - reflexivity.
  - reflexivity.
  - lia.
  - vm_compute. reflexivity.
Defined.

(** ** Processing a receipt, continued *)

(** A sample at pairwise distinct positions of a list without duplicates has
    no duplicates, and its elements are elements of the list. *)
Lemma sample_NoDup {A} (population : list A) (k : Z) (position : nat → nat)
    (xs : list A) :
  NoDup population →
  random.distinct_positions (length population) k position →
  random.sample population k position = Return xs →
  NoDup xs ∧ xs ⊆ population.
Proof.
  intros Hpop [Hin Hdistinct] Hrun.
  destruct (sample_length _ _ _ _ Hrun) as [Hk _].
  destruct (sample_returns population k position Hk Hin) as (xs' & Hrun' & Hxs).
  assert (xs' = xs) as -> by congruence.
  split.
  - apply NoDup_alt. intros a b x Ha Hb.
    destruct (Forall2_lookup_r _ _ _ _ _ Hxs Ha) as (ia & Hia & Hpa).
    destruct (Forall2_lookup_r _ _ _ _ _ Hxs Hb) as (ib & Hib & Hpb).
    apply lookup_seq in Hia as [-> _]. apply lookup_seq in Hib as [-> Hlt].
    cbn in Hpa, Hpb.
    assert (position a = position b) as Hpos
      by (eapply NoDup_lookup; [exact Hpop|done..]).
    eapply (NoDup_lookup _ a b (position a)); [exact Hdistinct| |].
    + rewrite list_lookup_fmap, lookup_seq_lt; [done|].
      apply lookup_lt_Some in Ha.
      destruct (sample_length _ _ _ _ Hrun) as [_ <-]. exact Ha.
    + rewrite list_lookup_fmap, lookup_seq_lt; [by rewrite Hpos|exact Hlt].
  - intros x [a Ha]%list_elem_of_lookup.
    destruct (Forall2_lookup_r _ _ _ _ _ Hxs Ha) as (ia & _ & Hpa).
    by eapply list_elem_of_lookup_2.
Qed.

(** X10: what [process_receipt] puts into a receipt.  With draws of the
    generator ([randint(2, 5)] in its range, a sample at distinct positions)
    the receipt gets between two and five ingredients, as many as
    [randint] gave, pairwise distinct and all from the vocabulary of ten
    words, and its text is the header (the receipt id, the upload date as
    [strftime('%Y-%m-%d')] writes it, and [Items:]) with one line per
    ingredient; the call returns, or it raises the [OverflowError] of the
    date arithmetic. *)
Theorem process_receipt_ingredients (σ : world) (rnd : receipt_draws)
    (receipt : nat) (customer_id : option string) (r : Receipt.t) :
  receipt_objs σ !! receipt = Some r →
  receipt_draws_ok (length sample_ingredients) rnd →
  ∃ sampled r',
    receipt_objs (snd (process_receipt rnd receipt customer_id σ)) !! receipt
    = Some r'
    ∧ Receipt.ingredients r' = sampled
    ∧ Z.of_nat (length sampled) = randint_2_5 rnd
    ∧ (2 <= length sampled <= 5)%nat
    ∧ NoDup sampled
    ∧ sampled ⊆ sample_ingredients
    ∧ Receipt.ocr_text r'
      = receipt_text rnd (Receipt.receipt_id r) (Receipt.upload_date r) sampled
    ∧ (fst (process_receipt rnd receipt customer_id σ) = Return tt
       ∨ fst (process_receipt rnd receipt customer_id σ)
         = Raise (OverflowError "date value out of range")).
Proof.
  intros Hr Hdraws.
  destruct (receipt_draws_sample rnd Hdraws) as (sampled & Hsample & Hlen).
  destruct Hdraws as [Hk Hpos].
  destruct (sample_NoDup sample_ingredients (randint_2_5 rnd)
              (vocabulary_position rnd) sampled) as [Hnodup Hsub];
    [by_evaluation|exact Hpos|exact Hsample|].
  rewrite (process_receipt_run σ rnd receipt customer_id r sampled Hr Hsample).
  exists sampled.
  unfold datetime.add_days.
  destruct (_ && _).
  - destruct (datetime._ord2ymd _) as [[y m] dd].
    eexists. cbn [fst snd receipt_objs]. rewrite lookup_insert_eq.
    split; [reflexivity|]. cbn [processed Receipt.ingredients Receipt.ocr_text].
    repeat split; [lia|lia|lia|done..|by left].
  - eexists. cbn [fst snd receipt_objs]. rewrite lookup_insert_eq.
    split; [reflexivity|].
    cbn [half_processed processed Receipt.ingredients Receipt.ocr_text].
    repeat split; [lia|lia|lia|done..|by right].
Qed.

Lemma process_receipt_ingredients_witness :
  ∃ sampled r',
    receipt_objs (snd (process_receipt Sample.draws_milk_rice 0 (Some "c1")
                         Sample.world1)) !! 0%nat
    = Some r'
    ∧ Receipt.ingredients r' = sampled
    ∧ Z.of_nat (length sampled) = randint_2_5 Sample.draws_milk_rice
    ∧ (2 <= length sampled <= 5)%nat
    ∧ NoDup sampled
    ∧ sampled ⊆ sample_ingredients
    ∧ Receipt.ocr_text r'
      = receipt_text Sample.draws_milk_rice (Receipt.receipt_id Sample.receipt0)
          (Receipt.upload_date Sample.receipt0) sampled
    ∧ (fst (process_receipt Sample.draws_milk_rice 0 (Some "c1") Sample.world1)
       = Return tt
       ∨ fst (process_receipt Sample.draws_milk_rice 0 (Some "c1") Sample.world1)
         = Raise (OverflowError "date value out of range")).
Proof.
  apply (process_receipt_ingredients Sample.world1 Sample.draws_milk_rice 0
           (Some "c1") Sample.receipt0).
  - reflexivity.
  - split; [cbn; lia|]. split; by_evaluation.
Defined.

(** The text written for the sample receipt. *)
Example process_receipt_text_sample :
  Receipt.ocr_text
    <$> receipt_objs (snd (process_receipt Sample.draws_milk_rice 0 (Some "c1")
                             Sample.world1)) !! 0%nat
  = Some ("Receipt #r1" +:+ newline +:+ "Date: 2024-01-15" +:+ newline
          +:+ "Items:" +:+ newline
          +:+ "- Milk $1.99" +:+ newline +:+ "- Rice $11.99" +:+ newline).
Proof. vm_compute. reflexivity. Qed.

(** X11: no receipt is recognised as already stored.  Processing the same
    receipt twice for the same customer stores its reference twice, at the
    end of the customer's list, and both entries are the one object, which
    carries what the second call wrote. *)
Theorem process_receipt_twice (σ : world) (rnd1 rnd2 : receipt_draws)
    (receipt : nat) (cid : string) (l : list nat) (r : Receipt.t)
    (sampled1 sampled2 : list string) (d1 d2 : datetime.t) :
  receipt_objs σ !! receipt = Some r →
  random.sample sample_ingredients (randint_2_5 rnd1) (vocabulary_position rnd1)
  = Return sampled1 →
  random.sample sample_ingredients (randint_2_5 rnd2) (vocabulary_position rnd2)
  = Return sampled2 →
  datetime.add_days (Receipt.upload_date r) (shelf_life_offset sampled1)
  = Return d1 →
  datetime.add_days (Receipt.upload_date r) (shelf_life_offset sampled2)
  = Return d2 →
  cid ≠ "" →
  receipts (system σ) !! cid = Some l →
  py_bind (process_receipt rnd1 receipt (Some cid))
    (λ _, process_receipt rnd2 receipt (Some cid)) σ
  = (Return tt,
     mk_world
       (mk (customers (system σ)) (stores (system σ))
           (<[cid := l ++ [receipt; receipt]]> (receipts (system σ))))
       (customer_objs σ)
       (<[receipt := processed rnd2 sampled2 d2 r]> (receipt_objs σ))).
Proof.
  intros Hr Hs1 Hs2 Hd1 Hd2 Hcid Hl. unfold py_bind.
  rewrite (process_receipt_run σ rnd1 receipt (Some cid) r sampled1 Hr Hs1), Hd1.
  set (σ1 := mk_world _ _ _).
  assert (receipt_objs σ1 !! receipt = Some (processed rnd1 sampled1 d1 r)) as Hr1
    by apply lookup_insert_eq.
  rewrite (process_receipt_run σ1 rnd2 receipt (Some cid) _ sampled2 Hr1 Hs2).
  cbn [processed Receipt.upload_date]. rewrite Hd2.
  subst σ1. cbn [system customer_objs receipt_objs].
  rewrite insert_insert_eq. unfold with_receipt.
  destruct cid as [|a cid]; [done|]. cbn [str_truthy]. rewrite Hl.
  cbn [receipts customers stores]. rewrite lookup_insert_eq, insert_insert_eq.
  by rewrite <- app_assoc.
Qed.

Lemma process_receipt_twice_witness :
  py_bind (process_receipt Sample.draws_milk_rice 0 (Some "c1"))
    (λ _, process_receipt Sample.draws_rice_pasta 0 (Some "c1")) Sample.world1
  = (Return tt,
     mk_world
       (mk (customers (system Sample.world1)) (stores (system Sample.world1))
           (<["c1" := [] ++ [0%nat; 0%nat]]> (receipts (system Sample.world1))))
       (customer_objs Sample.world1)
       (<[0%nat := processed Sample.draws_rice_pasta ["rice"; "pasta"]
                     (datetime.mk 2024 1 22 10 30 0 0) Sample.receipt0]>
          (receipt_objs Sample.world1))).
Proof.
  apply (process_receipt_twice Sample.world1 Sample.draws_milk_rice
           Sample.draws_rice_pasta 0 "c1" [] Sample.receipt0 ["milk"; "rice"]
           ["rice"; "pasta"] (datetime.mk 2024 1 18 10 30 0 0)
           (datetime.mk 2024 1 22 10 30 0 0)).
  - reflexivity.
  - vm_compute. reflexivity.
  - vm_compute. reflexivity.
  - vm_compute. reflexivity.
  - vm_compute. reflexivity.
  - discriminate.
  - vm_compute. reflexivity.
Defined.

(** ** Recommendations, continued *)

(** [item.match_ingredients(l)] holds exactly when [l] and the ingredients
    of the item have a member in common. *)
Lemma match_ingredients_iff (l : list string) (item : MenuItem.t) :
  MenuItem.match_ingredients l item = true
  ↔ ∃ x, x ∈ l ∧ x ∈ MenuItem.ingredients item.
Proof.
  unfold MenuItem.match_ingredients. rewrite existsb_exists. split.
  - intros (x & Hx%list_elem_of_In & Hin%str_in_elem_of). by exists x.
  - intros (x & Hx & Hin). exists x. split.
    + by apply list_elem_of_In.
    + by apply str_in_elem_of.
Qed.

Lemma elem_of_concat {A} (x : A) (ls : list (list A)) :
  x ∈ concat ls ↔ ∃ l, x ∈ l ∧ l ∈ ls.
Proof.
  induction ls as [|l ls IH]; cbn [concat].
  - split; [by intros ?%elem_of_nil|]. by intros (l & _ & ?%elem_of_nil).
  - rewrite elem_of_app, IH. split.
    + intros [Hx|(l' & Hx & Hl')].
      * exists l. split; [done|]. by left.
      * exists l'. split; [done|]. by right.
    + intros (l' & Hx & [->|Hl']%elem_of_cons); [by left|].
      right. by exists l'.
Qed.

(** The matching test of [get_recommendations] is [match_ingredients] on
    the favourite food and the ingredients of the stored receipts. *)
Lemma item_matches_match_ingredients (c : Customer.t) (stored : list Receipt.t)
    (item : MenuItem.t) :
  item_matches (interest_set c stored) item
  ↔ MenuItem.match_ingredients
      (Customer.favorite_food c ++ concat (Receipt.ingredients <$> stored)) item
    = true.
Proof.
  rewrite match_ingredients_iff. unfold item_matches. rewrite Exists_exists.
  split.
  - intros (x & Hin & Hx). exists x. split; [|done].
    apply elem_of_interest_set in Hx as [Hx|(r & Hr & Hx)]; apply elem_of_app.
    + by left.
    + right. apply elem_of_concat. exists (Receipt.ingredients r).
      split; [done|]. apply list_elem_of_fmap. by exists r.
  - intros (x & Hx & Hin). exists x. split; [done|].
    apply elem_of_interest_set.
    apply elem_of_app in Hx as [Hx|Hx]; [by left|right].
    apply elem_of_concat in Hx as (ing & Hx & (r & -> & Hr)%list_elem_of_fmap).
    by exists r.
Qed.

(** The first three of a list sorted by decreasing key: an element is among
    them, or three elements with at least its key are. *)
Lemma take_3_sorted {A} (key : A → nat) (sorted : list A) (x : A) :
  StronglySorted (λ a b, (key b <= key a)%nat) sorted →
  x ∈ sorted →
  x ∈ take 3 sorted
  ∨ (length (take 3 sorted) = 3%nat
     ∧ Forall (λ y, (key x <= key y)%nat) (take 3 sorted)).
Proof.
  intros Hsorted Hx. rewrite <- (take_drop 3 sorted) in Hx, Hsorted.
  apply elem_of_app in Hx as [Hx|Hx]; [by left|right]. split.
  - rewrite length_take. apply list_elem_of_lookup in Hx as [i Hi].
    apply lookup_lt_Some in Hi. rewrite length_drop in Hi. lia.
  - apply Forall_forall. intros y Hy.
    by apply (StronglySorted_app_1_elem_of _ _ _ y x Hsorted).
Qed.

(** The ranked answer of [get_recommendations]. *)
Lemma get_recommendations_ranked (σ : world) (customer : nat) (c : Customer.t)
    (stored : list Receipt.t) :
  customer_objs σ !! customer = Some c →
  stored_receipts σ c stored →
  let interest := interest_set c stored in
  let matching := filter (item_matches interest) (candidate_pool (system σ)) in
  matching ≠ [] →
  ∃ items,
    (∀ rnd, get_recommendations rnd customer σ = (Return items, σ))
    ∧ length items = (3 `min` length matching)%nat
    ∧ items ⊆ matching
    ∧ ∀ item, item ∈ matching →
        item ∈ items
        ∨ (length items = 3%nat
           ∧ Forall (λ it, (overlap_count interest item
                            <= overlap_count interest it)%nat) items).
Proof.
  intros Hc Hstored interest matching Hmatching.
  exists (take 3 (sort_reverse (overlap_count interest) matching)).
  split; [|split; [|split]].
  - intros rnd.
    rewrite (get_recommendations_run σ rnd customer c stored Hc Hstored).
    fold interest. fold matching.
    destruct (candidate_pool (system σ)) as [|item pool] eqn:Hpool; [done|].
    by destruct matching.
  - by rewrite length_take, sort_reverse_length.
  - intros x (i & Hi%list_elem_of_lookup_2 & _)%elem_of_take.
    by rewrite sort_reverse_perm in Hi.
  - intros item Hitem. apply take_3_sorted; [apply sort_reverse_sorted|].
    by rewrite sort_reverse_perm.
Qed.

(** X12: [get_recommendations] ranks the items on which
    [MenuItem.match_ingredients] holds for the customer's favourite food and
    the ingredients of the customer's stored receipts.  When there is such
    an item in a store the answer does not depend on the random generator:
    it has [min 3 (number of such items)] items, everyone of them such an
    item, and an item of this kind is left out only when three returned
    items contain at least as many of the customer's ingredients.  When
    there are items and none is of this kind, the answer is the random
    sample of all items. *)
Theorem get_recommendations_match_ingredients (σ : world) (customer : nat)
    (c : Customer.t) (stored : list Receipt.t) :
  customer_objs σ !! customer = Some c →
  stored_receipts σ c stored →
  let pool := candidate_pool (system σ) in
  let mine :=
    Customer.favorite_food c ++ concat (Receipt.ingredients <$> stored) in
  let matching :=
    filter (λ item, MenuItem.match_ingredients mine item = true) pool in
  (matching ≠ [] →
   ∃ items,
     (∀ rnd, get_recommendations rnd customer σ = (Return items, σ))
     ∧ length items = (3 `min` length matching)%nat
     ∧ items ⊆ matching
     ∧ ∀ item, item ∈ matching →
         item ∈ items
         ∨ (length items = 3%nat
            ∧ Forall (λ it, (overlap_count (interest_set c stored) item
                             <= overlap_count (interest_set c stored) it)%nat)
                items))
  ∧ (matching = [] → pool ≠ [] →
     ∀ rnd, get_recommendations rnd customer σ
            = (random.sample pool
                 (Z.min (Z.of_nat (length pool)) (randint_1_3 rnd))
                 (menu_position rnd), σ)).
Proof.
  intros Hc Hstored pool mine matching.
  assert (matching = filter (item_matches (interest_set c stored)) pool) as Heq.
  { apply list_filter_iff. intros item. symmetry.
    apply item_matches_match_ingredients. }
  split.
  - rewrite Heq. by apply get_recommendations_ranked.
  - intros Hnone Hpool rnd. rewrite Heq in Hnone.
    rewrite (get_recommendations_run σ rnd customer c stored Hc Hstored).
    fold pool. rewrite Hnone. by destruct pool.
Qed.

Lemma get_recommendations_match_ingredients_witness :
  ∃ items,
    (∀ rnd, get_recommendations rnd 0 Sample.world1 = (Return items, Sample.world1))
    ∧ length items = 2%nat.
Proof.
  destruct (get_recommendations_match_ingredients Sample.world1 0 Sample.alice [])
    as [Hranked _].
  - reflexivity.
  - red. vm_compute. constructor.
  - destruct Hranked as (items & Hrun & Hlen & _).
    + vm_compute. discriminate.
    + exists items. split; [exact Hrun|]. rewrite Hlen. vm_compute. reflexivity.
Defined.

(** X13: a purchase feeds the recommendations.  After [process_receipt] has
    stored a receipt for a customer, a menu item that lists one of the
    sampled ingredients makes the recommendations for that customer
    independent of the random generator: the answer is not empty, has at
    most three items, and holds that menu item unless three returned items
    contain at least as many of the customer's ingredients. *)
Theorem process_receipt_then_recommend (σ : world) (rnd : receipt_draws)
    (receipt customer : nat) (c : Customer.t) (l : list nat) (r : Receipt.t)
    (sampled : list string) (d : datetime.t) (item : MenuItem.t) (ing : string) :
  closed σ →
  receipt_objs σ !! receipt = Some r →
  random.sample sample_ingredients (randint_2_5 rnd) (vocabulary_position rnd)
  = Return sampled →
  datetime.add_days (Receipt.upload_date r) (shelf_life_offset sampled) = Return d →
  customer_objs σ !! customer = Some c →
  Customer.customer_id c ≠ "" →
  receipts (system σ) !! Customer.customer_id c = Some l →
  item ∈ candidate_pool (system σ) →
  ing ∈ sampled → ing ∈ MenuItem.ingredients item →
  ∃ σ1 stored items,
    process_receipt rnd receipt (Some (Customer.customer_id c)) σ = (Return tt, σ1)
    ∧ stored_receipts σ1 c stored
    ∧ processed rnd sampled d r ∈ stored
    ∧ (∀ rnd', get_recommendations rnd' customer σ1 = (Return items, σ1))
    ∧ (1 <= length items <= 3)%nat
    ∧ Forall (λ it, it ∈ candidate_pool (system σ)
                    ∧ item_matches (interest_set c stored) it) items
    ∧ (item ∈ items
       ∨ (length items = 3%nat
          ∧ Forall (λ it, (overlap_count (interest_set c stored) item
                           <= overlap_count (interest_set c stored) it)%nat)
              items)).
Proof.
  intros [_ Hclosed] Hr Hsample Hd Hc Hcid Hl Hitem Hing Hin.
  rewrite (process_receipt_run σ rnd receipt _ r sampled Hr Hsample), Hd.
  set (σ1 := mk_world _ _ _).
  assert (receipts (system σ1) !! Customer.customer_id c = Some (l ++ [receipt]))
    as Hl1.
  { subst σ1. cbn [system]. unfold with_receipt.
    destruct (Customer.customer_id c) as [|a cid] eqn:Hid; [done|].
    cbn [str_truthy]. rewrite Hl. cbn [receipts]. apply lookup_insert_eq. }
  assert (candidate_pool (system σ1) = candidate_pool (system σ)) as Hpool.
  { subst σ1. cbn [system]. unfold candidate_pool.
    by destruct (with_receipt_frame receipt (Some (Customer.customer_id c))
                   (system σ)) as [_ ->]. }
  assert (Forall (λ r0, is_Some (receipt_objs σ1 !! r0)) (l ++ [receipt])) as Hobjs.
  { apply Forall_app. split.
    - eapply Forall_impl; [exact (Hclosed _ _ Hl)|]. cbn. intros r0 [v Hv].
      destruct (decide (receipt = r0)) as [->|Hne].
      + rewrite lookup_insert_eq. by eexists.
      + rewrite lookup_insert_ne by done. by eexists.
    - repeat constructor. cbn. rewrite lookup_insert_eq. by eexists. }
  destruct (Forall_is_Some_Forall2 _ _ Hobjs) as [stored Hstored].
  assert (stored_receipts σ1 c stored) as Hstored1.
  { unfold stored_receipts. by rewrite Hl1. }
  assert (processed rnd sampled d r ∈ stored) as Hnew.
  { destruct (Forall2_lookup_l _ _ _ _ _ Hstored
                (list_lookup_middle l [] receipt (length l) eq_refl)) as (v & Hv & Hobj).
    cbn in Hobj. rewrite lookup_insert_eq in Hobj. injection Hobj as <-.
    by eapply list_elem_of_lookup_2. }
  assert (item_matches (interest_set c stored) item) as Hmatch.
  { apply Exists_exists. exists ing. split; [done|].
    apply elem_of_interest_set. right. by exists (processed rnd sampled d r). }
  assert (item ∈ filter (item_matches (interest_set c stored))
                   (candidate_pool (system σ1))) as Hmatching.
  { apply list_elem_of_filter. by rewrite Hpool. }
  destruct (get_recommendations_ranked σ1 customer c stored Hc Hstored1)
    as (items & Hrun & Hlen & Hsub & Hbest).
  { intros Hnil. rewrite Hnil in Hmatching. by apply elem_of_nil in Hmatching. }
  exists σ1, stored, items.
  split; [reflexivity|]. split; [exact Hstored1|]. split; [exact Hnew|].
  split; [exact Hrun|]. split; [|split].
  - apply list_elem_of_lookup in Hmatching as [i Hi].
    apply lookup_lt_Some in Hi. lia.
  - apply Forall_forall. intros it Hit%Hsub.
    apply list_elem_of_filter in Hit as [Hm Hp]. by rewrite Hpool in Hp.
  - by apply Hbest.
Qed.

Lemma process_receipt_then_recommend_witness :
  ∃ σ1 stored items,
    process_receipt Sample.draws_milk_rice 0
      (Some (Customer.customer_id Sample.alice)) Sample.world1
    = (Return tt, σ1)
    ∧ stored_receipts σ1 Sample.alice stored
    ∧ processed Sample.draws_milk_rice ["milk"; "rice"]
        (datetime.mk 2024 1 18 10 30 0 0) Sample.receipt0 ∈ stored
    ∧ (∀ rnd', get_recommendations rnd' 0 σ1 = (Return items, σ1))
    ∧ (1 <= length items <= 3)%nat
    ∧ Forall (λ it, it ∈ candidate_pool (system Sample.world1)
                    ∧ item_matches (interest_set Sample.alice stored) it) items
    ∧ (Sample.omelette ∈ items
       ∨ (length items = 3%nat
          ∧ Forall (λ it, (overlap_count (interest_set Sample.alice stored)
                             Sample.omelette
                           <= overlap_count (interest_set Sample.alice stored)
                                it)%nat)
              items)).
Proof.
  apply (process_receipt_then_recommend Sample.world1 Sample.draws_milk_rice 0 0
           Sample.alice [] Sample.receipt0 ["milk"; "rice"]
           (datetime.mk 2024 1 18 10 30 0 0) Sample.omelette "milk").
  - by_evaluation.
  - reflexivity.
  - vm_compute. reflexivity.
  - vm_compute. reflexivity.
  - reflexivity.
  - discriminate.
  - vm_compute. reflexivity.
  - change (Sample.omelette ∈ [Sample.toast; Sample.salad; Sample.omelette]).
    do 2 apply list_elem_of_further. apply list_elem_of_here.
  - by_evaluation.
  - by_evaluation.
Defined.

(** ** Store links *)

Lemma string_app_inj (p s1 s2 : string) : p +:+ s1 = p +:+ s2 → s1 = s2.
Proof.
  induction p as [|a p IH]; [done|].
  change (String a (p +:+ s1) = String a (p +:+ s2) → s1 = s2).
  intros [= H]. by apply IH.
Qed.

Lemma NoDup_fmap_elem_of {A B} (f : A → B) (l : list A) (x y : A) :
  NoDup (f <$> l) → x ∈ l → y ∈ l → f x = f y → x = y.
Proof.
  intros Hnodup [i Hi]%list_elem_of_lookup [j Hj]%list_elem_of_lookup Hf.
  assert (i = j) as ->; [|congruence].
  eapply NoDup_lookup; [exact Hnodup| |].
  - rewrite list_lookup_fmap, Hi. reflexivity.
  - rewrite list_lookup_fmap, Hj, Hf. reflexivity.
Qed.

(** X14: a store link names one store.  In a system whose stores have
    pairwise distinct ids, as [add_store] keeps them, the links of the
    stores are pairwise distinct, and two stores of the system with the same
    link are the same store. *)
Theorem store_links_unique (σ : world) :
  unique_ids σ →
  NoDup (Store.get_store_link <$> stores (system σ))
  ∧ ∀ s1 s2, s1 ∈ stores (system σ) → s2 ∈ stores (system σ) →
             Store.get_store_link s1 = Store.get_store_link s2 → s1 = s2.
Proof.
  intros [_ Hids]. split.
  - assert (Store.get_store_link <$> stores (system σ)
            = (λ i, "https://www.example.com/store/" +:+ i)
                <$> (Store.store_id <$> stores (system σ))) as ->.
    { rewrite <- list_fmap_compose. reflexivity. }
    apply NoDup_fmap_2; [|exact Hids]. intros i1 i2. apply string_app_inj.
  - intros s1 s2 H1 H2 Hlink. eapply NoDup_fmap_elem_of; [exact Hids|done..|].
    by apply string_app_inj in Hlink.
Qed.

Lemma store_links_unique_witness :
  NoDup (Store.get_store_link <$> stores (system Sample.world_full)).
Proof.
  exact (proj1 (store_links_unique Sample.world_full
                  sample_world_full_unique_ids)).
Defined.

Example get_store_link_sample :
  Store.get_store_link Sample.corner_store = "https://www.example.com/store/s1".
Proof. reflexivity. Qed.

(** ** Loading an entity from a dictionary *)

(** X15: what [Customer.from_dict] reads and what it fills in.  Without the
    key [customer_id] it raises [KeyError].  For a dictionary that holds
    strings under [customer_id], [email], [gender] and [address], the
    [isoformat()] text of a datetime under [birthdate], and a list of
    strings or [None] under [favorite_food], it returns the customer with
    these values, [None] giving the empty list; the purchase history is
    empty; [password_hash] and [salt] are the string stored, or [None] when
    the key is missing or holds [None]; [last_login] is the datetime whose
    [isoformat()] text is stored, or [None] when the key is missing or holds
    a false value.  A customer loaded without hash or without salt verifies
    no password. *)
Theorem Customer_from_dict_fields (items : list (string * pyval))
    (cid em g a : string) (b : datetime.t) (ff : option (list string))
    (h s : option string) (ll : option datetime.t) :
  (dict_lookup "customer_id" items = None →
   Customer.from_dict (PDict items) = Raise (KeyError "customer_id"))
  ∧ (dict_lookup "customer_id" items = Some (PStr cid) →
     dict_lookup "email" items = Some (PStr em) →
     dict_lookup "birthdate" items = Some (PStr (datetime.isoformat b)) →
     datetime.valid b →
     dict_lookup "gender" items = Some (PStr g) →
     dict_lookup "address" items = Some (PStr a) →
     dict_lookup "favorite_food" items
     = Some (match ff with Some l => PList (PStr <$> l) | None => PNone end) →
     get_opt_str items "password_hash" h →
     get_opt_str items "salt" s →
     match ll with
     | Some d =>
         dict_lookup "last_login" items = Some (PStr (datetime.isoformat d))
         ∧ datetime.valid d
     | None => missing_or_false items "last_login"
     end →
     Customer.from_dict (PDict items)
     = Return (Customer.mk cid em b g a (default [] ff) [] h s ll)
     ∧ (h = None ∨ s = None →
        ∀ q, Customer.verify_password q
               (Customer.mk cid em b g a (default [] ff) [] h s ll)
             = Return false)).
Proof.
  split.
  - intros Hcid. unfold Customer.from_dict. cbn [getitem]. by rewrite Hcid.
  - intros Hcid Hem Hb Hvalid Hg Ha Hff Hh Hs Hll. split.
    + unfold Customer.from_dict. cbn [getitem get].
      rewrite Hcid, Hem, Hb, Hg, Ha, Hff.
      cbn [mbind outcome_mbind outcome_bind as_str].
      rewrite (fromisoformat_isoformat b Hvalid).
      cbn [mbind outcome_mbind outcome_bind].
      assert ((match ff with Some l => PList (PStr <$> l) | None => PNone end
               = PNone ∧ ff = None)
              ∨ ∃ l, ff = Some l) as [[-> ->]|[l ->]]
        by (destruct ff; [right; by eexists|by left]).
      * unfold get_opt_str in Hh, Hs.
        assert (match dict_lookup "password_hash" items with
                | Some v => Return v | None => Return PNone end ≫= as_opt_str
                = Return h) as ->.
        { destruct (dict_lookup "password_hash" items) as [[]|]; by subst. }
        assert (match dict_lookup "salt" items with
                | Some v => Return v | None => Return PNone end ≫= as_opt_str
                = Return s) as ->.
        { destruct (dict_lookup "salt" items) as [[]|]; by subst. }
        cbn [mbind outcome_mbind outcome_bind].
        destruct ll as [d|].
        -- destruct Hll as [-> Hd]. cbn [mbind outcome_mbind outcome_bind py_truthy].
           rewrite isoformat_truthy. cbn [mbind outcome_mbind outcome_bind as_str].
           by rewrite (fromisoformat_isoformat d Hd).
        -- unfold missing_or_false in Hll.
           destruct (dict_lookup "last_login" items) as [v|].
           ++ cbn [mbind outcome_mbind outcome_bind]. by rewrite Hll.
           ++ reflexivity.
      * rewrite as_str_list_strings. cbn [mbind outcome_mbind outcome_bind].
        unfold get_opt_str in Hh, Hs.
        assert (match dict_lookup "password_hash" items with
                | Some v => Return v | None => Return PNone end ≫= as_opt_str
                = Return h) as ->.
        { destruct (dict_lookup "password_hash" items) as [[]|]; by subst. }
        assert (match dict_lookup "salt" items with
                | Some v => Return v | None => Return PNone end ≫= as_opt_str
                = Return s) as ->.
        { destruct (dict_lookup "salt" items) as [[]|]; by subst. }
        cbn [mbind outcome_mbind outcome_bind].
        destruct ll as [d|].
        -- destruct Hll as [-> Hd]. cbn [mbind outcome_mbind outcome_bind py_truthy].
           rewrite isoformat_truthy. cbn [mbind outcome_mbind outcome_bind as_str].
           by rewrite (fromisoformat_isoformat d Hd).
        -- unfold missing_or_false in Hll.
           destruct (dict_lookup "last_login" items) as [v|].
           ++ cbn [mbind outcome_mbind outcome_bind]. by rewrite Hll.
           ++ reflexivity.
    + intros Hmissing q. rewrite verify_password_cases.
      cbn [Customer.password_hash Customer.salt].
      destruct Hmissing as [-> | ->]; [reflexivity|by destruct h].
Qed.

Lemma Customer_from_dict_fields_witness :
  Customer.from_dict (PDict Sample.legacy_customer_dict)
  = Return (Customer.mk "c9" "old@example.com" (datetime.mk 1990 5 17 0 0 0 0)
              "f" "9 Side St" [] [] None None None)
  ∧ ∀ q, Customer.verify_password q
           (Customer.mk "c9" "old@example.com" (datetime.mk 1990 5 17 0 0 0 0)
              "f" "9 Side St" [] [] None None None)
         = Return false.
Proof.
  destruct (proj2 (Customer_from_dict_fields Sample.legacy_customer_dict
                     "c9" "old@example.com" "f" "9 Side St"
                     (datetime.mk 1990 5 17 0 0 0 0) None None None None))
    as [Hload Hverify]; [vm_compute; reflexivity..|].
  split; [exact Hload|]. apply Hverify. by left.
Defined.

(** X16: what [Receipt.from_dict] reads and what it fills in.  For a
    dictionary that holds strings under [receipt_id] and [ocr_text], the
    [isoformat()] texts of datetimes under [upload_date] and [shelf_life],
    a list of strings under [ingredients] and an integer under [quantity],
    it returns the receipt with these values; the image is [None] when the
    key [image_data] is missing or holds a false value, and what
    [b64decode] makes of the string when it holds a string that is not
    empty.  Without the keys [image_data] and [receipt_id] it raises
    [KeyError] for [receipt_id]. *)
Theorem Receipt_from_dict_fields (items : list (string * pyval))
    (rid text : string) (u sl : datetime.t) (ing : list string) (q : Z)
    (img : option (list byte)) :
  (dict_lookup "image_data" items = None →
   dict_lookup "receipt_id" items = None →
   Receipt.from_dict (PDict items) = Raise (KeyError "receipt_id"))
  ∧ (dict_lookup "receipt_id" items = Some (PStr rid) →
     dict_lookup "upload_date" items = Some (PStr (datetime.isoformat u)) →
     datetime.valid u →
     dict_lookup "ocr_text" items = Some (PStr text) →
     dict_lookup "ingredients" items = Some (PList (PStr <$> ing)) →
     dict_lookup "quantity" items = Some (PInt q) →
     dict_lookup "shelf_life" items = Some (PStr (datetime.isoformat sl)) →
     datetime.valid sl →
     match img with
     | Some bs =>
         ∃ s, dict_lookup "image_data" items = Some (PStr s) ∧ s ≠ ""
              ∧ base64.b64decode s = Return bs
     | None => missing_or_false items "image_data"
     end →
     Receipt.from_dict (PDict items)
     = Return (Receipt.mk rid u img text ing q sl)).
Proof.
  split.
  - intros Himg Hrid. unfold Receipt.from_dict. cbn [getitem get].
    rewrite Himg. cbn [mbind outcome_mbind outcome_bind py_truthy].
    by rewrite Hrid.
  - intros Hrid Hu Hvu Htext Hing Hq Hsl Hvsl Himg.
    assert (Receipt.from_dict (PDict items)
            = (receipt_id ← Return rid;
               upload_date ← Return u;
               ocr_text ← Return text;
               ingredients ← Return ing;
               quantity ← Return q;
               shelf_life ← Return sl;
               Return (Receipt.mk receipt_id upload_date img ocr_text
                         ingredients quantity shelf_life))) as ->;
      [|reflexivity].
    unfold Receipt.from_dict. cbn [getitem get].
    rewrite Hrid, Hu, Htext, Hing, Hq, Hsl.
    cbn [mbind outcome_mbind outcome_bind as_str as_int].
    rewrite (fromisoformat_isoformat u Hvu), (fromisoformat_isoformat sl Hvsl).
    rewrite as_str_list_strings.
    destruct img as [bs|].
    + destruct Himg as (s & -> & Hne & Hbs).
      cbn [mbind outcome_mbind outcome_bind py_truthy as_str].
      destruct s; [done|]. cbn [str_truthy].
      cbn [mbind outcome_mbind outcome_bind]. by rewrite Hbs.
    + unfold missing_or_false in Himg.
      destruct (dict_lookup "image_data" items) as [v|].
      * cbn [mbind outcome_mbind outcome_bind]. by rewrite Himg.
      * reflexivity.
Qed.

Lemma Receipt_from_dict_fields_witness :
  Receipt.from_dict (PDict Sample.bare_receipt_dict)
  = Return (Receipt.mk "r7" (datetime.mk 2024 3 1 9 15 0 0) None "" ["rice"] 1
              (datetime.mk 2024 3 8 9 15 0 0)).
Proof.
  apply (proj2 (Receipt_from_dict_fields Sample.bare_receipt_dict "r7" ""
                  (datetime.mk 2024 3 1 9 15 0 0) (datetime.mk 2024 3 8 9 15 0 0)
                  ["rice"] 1 None));
    vm_compute; reflexivity.
Defined.

(** ** What a dictionary keeps *)

(** X17: the dictionary of a receipt gives back the receipt with an empty
    image replaced by [None], and nothing else changed; saving that receipt
    writes the same dictionary again. *)
Theorem Receipt_from_dict_to_dict_saved (r : Receipt.t) :
  datetime.valid (Receipt.upload_date r) →
  datetime.valid (Receipt.shelf_life r) →
  Receipt.from_dict (Receipt.to_dict r) = Return (saved_receipt r)
  ∧ Receipt.to_dict (saved_receipt r) = Receipt.to_dict r
  ∧ (saved_receipt r = r ↔ Receipt.image_data r ≠ Some []).
Proof.
  intros Hupload Hshelf.
  assert (Receipt.to_dict (saved_receipt r) = Receipt.to_dict r) as Hsame.
  { destruct r as [rid upload [[|b bs]|] text ing q shelf]; reflexivity. }
  split; [|split; [exact Hsame|]].
  - rewrite <- Hsame. apply Receipt_from_dict_to_dict; [done..|].
    destruct r as [rid upload [[|b bs]|] text ing q shelf]; discriminate.
  - destruct r as [rid upload [[|b bs]|] text ing q shelf];
      cbn [saved_receipt Receipt.image_truthy Receipt.image_data
           Receipt.receipt_id Receipt.upload_date Receipt.ocr_text
           Receipt.ingredients Receipt.quantity Receipt.shelf_life];
      split; intros H; first [done | by destruct H].
Qed.

Lemma Receipt_from_dict_to_dict_saved_witness :
  Receipt.from_dict (Receipt.to_dict Sample.receipt_empty_image)
  = Return (saved_receipt Sample.receipt_empty_image).
Proof.
  refine (proj1 (Receipt_from_dict_to_dict_saved Sample.receipt_empty_image _ _));
    vm_compute; reflexivity.
Defined.

(** X18: the dictionary of a customer gives back the customer with an empty
    purchase history, and nothing else changed; saving that customer writes
    the same dictionary again. *)
Theorem Customer_from_dict_to_dict_saved (c : Customer.t) :
  datetime.valid (Customer.birthdate c) →
  (∀ d, Customer.last_login c = Some d → datetime.valid d) →
  Customer.from_dict (Customer.to_dict c) = Return (saved_customer c)
  ∧ Customer.to_dict (saved_customer c) = Customer.to_dict c
  ∧ (saved_customer c = c ↔ Customer.purchase_history c = []).
Proof.
  intros Hbirth Hlogin.
  split; [|split; [reflexivity|]].
  - change (Customer.to_dict c) with (Customer.to_dict (saved_customer c)).
    by apply Customer_from_dict_to_dict.
  - destruct c as [cid email birth gender addr ff ph hash salt login].
    unfold saved_customer. cbn [Customer.customer_id Customer.email
      Customer.birthdate Customer.gender Customer.address Customer.favorite_food
      Customer.purchase_history Customer.password_hash Customer.salt
      Customer.last_login].
    split; [by intros [= <-]|by intros ->].
Qed.

Lemma Customer_from_dict_to_dict_saved_witness :
  Customer.from_dict (Customer.to_dict Sample.alice_with_history)
  = Return (saved_customer Sample.alice_with_history).
Proof.
  refine (proj1 (Customer_from_dict_to_dict_saved Sample.alice_with_history _ _)).
  - vm_compute. reflexivity.
  - intros d [=].
Defined.

(** X19: a store and its menu items come back from their dictionaries as
    they are: [Store.from_dict] reads what [Store.to_dict] writes, item by
    item with [MenuItem.from_dict], and two stores with the same dictionary
    are the same store. *)
Theorem Store_from_dict_to_dict_all (store : Store.t) :
  Store.from_dict (Store.to_dict store) = Return store
  ∧ Forall (λ item, MenuItem.from_dict (MenuItem.to_dict item) = Return item)
      (Store.menu_items store)
  ∧ ∀ store', Store.to_dict store' = Store.to_dict store → store' = store.
Proof.
  split; [apply Store_from_dict_to_dict|]. split.
  - apply Forall_forall. intros item _. apply MenuItem_from_dict_to_dict.
  - intros store' Heq.
    pose proof (Store_from_dict_to_dict store') as H'.
    rewrite Heq, Store_from_dict_to_dict in H'. congruence.
Qed.

(** ** Loading a snapshot, continued *)

Lemma dict_lookup_app (key : string) (l1 l2 : list (string * pyval)) :
  dict_lookup key (l1 ++ l2)
  = match dict_lookup key l1 with
    | Some v => Some v
    | None => dict_lookup key l2
    end.
Proof.
  unfold dict_lookup. induction l1 as [|[k v] l1 IH]; cbn [app find fst].
  - by destruct (find _ l2).
  - destruct (String.eqb k key); [reflexivity|exact IH].
Qed.

(** A key that is missing and read with a default behaves like the key with
    the default as its value. *)
Lemma get_app_default (items defaults : list (string * pyval)) (key : string)
    (d : pyval) :
  dict_lookup key defaults = Some d →
  get (PDict (items ++ defaults)) key d = get (PDict items) key d.
Proof.
  intros Hd. cbn [get]. rewrite dict_lookup_app, Hd.
  by destruct (dict_lookup key items).
Qed.

(** X20: every key of a snapshot is optional.  [ReceiptSystem.from_dict]
    reads a dictionary without the key [stores], [customers] or [receipts]
    as if the key were there with an empty list or an empty dictionary; so
    the empty dictionary loads as the empty system and creates no
    object. *)
Theorem from_dict_missing_keys (items : list (string * pyval)) (σ : world) :
  from_dict (PDict items) σ
  = from_dict (PDict (items ++ [("stores", PList []); ("customers", PList []);
                                ("receipts", PDict [])])) σ
  ∧ from_dict (PDict []) σ = (Return __init__, σ).
Proof.
  split; [|reflexivity].
  unfold from_dict, py_bind, lift.
  by rewrite !get_app_default.
Qed.

(** A snapshot with customers only. *)
Example from_dict_customers_only :
  ∃ σ', from_dict Sample.snapshot_without_receipts Sample.empty_world
        = (Return (mk [0%nat] [] ∅), σ')
        ∧ customer_objs σ' !! 0%nat = Some Sample.alice.
Proof. eexists. split; vm_compute; reflexivity. Qed.






(** ** The snapshot round trip, in general *)

Lemma to_dict_saved_receipt (r : Receipt.t) :
  Receipt.to_dict (saved_receipt r) = Receipt.to_dict r.
Proof. destruct r as [rid upload [[|b bs]|] text ing q shelf]; reflexivity. Qed.

Lemma saved_receipt_from_dict (r : Receipt.t) :
  datetime.valid (Receipt.upload_date r) →
  datetime.valid (Receipt.shelf_life r) →
  Receipt.from_dict (Receipt.to_dict (saved_receipt r)) = Return (saved_receipt r).
Proof.
  intros Hupload Hshelf. apply Receipt_from_dict_to_dict; [done..|].
  destruct r as [rid upload [[|b bs]|] text ing q shelf]; discriminate.
Qed.

(** Saving a closed world whose timestamps are datetimes and loading the
    snapshot: both calls return, and the loaded system holds what the
    snapshot keeps of the saved one. *)
Lemma from_dict_to_dict_saved (σ : world) :
  closed σ →
  datetimes_valid σ →
  ∃ data s' cobjs robjs,
    to_dict σ = (Return data, σ)
    ∧ from_dict data σ = (Return s', mk_world (system σ) cobjs robjs)
    ∧ contents (mk_world (system σ) cobjs robjs) s'
      = saved_contents (contents σ (system σ)).
Proof.
  intros Hclosed [Hvalid_c Hvalid_r].
  destruct (closed_customers σ Hclosed) as [cs Hcs].
  destruct (closed_receipts σ Hclosed) as [ents Hents].
  set (cs' := saved_customer <$> cs).
  set (ents' := (λ e : string * list Receipt.t, (e.1, saved_receipt <$> e.2))
                  <$> ents).
  assert (Forall (λ c, Customer.from_dict (Customer.to_dict c) = Return c) cs')
    as Hcs_ok.
  { apply Forall_fmap, Forall_lookup. intros i c Hi. cbn [compose].
    destruct (Forall2_lookup_r _ _ _ _ _ Hcs Hi) as (r & Hr & Hc).
    destruct (Hvalid_c r c) as [Hb Hl]; [by eapply list_elem_of_lookup_2|done|].
    apply (Customer_from_dict_to_dict (saved_customer c));
      [exact Hb|exact Hl|reflexivity]. }
  assert (Forall (λ e, Forall (λ v, Receipt.from_dict (Receipt.to_dict v)
                                    = Return v) e.2) ents') as Hents_ok.
  { apply Forall_fmap, Forall_lookup. intros i [cid rs] Hi. cbn [compose snd].
    destruct (Forall2_lookup_r _ _ _ _ _ Hents Hi) as ([cid' l] & Hkl & Hcid & Hl).
    cbn [fst snd] in *. subst cid'.
    apply list_elem_of_lookup_2, elem_of_map_to_list in Hkl.
    apply Forall_fmap, Forall_lookup. intros j v Hj. cbn [compose].
    destruct (Forall2_lookup_r _ _ _ _ _ Hl Hj) as (r & Hr & Hv).
    destruct (Hvalid_r cid l r v) as [Hu Hs];
      [done|by eapply list_elem_of_lookup_2|done|].
    by apply saved_receipt_from_dict. }
  assert (fst <$> ents' = (map_to_list (receipts (system σ))).*1) as Hkeys.
  { unfold ents'. rewrite <- list_fmap_compose.
    clear -Hents. induction Hents as [|kl e kls ents [He _] _ IH]; [done|].
    cbn [fmap list_fmap compose fst] in *. by rewrite He, IH. }
  assert (Customer.to_dict <$> cs = Customer.to_dict <$> cs') as Hdict_c.
  { unfold cs'. by rewrite <- list_fmap_compose. }
  assert (receipts_entry <$> ents = receipts_entry <$> ents') as Hdict_r.
  { unfold ents'. rewrite <- list_fmap_compose. apply list_fmap_ext.
    intros i [cid rs] _. unfold receipts_entry. cbn [compose fst snd].
    do 2 f_equal. rewrite <- list_fmap_compose. apply list_fmap_ext.
    intros j v _. cbn. symmetry. apply to_dict_saved_receipt. }
  destruct (load_customers_run σ cs' Hcs_ok)
    as (refs & cobjs & Hload_c & Hsub_c & Hrefs).
  destruct (load_receipts_run (mk_world (system σ) cobjs (receipt_objs σ)) ∅ ents'
              Hents_ok) as (acc & robjs & Hload_r & Hsub_r & Hother & Hall).
  { rewrite Hkeys. apply NoDup_fst_map_to_list. }
  cbn [system customer_objs receipt_objs] in Hload_r, Hsub_r.
  eexists _, (mk refs (stores (system σ)) acc), cobjs, robjs.
  split; [exact (to_dict_run σ cs ents Hcs Hents)|]. split.
  - rewrite Hdict_c, Hdict_r. unfold from_dict.
    unfold py_bind at 1. unfold lift at 1. eval_dict.
    unfold py_bind at 1. unfold lift at 1.
    rewrite (outcome_map_from_dict Store.to_dict Store.from_dict)
      by (apply Forall_forall; intros; apply Store_from_dict_to_dict).
    unfold py_bind at 1. unfold lift at 1. eval_dict.
    unfold py_bind at 1. rewrite Hload_c.
    unfold py_bind at 1. unfold lift at 1. eval_dict. cbn [as_items].
    unfold py_bind at 1. rewrite Hload_r. reflexivity.
  - unfold contents, saved_contents.
    cbn [customers stores receipts customer_objs receipt_objs fst snd].
    f_equal; [f_equal|].
    + rewrite (mapM_Some_2 _ _ _ Hrefs), (mapM_Some_2 _ _ _ Hcs). reflexivity.
    + apply map_eq. intros cid. rewrite !lookup_fmap.
      destruct (receipts (system σ) !! cid) as [l|] eqn:Hl.
      * apply elem_of_map_to_list, list_elem_of_lookup in Hl as [i Hi].
        destruct (Forall2_lookup_l _ _ _ _ _ Hents Hi) as ([cid' rs] & He & Hcid & Hrs).
        cbn [fst snd] in Hcid, Hrs. subst cid'.
        assert ((cid, saved_receipt <$> rs) ∈ ents') as He'.
        { apply list_elem_of_fmap. exists (cid, rs).
          split; [reflexivity|by eapply list_elem_of_lookup_2]. }
        rewrite Forall_forall in Hall. destruct (Hall _ He') as (refs' & Hacc & Hrefs').
        cbn [fst snd] in Hacc, Hrefs'. rewrite Hacc. cbn.
        rewrite (mapM_Some_2 _ _ _ Hrefs'), (mapM_Some_2 _ _ _ Hrs). reflexivity.
      * rewrite Hother; [by rewrite lookup_empty|].
        rewrite Hkeys. intros ([cid' l] & -> & Hin%elem_of_map_to_list)%list_elem_of_fmap.
        cbn in Hl. congruence.
Qed.

(** X22: the round trip through a snapshot, for every system.  For a system
    whose timestamps are datetimes, [to_dict] returns a snapshot and
    [from_dict] returns from it a system with the same stores, the same
    customers in the same order but with an empty purchase history, and the
    same receipt lists under the same keys but with every empty image
    replaced by [None]; nothing else differs. *)
Theorem to_dict_from_dict_saved (σ : world) :
  closed σ →
  datetimes_valid σ →
  ∃ data s' σ',
    to_dict σ = (Return data, σ)
    ∧ from_dict data σ = (Return s', σ')
    ∧ contents σ' s' = saved_contents (contents σ (system σ)).
Proof.
  intros Hclosed Hvalid.
  destruct (from_dict_to_dict_saved σ Hclosed Hvalid)
    as (data & s' & cobjs & robjs & Hsave & Hload & Hsame).
  by exists data, s', (mk_world (system σ) cobjs robjs).
Qed.

Lemma sample_world_empty_image_valid : datetimes_valid Sample.world_empty_image.
Proof.
  split.
  - intros r c Hr Hc. apply list_elem_of_singleton in Hr. subst r.
    vm_compute in Hc. injection Hc as <-.
    split; [vm_compute; reflexivity|]. intros d [=].
  - intros cid l r v Hl Hr Hv.
    apply elem_of_map_to_list in Hl.
    replace (map_to_list (receipts (system Sample.world_empty_image)))
      with [("c1", [0%nat])] in Hl by (vm_compute; reflexivity).
    apply list_elem_of_singleton in Hl. injection Hl as -> ->.
    apply list_elem_of_singleton in Hr. subst r.
    vm_compute in Hv. injection Hv as <-. split; vm_compute; reflexivity.
Qed.

Lemma to_dict_from_dict_saved_witness :
  ∃ data s' σ',
    to_dict Sample.world_empty_image = (Return data, Sample.world_empty_image)
    ∧ from_dict data Sample.world_empty_image = (Return s', σ')
    ∧ contents σ' s'
      = saved_contents
          (contents Sample.world_empty_image (system Sample.world_empty_image)).
Proof.
  apply (to_dict_from_dict_saved Sample.world_empty_image).
  - by_evaluation.
  - exact sample_world_empty_image_valid.
Defined.

(** On the sample with the empty image the receipt comes back without
    image. *)
Example saved_contents_sample :
  (saved_contents
     (contents Sample.world_empty_image (system Sample.world_empty_image))).2
    !! "c1"
  = Some (Some [Receipt.mk "r2" Sample.day0 None "" [] 1 Sample.day0]).
Proof. vm_compute. reflexivity. Qed.

(** ** Passwords, continued *)

(** X23: what [verify_password] accepts.  It answers [True] exactly when a
    salt that is not the empty string is stored and the stored hash is the
    hash of the given password with that salt; in particular a customer
    whose salt is the empty string verifies no password, even the one whose
    hash is stored. *)
Theorem verify_password_iff (c : Customer.t) (q : string) :
  Customer.verify_password q c = Return true
  ↔ ∃ s h, Customer.salt c = Some s ∧ s ≠ ""
           ∧ Customer._hash_password q s = Return h
           ∧ Customer.password_hash c = Some h.
Proof.
  rewrite verify_password_cases.
  destruct (Customer.password_hash c) as [h0|], (Customer.salt c) as [s|].
  - destruct (str_truthy h0) eqn:Hh0, (str_truthy s) eqn:Hs; cbn [andb].
    + destruct (Customer._hash_password q s) as [h|e] eqn:Hh; cbn.
      * split.
        -- intros [= Heq]. apply String.eqb_eq in Heq. subst h0.
           exists s, h. repeat split; [|done]. intros ->. discriminate.
        -- intros (s' & h' & [= <-] & _ & Hh' & [= ->]).
           assert (h' = h) as -> by congruence. by rewrite String.eqb_refl.
      * split; [discriminate|].
        intros (s' & h' & [= <-] & _ & Hh' & _). congruence.
    + split; [discriminate|]. intros (s' & h' & [= <-] & Hne & _).
      by destruct s.
    + split; [discriminate|]. intros (s' & h' & _ & _ & Hh' & [= ->]).
      apply hash_password_digest in Hh' as (_ & Hlen & _).
      rewrite str_truthy_length in Hh0; [discriminate|lia].
    + split; [discriminate|]. intros (s' & h' & [= <-] & Hne & _).
      by destruct s.
  - split; [discriminate|]. by intros (s' & h' & [=] & _).
  - split; [discriminate|]. by intros (s' & h' & _ & _ & _ & [=]).
  - split; [discriminate|]. by intros (s' & h' & [=] & _).
Qed.

(** X24: what [set_password] stores.  For a password that can be encoded
    the call returns; the salt is then the 32 hexadecimal digits of the 16
    bytes drawn and the hash is the 64 hexadecimal digits of the SHA-256 of
    the password followed by the salt.  For a password that holds a
    surrogate the call raises [UnicodeEncodeError]; the new salt is stored
    by then and the hash is the old one.  Either way every other attribute
    stays.  A second [set_password] with a password that can be encoded
    leaves nothing of the first call, whatever the first call did. *)
Theorem set_password_credentials (c : Customer.t) (entropy entropy' : list byte)
    (p p' : string) :
  length entropy = 16%nat →
  let c' := snd (Customer.set_password entropy p c) in
  (has_surrogate p = false →
   fst (Customer.set_password entropy p c) = Return tt
   ∧ ∃ s h, Customer.salt c' = Some s ∧ Customer.password_hash c' = Some h
            ∧ s = secrets.token_hex entropy
            ∧ String.length s = 32%nat ∧ hex_digits s
            ∧ h = hashlib.sha256_hexdigest (list_byte_of_string (p +:+ s))
            ∧ String.length h = 64%nat ∧ hex_digits h
            ∧ Customer._hash_password p s = Return h)
  ∧ (has_surrogate p = true →
     fst (Customer.set_password entropy p c)
     = Raise (UnicodeEncodeError "surrogates not allowed")
     ∧ Customer.salt c' = Some (secrets.token_hex entropy)
     ∧ Customer.password_hash c' = Customer.password_hash c)
  ∧ (Customer.customer_id c', Customer.email c', Customer.birthdate c',
     Customer.gender c', Customer.address c', Customer.favorite_food c',
     Customer.purchase_history c', Customer.last_login c')
    = (Customer.customer_id c, Customer.email c, Customer.birthdate c,
       Customer.gender c, Customer.address c, Customer.favorite_food c,
       Customer.purchase_history c, Customer.last_login c)
  ∧ (has_surrogate p' = false →
     Customer.set_password entropy' p' c' = Customer.set_password entropy' p' c).
Proof.
  intros Hentropy c'. split; [|split; [|split]].
  - intros Hp. unfold c'. rewrite (set_password_returns c entropy p Hp).
    split; [reflexivity|]. cbn [snd Customer.salt Customer.password_hash].
    eexists _, _. split; [reflexivity|]. split; [reflexivity|].
    split; [reflexivity|].
    split; [by rewrite token_hex_length, Hentropy|].
    split; [apply token_hex_digits|]. split; [reflexivity|].
    split; [apply hexdigest_length|]. split; [apply hexdigest_digits|].
    apply hash_password_returns. by rewrite has_surrogate_token_hex.
  - intros Hp. unfold c'. by rewrite (set_password_raises c entropy p Hp).
  - unfold c', Customer.set_password.
    by destruct (Customer._hash_password p (secrets.token_hex entropy)).
  - intros Hp'. rewrite !set_password_returns by done.
    unfold c', Customer.set_password.
    by destruct (Customer._hash_password p (secrets.token_hex entropy)).
Qed.

Lemma set_password_credentials_witness :
  fst (Customer.set_password Sample.entropy16 "p1" Sample.alice) = Return tt
  ∧ ∃ s h, Customer.salt Sample.alice_p1 = Some s
           ∧ Customer.password_hash Sample.alice_p1 = Some h
           ∧ s = secrets.token_hex Sample.entropy16
           ∧ String.length s = 32%nat ∧ hex_digits s
           ∧ h = hashlib.sha256_hexdigest (list_byte_of_string ("p1" +:+ s))
           ∧ String.length h = 64%nat ∧ hex_digits h
           ∧ Customer._hash_password "p1" s = Return h.
Proof.
  apply (proj1 (set_password_credentials Sample.alice Sample.entropy16
                  Sample.entropy16 "p1" "p2" eq_refl)).
  reflexivity.
Defined.

(** ** Lookup by email, continued *)

Lemma find_by_email_lower (lower : string → string) (email1 email2 : string)
    (l : list nat) (σ : world) :
  lower email1 = lower email2 →
  find_by_email lower email1 l σ = find_by_email lower email2 l σ.
Proof.
  intros Hlower. induction l as [|r l IH]; [reflexivity|].
  cbn [find_by_email]. unfold py_bind, customer_at.
  destruct (customer_objs σ !! r) as [c|]; [|reflexivity].
  rewrite Hlower. by destruct (String.eqb _ _).
Qed.

(** X25: the letter case of the email of a call does not matter.  Two
    emails with the same lower-cased text give the same answer and the same
    effect in [get_customer_by_email] and in [authenticate_customer], in
    every state. *)
Theorem lookup_ignores_case (lower : string → string) (σ : world)
    (email1 email2 : string) :
  lower email1 = lower email2 →
  get_customer_by_email lower email1 σ = get_customer_by_email lower email2 σ
  ∧ ∀ now password,
      authenticate_customer lower now email1 password σ
      = authenticate_customer lower now email2 password σ.
Proof.
  intros Hlower.
  assert (get_customer_by_email lower email1 σ
          = get_customer_by_email lower email2 σ) as Heq.
  { unfold get_customer_by_email, py_bind, get_self.
    by apply find_by_email_lower. }
  split; [exact Heq|].
  intros now password. unfold authenticate_customer.
  unfold py_bind at 1. unfold py_bind at 3. by rewrite Heq.
Qed.

Lemma lookup_ignores_case_witness :
  get_customer_by_email lower_ascii "ALICE@example.com" Sample.world_full
  = get_customer_by_email lower_ascii "alice@EXAMPLE.COM" Sample.world_full.
Proof.
  refine (proj1 (lookup_ignores_case lower_ascii Sample.world_full
                   "ALICE@example.com" "alice@EXAMPLE.COM" _)).
  vm_compute. reflexivity.
Defined.
